(** * multitool: chunked processing of band x row x column arrays

    A shallow embedding of [multitool/multitool.py] (Python 2): the row
    partitioner [MultiTool.chunk], the per-chunk worker [mt_worker], and the
    two entry points [process_array] and [read_and_process] of the class
    [MultiTool], with the shared output array kept in an explicit store. *)

From stdpp Require Import base numbers list strings gmap.
From Stdlib Require Import ZArith Lia.

Local Open Scope Z_scope.

(** ** Python exceptions and results *)

Inductive exn :=
  | ZeroDivisionError
  | IndexError
  | TypeError
  | ValueError
  | AttributeError
  | NameError
  | OSError
  | UserError (msg : string).

Inductive result (A : Type) :=
  | Ok (a : A)
  | Raise (e : exn).
Arguments Ok {A} a.
Arguments Raise {A} e.

Definition rbind {A B} (r : result A) (k : A → result B) : result B :=
  match r with Ok a => k a | Raise e => Raise e end.

Notation "x ←r e ; k" := (rbind e (fun x => k))
  (at level 100, e at next level, k at level 200, right associativity).

(** [for x in xs: acc.append(f(x))], stopping at the first exception. *)
Fixpoint rmapM {A B} (f : A → result B) (xs : list A) : result (list B) :=
  match xs with
  | [] => Ok []
  | x :: xs' => y ←r f x; ys ←r rmapM f xs'; Ok (y :: ys)
  end.

(** ** Python integers and lists *)

(** [a / b] on Python 2 ints: floor division, [ZeroDivisionError] on 0. *)
Definition py_floordiv (a b : Z) : result Z :=
  if decide (b = 0) then Raise ZeroDivisionError else Ok (a `div` b).

(** [[x] * n]: the empty list when [n] is not positive. *)
Definition py_repeat {A} (x : A) (n : Z) : list A := replicate (Z.to_nat n) x.

(** [range(n)]. *)
Definition py_range (n : Z) : list nat := seq 0 (Z.to_nat n).

(** [sum(l)]: a left fold from 0. *)
Definition py_sum (l : list Z) : Z := foldl Z.add 0 l.

(** [l[i]] for a non-negative index. *)
Definition py_index {A} (l : list A) (i : nat) : result A :=
  match l !! i with Some x => Ok x | None => Raise IndexError end.

(** ** Chunk descriptors

    A chunk is the Python list [[col_offset, row_offset, col_extent,
    row_extent]]; the fields are named after the positions 0 to 3. *)

Record chunk_desc := Chunk {
  col_offset : Z;   (* chunk[0] *)
  row_offset : Z;   (* chunk[1] *)
  col_extent : Z;   (* chunk[2] *)
  row_extent : Z    (* chunk[3] *)
}.

#[global] Instance chunk_desc_eq_dec : EqDecision chunk_desc.
Proof. solve_decision. Defined.

(** The default of the keyword argument [nchunks] of [MultiTool.chunk]. *)
Definition chunk_default_nchunks : Z := 100.

(** [MultiTool.chunk(shape, nchunks)]; [shape] is (bands, rows, columns). *)
Definition chunk (shape : Z * Z * Z) (nchunks : Z) : result (list chunk_desc) :=
  let '(_, rows, cols) := shape in
  chunksz ←r py_floordiv rows nchunks;
  let remainder := rows - chunksz * nchunks in
  let chszs := py_repeat chunksz (nchunks - remainder)
               ++ py_repeat (chunksz + 1) remainder in
  rmapM (fun ichunk =>
           sz ←r py_index chszs ichunk;
           Ok (Chunk 0 (py_sum (take ichunk chszs)) cols sz))
        (py_range nchunks).

(** Rows covered by a chunk: [row_offset <= r < row_offset + row_extent]. *)
Definition covers (ch : chunk_desc) (r : Z) : Prop :=
  row_offset ch ≤ r < row_offset ch + row_extent ch.

(** [' '.join(items)]: every item has to be a string. *)
Inductive pyobj :=
  | PyInt (z : Z)
  | PyStr (s : string).

Fixpoint str_join (sep : string) (items : list pyobj) : result string :=
  match items with
  | [] => Ok EmptyString
  | PyInt _ :: _ => Raise TypeError
  | [PyStr s] => Ok s
  | PyStr s :: rest => t ←r str_join sep rest; Ok (s +:+ sep +:+ t)
  end.

(** The items of the list [chunk], all of them ints. *)
Definition chunk_items (ch : chunk_desc) : list pyobj :=
  [PyInt (col_offset ch); PyInt (row_offset ch);
   PyInt (col_extent ch); PyInt (row_extent ch)].

(** Bounds of the slice [lo:hi] of a sequence of length [len]: a negative
    index counts from the end, and both ends are clipped to the sequence. *)
Definition py_clamp (len : nat) (i : Z) : nat :=
  if decide (i < 0) then Z.to_nat (Z.max 0 (i + Z.of_nat len))
  else Z.to_nat (Z.min i (Z.of_nat len)).

Definition py_slice_bounds (len : nat) (lo hi : Z) : nat * nat :=
  let a := py_clamp len lo in
  (a, Nat.max a (py_clamp len hi)).

(** [l[lo:hi]]. *)
Definition py_slice {A} (lo hi : Z) (l : list A) : list A :=
  let '(a, b) := py_slice_bounds (length l) lo hi in
  take (b - a) (drop a l).

(** [l[lo:hi] = src] where [src] has as many items as the slice, applying
    [f] to each old item and its replacement. *)
Definition splice {A B} (f : A → B → A) (a b : nat) (l : list A) (src : list B)
  : list A :=
  take a l ++ zip_with f (take (b - a) (drop a l)) src ++ drop b l.

(** ** Arrays

    A numpy array of floats is its shape and its cells, nested along the
    axes in order.  The cell type is abstract: all that the program asks of
    a float is whether it is NaN. *)

Class CellType := {
  cell : Type;
  nan : cell;          (* np.nan *)
  zero : cell;         (* the content of fresh shared memory *)
  isnan : cell → bool  (* np.isnan *)
}.

Section Model.
Context `{CellType}.

Record arr2 := Arr2 {
  shape2 : nat * nat;
  cells2 : list (list cell)
}.

Record arr3 := Arr3 {
  shape3 : nat * nat * nat;
  cells3 : list (list (list cell))
}.

Definition wf_plane {A} (rows cols : nat) (p : list (list A)) : Prop :=
  length p = rows ∧ Forall (fun row => length row = cols) p.

Definition wf2 (a : arr2) : Prop :=
  wf_plane (fst (shape2 a)) (snd (shape2 a)) (cells2 a).

Definition wf3 (a : arr3) : Prop :=
  let '(b, r, c) := shape3 a in
  length (cells3 a) = b ∧ Forall (wf_plane r c) (cells3 a).

(** The cell at band [b], row [r], column [c]. *)
Definition at3 (a : arr3) (b r c : nat) : option cell :=
  band ← cells3 a !! b; row ← band !! r; row !! c.

Definition at2 (a : arr2) (b j : nat) : option cell :=
  band ← cells2 a !! b; band !! j.

(** [np.empty(shape); a[:] = x], and what [sa.create] hands out with [zero].
    A negative dimension is a [ValueError]. *)
Definition np_full (shape : Z * Z * Z) (x : cell) : result arr3 :=
  let '(b, r, c) := shape in
  if decide (b < 0 ∨ r < 0 ∨ c < 0) then Raise ValueError
  else Ok (Arr3 (Z.to_nat b, Z.to_nat r, Z.to_nat c)
             (replicate (Z.to_nat b)
                (replicate (Z.to_nat r) (replicate (Z.to_nat c) x)))).

(** [a[:] = x]. *)
Definition fill3 (a : arr3) (x : cell) : arr3 :=
  let '(b, r, c) := shape3 a in
  Arr3 (b, r, c) (replicate b (replicate r (replicate c x))).

(** [a.shape] as Python ints. *)
Definition shapeZ (a : arr3) : Z * Z * Z :=
  let '(b, r, c) := shape3 a in (Z.of_nat b, Z.of_nat r, Z.of_nat c).

(** [a[:, r0:r1, c0:c1]]. *)
Definition slice3 (a : arr3) (r0 r1 c0 c1 : Z) : arr3 :=
  let '(b, r, c) := shape3 a in
  let '(ra, rb) := py_slice_bounds r r0 r1 in
  let '(ca, cb) := py_slice_bounds c c0 c1 in
  Arr3 (b, rb - ra, cb - ca)%nat
       (map (fun band => map (py_slice c0 c1) (py_slice r0 r1 band)) (cells3 a)).

(** [a.reshape((1, shape[0], shape[1]))] of a 2-D array. *)
Definition reshape_band (a : arr2) : arr3 :=
  Arr3 (1%nat, fst (shape2 a), snd (shape2 a)) [cells2 a].

(** Boolean masks over the row x column plane. *)
Definition mask := list (list bool).

(** [np.ones((rows, cols)).astype('bool')]. *)
Definition np_ones_bool (rows cols : nat) : mask :=
  replicate rows (replicate cols true).

(** [np.all(~np.isnan(a), axis=0)]: the conjunction over the band axis,
    which is all true when there is no band. *)
Definition np_all_notnan (a : arr3) : mask :=
  let '(_, r, c) := shape3 a in
  foldr (fun band acc =>
           zip_with (zip_with andb)
                    (map (map (fun x => negb (isnan x))) band) acc)
        (np_ones_bool r c) (cells3 a).

(** The items of [l] at the true positions of [m], in order. *)
Fixpoint select {A} (m : list bool) (l : list A) : list A :=
  match m, l with
  | b :: m', x :: l' => if b then x :: select m' l' else select m' l'
  | _, _ => []
  end.

(** [old] with the items of [new] put, in order, at the true positions
    of [m]. *)
Fixpoint scatter {A} (m : list bool) (old new : list A) : list A :=
  match m, old with
  | b :: m', o :: old' =>
      if b then
        match new with
        | n :: new' => n :: scatter m' old' new'
        | [] => o :: scatter m' old' []
        end
      else o :: scatter m' old' new
  | _, _ => []
  end.

(** Number of true cells of a mask. *)
Definition count_true (m : mask) : nat := length (filter (fun b => b = true) (concat m)).

(** A flat list cut into [rows] rows of [cols] items. *)
Fixpoint unflatten {A} (rows cols : nat) (l : list A) : list (list A) :=
  match rows with
  | O => []
  | S rows' => take cols l :: unflatten rows' cols (drop cols l)
  end.

(** [a[:, valid]]: for each band the cells of the valid pixels, in row-major
    order. *)
Definition take_mask (a : arr3) (valid : mask) : arr2 :=
  let '(b, _, _) := shape3 a in
  Arr2 (b, count_true valid)
       (map (fun band => select (concat valid) (concat band)) (cells3 a)).

(** Broadcasting of one axis: a source axis of length 1 is repeated. *)
Definition bdim (s t : nat) : bool := bool_decide (s = t) || bool_decide (s = 1%nat).

Definition stretch {A} (s t : nat) (l : list A) : list A :=
  if decide (s = t) then l
  else match l with [x] => replicate t x | _ => l end.

Definition broadcast2 (target : nat * nat) (src : arr2) : option (list (list cell)) :=
  let '(tb, tn) := target in
  let '(sb, sn) := shape2 src in
  if bdim sb tb && bdim sn tn
  then Some (stretch sb tb (map (stretch sn tn) (cells2 src)))
  else None.

Definition broadcast3 (target : nat * nat * nat) (src : arr3)
  : option (list (list (list cell))) :=
  let '(tb, tr, tc) := target in
  let '(sb, sr, sc) := shape3 src in
  if bdim sb tb && bdim sr tr && bdim sc tc
  then Some (stretch sb tb
               (map (fun band => stretch sr tr (map (stretch sc tc) band))
                    (cells3 src)))
  else None.

(** [a[:, valid] = src]: [src] is broadcast to (bands of [a], number of valid
    pixels), a [ValueError] when it cannot be; [a] is untouched then. *)
Definition put_mask (a : arr3) (valid : mask) (src : arr2) : result arr3 :=
  let '(b, r, c) := shape3 a in
  match broadcast2 (b, count_true valid) src with
  | None => Raise ValueError
  | Some vals =>
      Ok (Arr3 (b, r, c)
            (zip_with (fun band new =>
                         unflatten r c (scatter (concat valid) (concat band) new))
                      (cells3 a) vals))
  end.

(** [a[:, r0:r1, c0:c1] = src], with [src] broadcast to the region. *)
Definition assign_region (a : arr3) (r0 r1 c0 c1 : Z) (src : arr3) : result arr3 :=
  let '(b, r, c) := shape3 a in
  let '(ra, rb) := py_slice_bounds r r0 r1 in
  let '(ca, cb) := py_slice_bounds c c0 c1 in
  match broadcast3 (b, rb - ra, cb - ca)%nat src with
  | None => Raise ValueError
  | Some vals =>
      Ok (Arr3 (b, r, c)
            (zip_with (fun band new =>
                         splice (fun row srow => take ca row ++ srow ++ drop cb row)
                                ra rb band new)
                      (cells3 a) vals))
  end.

(** ** The instance, the worker globals and the shared-array store *)

(** What a read function hands back: a 2-D (row, column) or a 3-D array. *)
Inductive rdata :=
  | Read2 (a : arr2)
  | Read3 (a : arr3).

Definition rfunc_t := chunk_desc → result rdata.
Definition pfunc_t := arr2 → result arr2.

(** The write function is the closure [wfunc] that [_setup_arrays] defines
    over [self], or a callable that the caller stored in the attribute. *)
Inductive wfunc_t :=
  | SharedWrite
  | CallerWrite (w : arr3 → chunk_desc → result unit).

(** The attributes of a [MultiTool] object; [None] in the fields that
    [__init__] does not assign stands for a missing attribute. *)
Record MultiTool := {
  pfunc : pfunc_t;
  nbandsout : Z;
  nchunks : Z;
  nproc : Z;
  dropnodata : bool;
  wfunc : option wfunc_t;
  rfunc : option rfunc_t;
  inshape : option (Z * Z * Z);
  sa_id : option string;          (* self.id *)
  arrout : option nat;            (* a reference into the store *)
  chunks : option (list chunk_desc)
}.

(** [MultiTool.__init__]. *)
Definition __init__ (pf : pfunc_t) (nbandsout_ nchunks_ nproc_ : Z)
  (dropnodata_ : bool) : MultiTool :=
  {| pfunc := pf; nbandsout := nbandsout_; nchunks := nchunks_;
     nproc := nproc_; dropnodata := dropnodata_; wfunc := None;
     rfunc := None; inshape := None; sa_id := None; arrout := None;
     chunks := None |}.

(** The module globals that [_setup_globals] assigns. *)
Record globals := {
  MT_OUTBANDS : Z;
  MT_RFUNC : rfunc_t;
  MT_PFUNC : pfunc_t;
  MT_WFUNC : option wfunc_t;
  MT_DROPNODATA : bool
}.

(** What the program does to the outside, in order. *)
Inductive event :=
  | EvCreate (name : string) (shape : Z * Z * Z)   (* sa.create *)
  | EvFill (h : nat)                               (* arrout[:] = np.nan *)
  | EvDelete (name : string)                       (* sa.delete *)
  | EvRead (ch : chunk_desc)                       (* MT_RFUNC(chunk) *)
  | EvTransform (x : arr2)                         (* MT_PFUNC(...) *)
  | EvPrint (line : string)                        (* print *)
  | EvSetTrace                                     (* nose.tools.set_trace() *)
  | EvWrite (out : arr3) (ch : chunk_desc).        (* MT_WFUNC(output, chunk) *)

(** The object, the globals of the running process, the source of uuids,
    the names registered with SharedArray, the arrays they are attached to
    (a reference is an index into [sa_heap]) and the trace of events. *)
Record state := State {
  self : MultiTool;
  mt_globals : option globals;
  uuid_source : nat → string;
  uuid_drawn : nat;
  sa_names : gmap string nat;
  sa_heap : list arr3;
  trace : list event
}.

Definition with_self (f : MultiTool → MultiTool) (s : state) : state :=
  State (f (self s)) (mt_globals s) (uuid_source s) (uuid_drawn s)
        (sa_names s) (sa_heap s) (trace s).

Definition with_globals (g : option globals) (s : state) : state :=
  State (self s) g (uuid_source s) (uuid_drawn s)
        (sa_names s) (sa_heap s) (trace s).

Definition with_drawn (n : nat) (s : state) : state :=
  State (self s) (mt_globals s) (uuid_source s) n
        (sa_names s) (sa_heap s) (trace s).

Definition with_names (m : gmap string nat) (s : state) : state :=
  State (self s) (mt_globals s) (uuid_source s) (uuid_drawn s)
        m (sa_heap s) (trace s).

Definition with_heap (h : list arr3) (s : state) : state :=
  State (self s) (mt_globals s) (uuid_source s) (uuid_drawn s)
        (sa_names s) h (trace s).

Definition with_trace (t : list event) (s : state) : state :=
  State (self s) (mt_globals s) (uuid_source s) (uuid_drawn s)
        (sa_names s) (sa_heap s) t.

Definition set_wfunc (w : option wfunc_t) (o : MultiTool) : MultiTool :=
  {| pfunc := pfunc o; nbandsout := nbandsout o; nchunks := nchunks o;
     nproc := nproc o; dropnodata := dropnodata o; wfunc := w;
     rfunc := rfunc o; inshape := inshape o; sa_id := sa_id o;
     arrout := arrout o; chunks := chunks o |}.

Definition set_rfunc (r : option rfunc_t) (o : MultiTool) : MultiTool :=
  {| pfunc := pfunc o; nbandsout := nbandsout o; nchunks := nchunks o;
     nproc := nproc o; dropnodata := dropnodata o; wfunc := wfunc o;
     rfunc := r; inshape := inshape o; sa_id := sa_id o;
     arrout := arrout o; chunks := chunks o |}.

Definition set_inshape (x : option (Z * Z * Z)) (o : MultiTool) : MultiTool :=
  {| pfunc := pfunc o; nbandsout := nbandsout o; nchunks := nchunks o;
     nproc := nproc o; dropnodata := dropnodata o; wfunc := wfunc o;
     rfunc := rfunc o; inshape := x; sa_id := sa_id o;
     arrout := arrout o; chunks := chunks o |}.

Definition set_sa_id (x : option string) (o : MultiTool) : MultiTool :=
  {| pfunc := pfunc o; nbandsout := nbandsout o; nchunks := nchunks o;
     nproc := nproc o; dropnodata := dropnodata o; wfunc := wfunc o;
     rfunc := rfunc o; inshape := inshape o; sa_id := x;
     arrout := arrout o; chunks := chunks o |}.

Definition set_arrout (x : option nat) (o : MultiTool) : MultiTool :=
  {| pfunc := pfunc o; nbandsout := nbandsout o; nchunks := nchunks o;
     nproc := nproc o; dropnodata := dropnodata o; wfunc := wfunc o;
     rfunc := rfunc o; inshape := inshape o; sa_id := sa_id o;
     arrout := x; chunks := chunks o |}.

Definition set_chunks (x : option (list chunk_desc)) (o : MultiTool) : MultiTool :=
  {| pfunc := pfunc o; nbandsout := nbandsout o; nchunks := nchunks o;
     nproc := nproc o; dropnodata := dropnodata o; wfunc := wfunc o;
     rfunc := rfunc o; inshape := inshape o; sa_id := sa_id o;
     arrout := arrout o; chunks := x |}.

(** ** Statements: state passing with exceptions

    A statement maps the state to its outcome and the state it leaves; what
    was assigned before an exception stays assigned. *)

Definition M (A : Type) : Type := state → result A * state.

Definition ret {A} (a : A) : M A := fun s => (Ok a, s).

Definition bind {A B} (m : M A) (k : A → M B) : M B :=
  fun s => match m s with
           | (Ok a, s') => k a s'
           | (Raise e, s') => (Raise e, s')
           end.

Definition lift {A} (r : result A) : M A := fun s => (r, s).

Definition gets {A} (f : state → A) : M A := fun s => (Ok (f s), s).

Definition modify (f : state → state) : M unit := fun s => (Ok tt, f s).

(** [try: m except Exception, e: h e]. *)
Definition try_except {A} (m : M A) (h : exn → M A) : M A :=
  fun s => match m s with
           | (Ok a, s') => (Ok a, s')
           | (Raise e, s') => h e s'
           end.

Notation "x ←m e ; k" := (bind e (fun x => k))
  (at level 100, e at next level, k at level 200, right associativity).
Notation "e ;m k" := (bind e (fun _ => k))
  (at level 100, k at level 200, right associativity).

(** [for x in xs: f(x)]. *)
Fixpoint for_each {A} (f : A → M unit) (xs : list A) : M unit :=
  match xs with
  | [] => ret tt
  | x :: xs' => f x ;m for_each f xs'
  end.

Definition log (e : event) : M unit :=
  modify (fun s => with_trace (trace s ++ [e]) s).

(** Reading an attribute of [self] that may be missing. *)
Definition attr {A} (f : MultiTool → option A) : M A :=
  fun s => match f (self s) with
           | Some a => (Ok a, s)
           | None => (Raise AttributeError, s)
           end.

Definition assign (f : MultiTool → MultiTool) : M unit := modify (with_self f).

(** ** The external services *)

(** [str(uuid.uuid4())]: the next name of the source. *)
Definition uuid4 : M string :=
  fun s => (Ok (uuid_source s (uuid_drawn s)), with_drawn (S (uuid_drawn s)) s).

(** [sa.create(name, shape)]: a new zero-filled array registered under
    [name], which has to be free. *)
Definition sa_create (name : string) (shape : Z * Z * Z) : M nat :=
  log (EvCreate name shape) ;m
  a ←m lift (np_full shape zero) ;
  names ←m gets sa_names ;
  match names !! name with
  | Some _ => lift (Raise OSError)
  | None =>
      heap ←m gets sa_heap ;
      modify (fun s => with_heap (heap ++ [a])
                         (with_names (<[name := length heap]> names) s)) ;m
      ret (length heap)
  end.

(** [sa.delete(name)]: the name is unregistered; attached arrays live on. *)
Definition sa_delete (name : string) : M unit :=
  log (EvDelete name) ;m
  names ←m gets sa_names ;
  match names !! name with
  | None => lift (Raise OSError)
  | Some _ => modify (with_names (delete name names))
  end.

(** [arr[:] = np.nan] through the reference [h]. *)
Definition fill_nan (h : nat) : M unit :=
  log (EvFill h) ;m
  modify (fun s => with_heap (alter (fun a => fill3 a nan) h (sa_heap s)) s).

Definition print (line : string) : M unit := log (EvPrint line).

(** [traceback.format_exc()], whose text is not modelled. *)
Definition format_exc : string := "Traceback (most recent call last):".

(** The interactive debugger; the operator is taken to continue. *)
Definition set_trace : M unit := log EvSetTrace.

(** [str(e)]. *)
Definition exn_message (e : exn) : string :=
  match e with
  | ZeroDivisionError => "integer division or modulo by zero"
  | IndexError => "index out of range"
  | TypeError => "type error"
  | ValueError => "value error"
  | AttributeError => "attribute error"
  | NameError => "name error"
  | OSError => "os error"
  | UserError msg => msg
  end.

(** ** The worker *)

(** The closure [wfunc(output, chunk)] of [_setup_arrays]:
    [self.arrout[:, chunk[1]:chunk[1]+chunk[3], chunk[0]:chunk[0]+chunk[2]] = output]. *)
Definition shared_write (output : arr3) (ch : chunk_desc) : M unit :=
  h ←m attr arrout ;
  heap ←m gets sa_heap ;
  match heap !! h with
  | None => lift (Raise ValueError)
  | Some a =>
      a' ←m lift (assign_region a (row_offset ch) (row_offset ch + row_extent ch)
                                (col_offset ch) (col_offset ch + col_extent ch)
                                output) ;
      modify (fun s => with_heap (<[h := a']> (sa_heap s)) s)
  end.

(** The body of the callable [w]; calling [None] is a [TypeError]. *)
Definition apply_wfunc (w : option wfunc_t) (output : arr3) (ch : chunk_desc)
  : M unit :=
  match w with
  | None => lift (Raise TypeError)
  | Some SharedWrite => shared_write output ch
  | Some (CallerWrite f) => lift (f output ch)
  end.

(** [MT_WFUNC(output, chunk)]. *)
Definition call_wfunc (w : option wfunc_t) (output : arr3) (ch : chunk_desc)
  : M unit :=
  log (EvWrite output ch) ;m
  apply_wfunc w output ch.

(** [mt_worker(chunk)]. *)
Definition mt_worker (ch : chunk_desc) : M unit :=
  og ←m gets mt_globals ;
  g ←m lift (match og with Some g => Ok g | None => Raise NameError end) ;
  (* read chunk of data and make sure it is 3-D *)
  log (EvRead ch) ;m
  d ←m lift (MT_RFUNC g ch) ;
  let data := match d with Read3 a => a | Read2 a => reshape_band a end in
  let '(_, rows, cols) := shape3 data in
  (* make output array for this chunk *)
  output ←m lift (np_full (MT_OUTBANDS g, Z.of_nat rows, Z.of_nat cols) nan) ;
  (* only run on valid pixel signatures unless nodata set *)
  let valid := if MT_DROPNODATA g then np_all_notnan data
               else np_ones_bool rows cols in
  (* run processing function *)
  output' ←m try_except
    (let arg := take_mask data valid in
     log (EvTransform arg) ;m
     res ←m lift (MT_PFUNC g arg) ;
     lift (put_mask output valid res))
    (fun e =>
       who ←m lift (str_join " " (chunk_items ch)) ;
       print ("Error processing chunk " +:+ who +:+ ": " +:+ exn_message e) ;m
       print format_exc ;m
       set_trace ;m
       ret output) ;
  (* write using write function *)
  call_wfunc (MT_WFUNC g) output' ch.

(** ** The methods of [MultiTool] *)

(** [MultiTool._setup_globals]. *)
Definition _setup_globals (outbands : Z) (rf : rfunc_t) (pf : pfunc_t)
  (wf : option wfunc_t) (drop : bool) : M unit :=
  modify (with_globals (Some {| MT_OUTBANDS := outbands; MT_RFUNC := rf;
                                MT_PFUNC := pf; MT_WFUNC := wf;
                                MT_DROPNODATA := drop |})).

(** [MultiTool._setup_arrays]. *)
Definition _setup_arrays (shape : Z * Z * Z) : M unit :=
  assign (set_inshape (Some shape)) ;m
  w ←m gets (fun s => wfunc (self s)) ;
  match w with
  | Some _ => ret tt
  | None =>
      name ←m uuid4 ;
      assign (set_sa_id (Some name)) ;m
      shp ←m attr inshape ;
      h ←m sa_create name shp ;
      assign (set_arrout (Some h)) ;m
      fill_nan h ;m
      chs ←m lift (chunk shp chunk_default_nchunks) ;
      assign (set_chunks (Some chs)) ;m
      assign (set_wfunc (Some SharedWrite))
  end.

(** [MultiTool._cleanup]. *)
Definition _cleanup : M unit :=
  w ←m gets (fun s => wfunc (self s)) ;
  match w with
  | None => name ←m attr sa_id ; sa_delete name
  | Some _ => ret tt
  end.

(** [MultiTool._process_nomulti]. *)
Definition _process_nomulti : M nat :=
  outbands ←m gets (fun s => nbandsout (self s)) ;
  rf ←m attr rfunc ;
  pf ←m gets (fun s => pfunc (self s)) ;
  wf ←m gets (fun s => wfunc (self s)) ;
  drop ←m gets (fun s => dropnodata (self s)) ;
  _setup_globals outbands rf pf wf drop ;m
  chs ←m attr chunks ;
  for_each mt_worker chs ;m
  attr arrout.

(** The order in which a pool hands the items of [pool.map] to its workers:
    some permutation of them. *)
Record pool_schedule := {
  pool_order : list chunk_desc → list chunk_desc;
  pool_order_perm : ∀ l, pool_order l ≡ₚ l
}.

(** What the children of a pool do, seen from the parent: each child has the
    globals that the initializer gave it, the parent keeps its own, and the
    shared arrays are common. *)
Definition in_children {A} (g : globals) (m : M A) : M A :=
  fun s => let '(r, s') := m (with_globals (Some g) s) in
           (r, with_globals (mt_globals s) s').

(** [MultiTool._process]: [multiprocessing.Pool(nproc, initializer,
    initargs)], which wants at least one process, and
    [pool.map(mt_worker, self.chunks)].  A worker reads the input, which
    nothing writes during the run, computes on its own data, and touches
    the shared array only in its last statement, the write of its region;
    so a run of the pool is taken at the grain of whole chunks, one after
    the other in the order of the schedule, and [pool.map] raises what the
    first failing item raised.  The workers of a pool overlap and go on
    after one of them has failed: of a run of the pool, the order of the
    events and the state that a failing run leaves are those of this
    schedule only, and nothing below rests on them. *)
Definition _process (sched : pool_schedule) : M nat :=
  outbands ←m gets (fun s => nbandsout (self s)) ;
  rf ←m attr rfunc ;
  pf ←m gets (fun s => pfunc (self s)) ;
  wf ←m gets (fun s => wfunc (self s)) ;
  drop ←m gets (fun s => dropnodata (self s)) ;
  np ←m gets (fun s => nproc (self s)) ;
  (if decide (np < 1) then lift (Raise ValueError) else ret tt) ;m
  chs ←m attr chunks ;
  in_children {| MT_OUTBANDS := outbands; MT_RFUNC := rf; MT_PFUNC := pf;
                 MT_WFUNC := wf; MT_DROPNODATA := drop |}
              (for_each mt_worker (pool_order sched chs)) ;m
  attr arrout.

(** The read function that [process_array] derives from [arrin]:
    [lambda chunk: arrin[:, chunk[1]:chunk[1]+chunk[3], chunk[0]:chunk[0]+chunk[2]]]. *)
Definition array_reader (arrin : arr3) : rfunc_t :=
  fun ch => Ok (Read3 (slice3 arrin (row_offset ch) (row_offset ch + row_extent ch)
                              (col_offset ch) (col_offset ch + col_extent ch))).

(** [MultiTool.process_array]; the result is the reference [self.arrout].
    The input is an array of its own, not one of the shared arrays. *)
Definition process_array (sched : pool_schedule) (arrin : arr3) : M nat :=
  _setup_arrays (shapeZ arrin) ;m
  assign (set_rfunc (Some (array_reader arrin))) ;m
  np ←m gets (fun s => nproc (self s)) ;
  (if decide (np = 1) then _process_nomulti else _process sched) ;m
  _cleanup ;m
  attr arrout.

(** [MultiTool.read_and_process]; the parameter [rf] is not used by the
    body of the method. *)
Definition read_and_process (sched : pool_schedule) (shape : Z * Z * Z)
  (rf : rfunc_t) : M nat :=
  _setup_arrays shape ;m
  np ←m gets (fun s => nproc (self s)) ;
  (if decide (np = 1) then _process_nomulti else _process sched) ;m
  _cleanup ;m
  attr arrout.

(** A new object in a process where nothing has been allocated yet. *)
Definition fresh_state (o : MultiTool) (uuids : nat → string) : state :=
  State o None uuids 0 ∅ [] [].

End Model.

(** ** Closed forms used in the proofs *)

(** The row extents that [chunk] computes, and the descriptors it returns. *)
Definition chunk_sizes (rows nchunks : Z) : list Z :=
  let chunksz := rows `div` nchunks in
  let remainder := rows - chunksz * nchunks in
  py_repeat chunksz (nchunks - remainder) ++ py_repeat (chunksz + 1) remainder.

Definition chunk_list (rows cols nchunks : Z) : list chunk_desc :=
  map (fun i => Chunk 0 (py_sum (take i (chunk_sizes rows nchunks))) cols
                      (default 0 (chunk_sizes rows nchunks !! i)))
      (seq 0 (Z.to_nat nchunks)).

(** The item of a plane at row [r] and column [c]. *)
Definition plane_at {A} (p : list (list A)) (r c : nat) : option A :=
  row ← p !! r; row !! c.

(** Number of true items of [m] before position [p]. *)
Fixpoint rank (m : list bool) (p : nat) : nat :=
  match p, m with
  | S p', b :: m' => (if b then 1 else 0) + rank m' p'
  | _, _ => 0
  end%nat.

(** A left fold that stops at the first exception. *)
Fixpoint rfoldM {S A} (f : S → A → result S) (s : S) (xs : list A) : result S :=
  match xs with
  | [] => Ok s
  | x :: xs' => s' ←r f s x; rfoldM f s' xs'
  end.

(** The value of a result, if any. *)
Definition ok_of {A} (r : result A) : option A :=
  match r with Ok a => Some a | Raise _ => None end.

(** [new] written over the items of [l] from position [a] on. *)
Definition overwrite {A} (a : nat) (new l : list A) : list A :=
  take a l ++ new ++ drop (a + length new) l.

Section ClosedForms.
Context `{CellType}.

(** The pixel-vector of an array at row [r] and column [c]: its cells
    along the band axis. *)
Definition pixel (a : arr3) (r c : nat) : list cell :=
  omap (fun band => plane_at band r c) (cells3 a).

(** Column [j] of a (bands x pixels) array: a pixel-vector. *)
Definition column (x : arr2) (j : nat) : list cell :=
  omap (fun band => band !! j) (cells2 x).

(** A chunk of an array with [R] rows and [C] columns that lies within
    the array and spans its width. *)
Definition in_bounds (R C : nat) (ch : chunk_desc) : Prop :=
  col_offset ch = 0 ∧ col_extent ch = Z.of_nat C ∧
  0 ≤ row_offset ch ∧ 0 ≤ row_extent ch ∧
  row_offset ch + row_extent ch ≤ Z.of_nat R.

(** The rows of a chunk within one band. *)
Definition chunk_rows {A} (ch : chunk_desc) (band : list A) : list A :=
  take (Z.to_nat (row_extent ch)) (drop (Z.to_nat (row_offset ch)) band).

(** The rows from [off] on of every band replaced by those of [vals]. *)
Definition write_rows (off : nat) (vals cells : list (list (list cell)))
  : list (list (list cell)) :=
  zip_with (fun band new => overwrite off new band) cells vals.

(** Two chunks whose row ranges do not meet. *)
Definition row_disjoint (x y : chunk_desc) : Prop :=
  row_offset x + row_extent x ≤ row_offset y ∨
  row_offset y + row_extent y ≤ row_offset x.

(** The array that a read function returned, made 3-D. *)
Definition as_3d (d : rdata) : arr3 :=
  match d with Read3 a => a | Read2 a => reshape_band a end.

(** The validity mask that [mt_worker] computes for [data]. *)
Definition valid_mask (drop : bool) (data : arr3) : mask :=
  let '(_, rows, cols) := shape3 data in
  if drop then np_all_notnan data else np_ones_bool rows cols.

(** The array that [mt_worker] hands to the write function for a chunk, as
    a function of the globals: the handler of the [try] always ends in the
    [TypeError] of joining the ints of the chunk. *)
Definition chunk_output (g : globals) (ch : chunk_desc) : result arr3 :=
  d ←r MT_RFUNC g ch;
  let data := as_3d d in
  let '(_, rows, cols) := shape3 data in
  output ←r np_full (MT_OUTBANDS g, Z.of_nat rows, Z.of_nat cols) nan;
  let valid := valid_mask (MT_DROPNODATA g) data in
  match (res ←r MT_PFUNC g (take_mask data valid); put_mask output valid res) with
  | Ok o => Ok o
  | Raise _ => Raise TypeError
  end.

(** The events of [mt_worker] on a chunk. *)
Definition worker_events (g : globals) (ch : chunk_desc) : list event :=
  EvRead ch ::
  match MT_RFUNC g ch with
  | Raise _ => []
  | Ok d =>
      let data := as_3d d in
      let '(_, rows, cols) := shape3 data in
      match np_full (MT_OUTBANDS g, Z.of_nat rows, Z.of_nat cols) nan with
      | Raise _ => []
      | Ok output =>
          let valid := valid_mask (MT_DROPNODATA g) data in
          EvTransform (take_mask data valid) ::
          match (res ←r MT_PFUNC g (take_mask data valid);
                 put_mask output valid res) with
          | Ok o => [EvWrite o ch]
          | Raise _ => []
          end
      end
  end.

(** What [mt_worker] does to the shared array when the write function is
    the closure of [_setup_arrays]. *)
Definition chunk_step (g : globals) (buf : arr3) (ch : chunk_desc) : result arr3 :=
  o ←r chunk_output g ch;
  assign_region buf (row_offset ch) (row_offset ch + row_extent ch)
                (col_offset ch) (col_offset ch + col_extent ch) o.

(** Whether an event is a call of [sa.delete]. *)
Definition is_delete (e : event) : bool :=
  match e with EvDelete _ => true | _ => false end.

(** Events that neither allocate, nor fill, nor free a shared array. *)
Definition quiet (e : event) : Prop :=
  match e with
  | EvCreate _ _ | EvFill _ | EvDelete _ => False
  | _ => True
  end.

(** What a statement may leave different: the globals, the contents of the
    shared arrays and the trace, extended by quiet events only. *)
Definition frame (s s' : state) : Prop :=
  self s' = self s ∧
  uuid_source s' = uuid_source s ∧ uuid_drawn s' = uuid_drawn s ∧
  sa_names s' = sa_names s ∧
  length (sa_heap s') = length (sa_heap s) ∧
  (∀ h, arrout (self s) ≠ Some h → sa_heap s' !! h = sa_heap s !! h) ∧
  ∃ evs, trace s' = trace s ++ evs ∧ Forall quiet evs.

(** An array of the given shape filled with NaN. *)
Definition nan_array (shape : Z * Z * Z) : arr3 :=
  let '(b, r, c) := shape in
  Arr3 (Z.to_nat b, Z.to_nat r, Z.to_nat c)
       (replicate (Z.to_nat b) (replicate (Z.to_nat r) (replicate (Z.to_nat c) nan))).

(** The object after [_setup_arrays] has allocated the shared array. *)
Definition after_setup (o : MultiTool) (shape : Z * Z * Z) (name : string)
  (h : nat) (chs : list chunk_desc) : MultiTool :=
  set_wfunc (Some SharedWrite)
    (set_chunks (Some chs)
       (set_arrout (Some h)
          (set_sa_id (Some name) (set_inshape (Some shape) o)))).

(** The globals that [_process_nomulti] and [_process] install. *)
Definition globals_of (o : MultiTool) (rf : rfunc_t) : globals :=
  {| MT_OUTBANDS := nbandsout o; MT_RFUNC := rf; MT_PFUNC := pfunc o;
     MT_WFUNC := wfunc o; MT_DROPNODATA := dropnodata o |}.

(** Globals whose read and transform functions hand back well-formed
    arrays, as every numpy array is. *)
Definition wf_transform (pf : pfunc_t) : Prop :=
  ∀ x y, wf2 x → pf x = Ok y → wf2 y.

Definition wf_globals (g : globals) : Prop :=
  (∀ ch d, MT_RFUNC g ch = Ok d → wf3 (as_3d d)) ∧
  wf_transform (MT_PFUNC g).

(** A transform that works pixel by pixel: on a ([B] x n) array it returns
    a well-formed ([Bo] x n) array whose every column is [f] of the same
    column of the argument. *)
Definition pixelwise (pf : pfunc_t) (f : list cell → list cell) (B Bo : nat)
  : Prop :=
  ∀ x n, shape2 x = (B, n) → wf2 x →
    ∃ y, pf x = Ok y ∧ shape2 y = (Bo, n) ∧ wf2 y ∧
         ∀ j, (j < n)%nat → column y j = f (column x j).

(** The transform applied to the whole array at once, as the worker applies
    it to a chunk: the valid pixel-vectors of the array go through the
    transform and the results are put at their places in a NaN array. *)
Definition whole_array (pf : pfunc_t) (outbands : Z) (drop : bool) (a : arr3)
  : result arr3 :=
  let '(_, rows, cols) := shape3 a in
  output ←r np_full (outbands, Z.of_nat rows, Z.of_nat cols) nan;
  let valid := valid_mask drop a in
  res ←r pf (take_mask a valid);
  put_mask output valid res.

(** The cell that a pixel-wise transform [f] leaves at band [b], row [r] and
    column [c] under the mask [valid]. *)
Definition expect (f : list cell → list cell) (valid : mask) (data : arr3)
  (b r c : nat) : option cell :=
  match plane_at valid r c with
  | Some true => f (pixel data r c) !! b
  | _ => Some nan
  end.

(** The rows of a chunk in every band of an array. *)
Definition chunk_slice (ch : chunk_desc) (a : arr3) : arr3 :=
  let '(b, _, c) := shape3 a in
  Arr3 (b, Z.to_nat (row_extent ch), c) (map (chunk_rows ch) (cells3 a)).

(** The rows of [cells] that satisfy [S] are those of [ecells]. *)
Definition rows_agree (S : nat → Prop) (cells ecells : list (list (list cell)))
  : Prop :=
  ∀ b band eband r,
    cells !! b = Some band → ecells !! b = Some eband → S r →
    band !! r = eband !! r.

(** What a call on an object that already has a write function leaves as it
    was: the chunk list, the name and the reference of the shared array, the
    write function, the registered names, the number of arrays, the arrays
    other than the one referred to, and the source of names; the trace
    grows by quiet events only. *)
Definition same_buffer (s s' : state) : Prop :=
  chunks (self s') = chunks (self s) ∧
  sa_id (self s') = sa_id (self s) ∧
  arrout (self s') = arrout (self s) ∧
  wfunc (self s') = wfunc (self s) ∧
  sa_names s' = sa_names s ∧
  length (sa_heap s') = length (sa_heap s) ∧
  (∀ h, arrout (self s) ≠ Some h → sa_heap s' !! h = sa_heap s !! h) ∧
  uuid_drawn s' = uuid_drawn s ∧
  ∃ evs, trace s' = trace s ++ evs ∧ Forall quiet evs.

End ClosedForms.

Section MoreClosedForms.
Context `{CellType}.

(** The pass-through transform, [lambda x: x]. *)
Definition passthrough : pfunc_t := fun x => Ok x.

(** A call of [process_array] returns the array [out]. *)
Definition returns_array (sched : pool_schedule) (arrin : arr3) (s : state)
  (out : arr3) : Prop :=
  ∃ h s', process_array sched arrin s = (Ok h, s') ∧ sa_heap s' !! h = Some out.

(** A pixel is whole when it has no NaN band or is NaN in every band. *)
Definition whole_pixel (v : list cell) : Prop :=
  (∀ x, x ∈ v → isnan x = false) ∨ (∀ x, x ∈ v → x = nan).

(** The globals of the workers of a call of [process_array] on a new
    object. *)
Definition run_globals (o : MultiTool) (arrin : arr3) : globals :=
  {| MT_OUTBANDS := nbandsout o; MT_RFUNC := array_reader arrin;
     MT_PFUNC := pfunc o; MT_WFUNC := Some SharedWrite;
     MT_DROPNODATA := dropnodata o |}.

(** The order in which a call takes the chunks: that of the chunk list
    without a pool, that of the pool otherwise. *)
Definition run_order (sched : pool_schedule) (o : MultiTool)
  (chs : list chunk_desc) : list chunk_desc :=
  if decide (nproc o = 1) then chs else pool_order sched chs.

End MoreClosedForms.

(** ** Sample inputs *)

Inductive fcell :=
  | FNaN
  | FNum (z : Z).

Definition fcell_cells : CellType :=
  {| cell := fcell; nan := FNaN; zero := FNum 0;
     isnan x := match x with FNaN => true | FNum _ => false end |}.

(** A pool that takes the chunks in order, and one that takes them from the
    last to the first. *)
Definition in_order : pool_schedule :=
  {| pool_order l := l; pool_order_perm l := reflexivity l |}.

Definition reversed : pool_schedule :=
  {| pool_order := reverse; pool_order_perm := reverse_Permutation |}.

Fixpoint sample_uuids (n : nat) : string :=
  match n with
  | O => "a"
  | S n' => "a" +:+ sample_uuids n'
  end.

Section Samples.
#[local] Existing Instance fcell_cells.

(** Two bands, three rows, two columns; the pixel at row 1, column 1 is NaN
    in band 0 only. *)
Definition sample_array : arr3 :=
  Arr3 (2, 3, 2)%nat
       [ [[FNum 1; FNum 2]; [FNum 3; FNaN]; [FNum 5; FNum 6]];
         [[FNum 7; FNum 8]; [FNum 9; FNum 10]; [FNum 11; FNum 12]] ].

(** One band, two rows, one column. *)
Definition sample_column : arr3 :=
  Arr3 (1, 2, 1)%nat [ [[FNum 1]; [FNum 2]] ].

(** Three bands, two rows, two columns. *)
Definition sample_three : arr3 :=
  Arr3 (3, 2, 2)%nat
       [ [[FNum 1; FNum 2]; [FNum 3; FNum 4]];
         [[FNum 5; FNum 6]; [FNum 7; FNum 8]];
         [[FNum 9; FNum 10]; [FNum 11; FNum 12]] ].

(** A transform that raises. *)
Definition failing : pfunc_t := fun _ => Raise (UserError "boom").

(** A deterministic transform that is not pixel-wise: every pixel gets the
    values of the first pixel it was called with. *)
Definition spread_first : pfunc_t :=
  fun x => Ok (Arr2 (shape2 x)
                 (map (fun band => match band with
                                   | [] => []
                                   | v :: _ => replicate (length band) v
                                   end) (cells2 x))).

(** A new object in a new process. *)
Definition sample_state (pf : pfunc_t) (nbandsout_ nchunks_ nproc_ : Z)
  (drop : bool) : state :=
  fresh_state (__init__ pf nbandsout_ nchunks_ nproc_ drop) sample_uuids.

(** The state after a first call of [process_array]. *)
Definition used_state : state :=
  snd (process_array in_order sample_array
         (sample_state passthrough 2 100 1 false)).

(** Globals of a worker that reads [sample_array]. *)
Definition sample_globals (drop : bool) : globals :=
  {| MT_OUTBANDS := 2; MT_RFUNC := array_reader sample_array;
     MT_PFUNC := passthrough; MT_WFUNC := Some SharedWrite;
     MT_DROPNODATA := drop |}.

End Samples.

(** ** Further closed forms *)

Section Further.
Context `{CellType}.

(** The chunks that a list of events reads, and those it writes, in
    order. *)
Definition reads (evs : list event) : list chunk_desc :=
  omap (fun e => match e with EvRead ch => Some ch | _ => None end) evs.

Definition writes (evs : list event) : list chunk_desc :=
  omap (fun e => match e with EvWrite _ ch => Some ch | _ => None end) evs.

(** The one band of an array copied [B] times: what broadcasting makes of
    a single-band output that is written into [B] bands. *)
Definition band_copies (B : nat) (a : arr3) : arr3 :=
  let '(_, r, c) := shape3 a in
  match cells3 a with
  | [band] => Arr3 (B, r, c) (replicate B band)
  | _ => a
  end.

(** Every array of [s] is still there in [s'], with the shape it had. *)
Definition shapes_kept (s s' : state) : Prop :=
  ∀ h a, sa_heap s !! h = Some a →
         ∃ a', sa_heap s' !! h = Some a' ∧ shape3 a' = shape3 a.

Definition keeps_shapes {A} (m : M A) : Prop :=
  ∀ s, shapes_kept s (snd (m s)).

(** The registered names of [s] are still registered in [s'], and the
    events from [s] to [s'] hold no call of [sa.delete]. *)
Definition undeleted (s s' : state) : Prop :=
  sa_names s ⊆ sa_names s' ∧
  ∃ evs, trace s' = trace s ++ evs ∧ existsb is_delete evs = false.

Definition never_deletes {A} (m : M A) : Prop :=
  ∀ s, undeleted s (snd (m s)).

(** A transform that keeps the first band only, [lambda x: x[:1]]. *)
Definition first_band : pfunc_t :=
  fun x => Ok (Arr2 (Nat.min 1 (fst (shape2 x)), snd (shape2 x))
                 (take 1 (cells2 x))).

(** A transform that returns its bands twice,
    [lambda x: np.concatenate((x, x))]. *)
Definition double_bands : pfunc_t :=
  fun x => Ok (Arr2 ((fst (shape2 x) + fst (shape2 x))%nat, snd (shape2 x))
                 (cells2 x ++ cells2 x)).

(** The rows of the chunk [ch] in the array [buf] are the output [o],
    broadcast to the [B] bands and [C] columns of the array. *)
Definition holds_output (B C : nat) (buf o : arr3) (ch : chunk_desc) : Prop :=
  broadcast3 (B, Z.to_nat (row_extent ch), C) o
  = Some (map (chunk_rows ch) (cells3 buf)).

(** What a call that returns leaves in the array at the reference [h],
    which held [buf] before the call, when the chunks of the object are
    [chs]: every chunk has been handed to the write function, every output
    that was handed to the write function is in the rows of its chunk, and
    the rows of no chunk are as they were. *)
Definition written_into (s s' : state) (h : nat) (buf : arr3) (B R C : nat)
  (chs : list chunk_desc) : Prop :=
  ∃ evs buf',
    trace s' = trace s ++ evs ∧
    sa_heap s' !! h = Some buf' ∧ shape3 buf' = (B, R, C) ∧
    (∀ ch, ch ∈ chs → ∃ o, EvWrite o ch ∈ evs) ∧
    (∀ o ch, EvWrite o ch ∈ evs → ch ∈ chs ∧ holds_output B C buf' o ch) ∧
    (∀ b r c, (∀ ch, ch ∈ chs → ¬ covers ch (Z.of_nat r)) →
              at3 buf' b r c = at3 buf b r c).

(** The state in which the loop of [_process_nomulti] starts in a call of
    [process_array] on a new object: the object as [_setup_arrays] and
    [process_array] leave it, the NaN array allocated and the globals
    set. *)
Definition loop_state (s : state) (arrin : arr3) : state :=
  let shape := shapeZ arrin in
  let name := uuid_source s (uuid_drawn s) in
  let h := length (sa_heap s) in
  let chs := chunk_list shape.1.2 shape.2 chunk_default_nchunks in
  State (set_rfunc (Some (array_reader arrin))
           (after_setup (self s) shape name h chs))
        (Some (run_globals (self s) arrin)) (uuid_source s)
        (S (uuid_drawn s)) (<[name := h]> (sa_names s))
        (sa_heap s ++ [nan_array shape])
        (trace s ++ [EvCreate name shape; EvFill h]).

End Further.

Section FurtherSamples.
#[local] Existing Instance fcell_cells.

(** Another array of the shape of [sample_array]. *)
Definition sample_other : arr3 :=
  Arr3 (2, 3, 2)%nat
       [ [[FNum 21; FNum 22]; [FNum 23; FNum 24]; [FNum 25; FNum 26]];
         [[FNum 27; FNum 28]; [FNum 29; FNum 30]; [FNum 31; FNum 32]] ].

(** One row of output for [sample_array]: two bands, one row, two
    columns. *)
Definition sample_row : arr3 :=
  Arr3 (2, 1, 2)%nat [ [[FNum 0; FNum 0]]; [[FNum 0; FNum 0]] ].

(** The first band of [sample_array]. *)
Definition sample_first : arr3 :=
  Arr3 (1, 3, 2)%nat [ [[FNum 1; FNum 2]; [FNum 3; FNaN]; [FNum 5; FNum 6]] ].

(** A 2-D array, two rows by two columns, and globals of a worker whose
    read function returns it. *)
Definition sample_plane : arr2 :=
  Arr2 (2, 2)%nat [[FNum 1; FNum 2]; [FNum 3; FNum 4]].

Definition sample_globals_2d : globals :=
  {| MT_OUTBANDS := 1; MT_RFUNC := fun _ => Ok (Read2 sample_plane);
     MT_PFUNC := passthrough; MT_WFUNC := Some SharedWrite;
     MT_DROPNODATA := false |}.

(** Globals of a worker that reads [sample_array] and applies [pf]. *)
Definition sample_globals_with (pf : pfunc_t) : globals :=
  {| MT_OUTBANDS := 2; MT_RFUNC := array_reader sample_array;
     MT_PFUNC := pf; MT_WFUNC := Some SharedWrite;
     MT_DROPNODATA := false |}.

(** A new object whose [wfunc] attribute the caller has assigned. *)
Definition preset_state : state :=
  with_self (set_wfunc (Some (CallerWrite (fun _ _ => Ok tt))))
    (sample_state passthrough 2 100 1 false).

End FurtherSamples.

(** ** Tactics *)

(** Projections of updated states. *)
Ltac state_simpl :=
  cbn [with_self with_globals with_drawn with_names with_heap with_trace
       self mt_globals uuid_source uuid_drawn sa_names sa_heap trace].

(** Running the plumbing of a statement. *)
Ltac run :=
  repeat (progress
            (cbv beta iota zeta delta
               [bind ret lift gets modify attr assign log print set_trace
                uuid4 with_self with_globals with_drawn with_names with_heap
                with_trace];
             state_simpl)).

(** * Properties *)

(** ** Facts about the partitioner *)

Lemma foldl_add_shift (l : list Z) (a : Z) :
  foldl Z.add a l = a + foldr Z.add 0 l.
Proof.
  revert a. induction l as [|x l IH]; intros a; simpl; [lia|].
  rewrite IH. lia.
Qed.

Lemma py_sum_foldr (l : list Z) : py_sum l = foldr Z.add 0 l.
Proof. unfold py_sum. rewrite foldl_add_shift. lia. Qed.

Lemma py_sum_nil : py_sum [] = 0.
Proof. reflexivity. Qed.

Lemma py_sum_cons x l : py_sum (x :: l) = x + py_sum l.
Proof. by rewrite !py_sum_foldr. Qed.

Lemma py_sum_app l1 l2 : py_sum (l1 ++ l2) = py_sum l1 + py_sum l2.
Proof.
  induction l1 as [|x l1 IH]; simpl.
  - rewrite py_sum_nil. lia.
  - rewrite !py_sum_cons, IH. lia.
Qed.

Lemma py_sum_replicate n x : py_sum (replicate n x) = Z.of_nat n * x.
Proof.
  induction n as [|n IH]; [done|].
  simpl replicate. rewrite py_sum_cons, IH. lia.
Qed.

Lemma py_sum_nonneg l : Forall (fun e => 0 ≤ e) l → 0 ≤ py_sum l.
Proof.
  induction 1 as [|x l Hx _ IH]; [by rewrite py_sum_nil|].
  rewrite py_sum_cons. lia.
Qed.

Lemma py_sum_take_S (l : list Z) i e :
  l !! i = Some e → py_sum (take (S i) l) = py_sum (take i l) + e.
Proof.
  intros Hi. rewrite (take_S_r _ _ _ Hi), py_sum_app, py_sum_cons, py_sum_nil. lia.
Qed.

Lemma py_sum_take_mono (l : list Z) i j :
  Forall (fun e => 0 ≤ e) l → (i ≤ j)%nat →
  py_sum (take i l) ≤ py_sum (take j l).
Proof.
  intros Hl Hij. induction Hij as [|j Hij IH]; [lia|].
  destruct (l !! j) as [e|] eqn:He.
  - rewrite (py_sum_take_S _ _ _ He).
    assert (0 ≤ e); [|lia].
    eapply (proj1 (Forall_lookup _ _) Hl); eauto.
  - apply lookup_ge_None in He.
    rewrite (take_ge l (S j)) by lia. rewrite (take_ge l j) in IH by lia. done.
Qed.

Lemma rmapM_ok {A B} (f : A → result B) (g : A → B) (xs : list A) :
  (∀ x, x ∈ xs → f x = Ok (g x)) → rmapM f xs = Ok (map g xs).
Proof.
  induction xs as [|x xs IH]; intros Hf; [done|].
  simpl. rewrite Hf by left. simpl.
  rewrite IH; [done|]. intros y Hy. apply Hf. by right.
Qed.

Lemma chunk_remainder (R N : Z) :
  1 ≤ N → 0 ≤ R - R `div` N * N < N.
Proof.
  intros HN. pose proof (Z.div_mod R N ltac:(lia)) as Hdm.
  pose proof (Z.mod_pos_bound R N ltac:(lia)). lia.
Qed.

Lemma chunk_sizes_length (R N : Z) :
  1 ≤ N → length (chunk_sizes R N) = Z.to_nat N.
Proof.
  intros HN. pose proof (chunk_remainder R N HN).
  unfold chunk_sizes, py_repeat. rewrite length_app, !length_replicate. lia.
Qed.

Lemma chunk_sizes_lookup (R N : Z) (i : nat) :
  1 ≤ N → (i < Z.to_nat N)%nat →
  chunk_sizes R N !! i =
    Some (if decide (Z.of_nat i < N - (R - R `div` N * N))
          then R `div` N else R `div` N + 1).
Proof.
  intros HN Hi. pose proof (chunk_remainder R N HN).
  unfold chunk_sizes, py_repeat. case_decide.
  - rewrite lookup_app_l by (rewrite length_replicate; lia).
    apply lookup_replicate_2. lia.
  - rewrite lookup_app_r by (rewrite length_replicate; lia).
    apply lookup_replicate_2. rewrite length_replicate. lia.
Qed.

Lemma chunk_sizes_sum (R N : Z) : 1 ≤ N → py_sum (chunk_sizes R N) = R.
Proof.
  intros HN. pose proof (chunk_remainder R N HN).
  unfold chunk_sizes, py_repeat.
  rewrite py_sum_app, !py_sum_replicate, !Z2Nat.id by lia. lia.
Qed.

Lemma chunk_sizes_nonneg (R N : Z) :
  0 ≤ R → 1 ≤ N → Forall (fun e => 0 ≤ e) (chunk_sizes R N).
Proof.
  intros HR HN. assert (0 ≤ R `div` N) by (apply Z.div_pos; lia).
  unfold chunk_sizes, py_repeat. apply Forall_app. split; apply Forall_replicate; lia.
Qed.

Lemma chunk_eq (B R C N : Z) :
  1 ≤ N → chunk (B, R, C) N = Ok (chunk_list R C N).
Proof.
  intros HN. unfold chunk, py_floordiv. rewrite decide_False by lia. simpl.
  fold (chunk_sizes R N). unfold chunk_list, py_range.
  apply rmapM_ok. intros i Hi. apply elem_of_seq in Hi.
  unfold py_index.
  destruct (chunk_sizes R N !! i) as [e|] eqn:He; [done|].
  apply lookup_ge_None in He. rewrite chunk_sizes_length in He by done. lia.
Qed.

Lemma chunk_list_length R C N : length (chunk_list R C N) = Z.to_nat N.
Proof. unfold chunk_list. by rewrite length_map, length_seq. Qed.

Lemma chunk_list_lookup R C N (i : nat) ch :
  1 ≤ N → chunk_list R C N !! i = Some ch →
  ∃ e, chunk_sizes R N !! i = Some e ∧
       ch = Chunk 0 (py_sum (take i (chunk_sizes R N))) C e.
Proof.
  intros HN Hi. unfold chunk_list in Hi.
  rewrite list_lookup_fmap in Hi.
  destruct (seq 0 (Z.to_nat N) !! i) as [k|] eqn:Hk; [|done].
  apply lookup_seq in Hk as [-> Hlt]. simpl in *.
  injection Hi as <-.
  rewrite (chunk_sizes_lookup R N i HN Hlt). simpl. eauto.
Qed.

Lemma chunk_list_extents R C N :
  1 ≤ N → row_extent <$> chunk_list R C N = chunk_sizes R N.
Proof.
  intros HN. apply list_eq. intros i.
  rewrite list_lookup_fmap.
  destruct (chunk_list R C N !! i) as [ch|] eqn:Hi.
  - apply chunk_list_lookup in Hi as (e & He & ->); [|done]. by rewrite He.
  - apply lookup_ge_None in Hi. rewrite chunk_list_length in Hi.
    symmetry. apply lookup_ge_None. rewrite chunk_sizes_length; done.
Qed.

(** A row below the total of non-negative extents lies in exactly one of the
    intervals that the running sums of the extents delimit. *)
Lemma prefix_sum_locate (es : list Z) (r : Z) :
  Forall (fun e => 0 ≤ e) es → 0 ≤ r < py_sum es →
  ∃ i e, es !! i = Some e ∧
         py_sum (take i es) ≤ r < py_sum (take i es) + e.
Proof.
  intros Hes. revert r. induction Hes as [|x es Hx Hes IH]; intros r Hr.
  - rewrite py_sum_nil in Hr. lia.
  - rewrite py_sum_cons in Hr.
    destruct (decide (r < x)) as [Hlt|Hge].
    + exists 0%nat, x. simpl. rewrite py_sum_nil. split; [done|lia].
    + destruct (IH (r - x)) as (i & e & Hi & Hb); [lia|].
      exists (S i), e. simpl. rewrite py_sum_cons. split; [done|lia].
Qed.

Lemma prefix_sum_unique (es : list Z) (r : Z) (i j : nat) ei ej :
  Forall (fun e => 0 ≤ e) es →
  es !! i = Some ei → es !! j = Some ej →
  py_sum (take i es) ≤ r < py_sum (take i es) + ei →
  py_sum (take j es) ≤ r < py_sum (take j es) + ej →
  i = j.
Proof.
  intros Hes Hi Hj Hri Hrj.
  destruct (decide (i = j)) as [|Hne]; [done|exfalso].
  destruct (decide (i < j)%nat).
  - pose proof (py_sum_take_mono es (S i) j Hes ltac:(lia)) as Hm.
    rewrite (py_sum_take_S _ _ _ Hi) in Hm. lia.
  - pose proof (py_sum_take_mono es (S j) i Hes ltac:(lia)) as Hm.
    rewrite (py_sum_take_S _ _ _ Hj) in Hm. lia.
Qed.

(** C1: for a row count [R >= 0] and a chunk count [N >= 1] the partitioner
    returns exactly [N] descriptors; with [base = floor(R / N)] and
    [remainder = R - base * N], the first [N - remainder] have row extent
    [base] and the others [base + 1]; each row offset is the sum of the
    extents before it; the column offset is 0 and the column extent the
    column count; no extent is negative, the extents sum to [R], every row
    of [0, R) lies in exactly one chunk, and with [N > R] the call still
    returns, the first [N - R] descriptors having extent 0. *)
Theorem chunk_partitions_rows (B R C N : Z) :
  0 ≤ R → 1 ≤ N →
  let base := R `div` N in
  let remainder := R - base * N in
  ∃ l : list chunk_desc,
    chunk (B, R, C) N = Ok l ∧
    length l = Z.to_nat N ∧
    0 ≤ remainder < N ∧
    (∀ (i : nat) ch, l !! i = Some ch →
       col_offset ch = 0 ∧ col_extent ch = C ∧
       row_extent ch = (if decide (Z.of_nat i < N - remainder) then base
                        else base + 1) ∧
       0 ≤ row_extent ch ∧
       row_offset ch = py_sum (row_extent <$> take i l)) ∧
    py_sum (row_extent <$> l) = R ∧
    (∀ r, 0 ≤ r < R → exists ! i : nat, ∃ ch, l !! i = Some ch ∧ covers ch r) ∧
    (R < N → ∀ (i : nat) ch,
       l !! i = Some ch → Z.of_nat i < N - R → row_extent ch = 0).
Proof.
  intros HR HN base remainder.
  pose proof (chunk_remainder R N HN) as Hrem.
  pose proof (chunk_sizes_nonneg R N HR HN) as Hnn.
  exists (chunk_list R C N). split; [by apply chunk_eq|].
  split; [apply chunk_list_length|]. split; [done|].
  assert (Hall : ∀ (i : nat) ch, chunk_list R C N !! i = Some ch →
       col_offset ch = 0 ∧ col_extent ch = C ∧
       row_extent ch = (if decide (Z.of_nat i < N - remainder) then base
                        else base + 1) ∧
       0 ≤ row_extent ch ∧
       row_offset ch = py_sum (row_extent <$> take i (chunk_list R C N))).
  { intros i ch Hi.
    assert (i < Z.to_nat N)%nat as Hlt.
    { apply lookup_lt_Some in Hi. by rewrite chunk_list_length in Hi. }
    apply chunk_list_lookup in Hi as (e & He & ->); [|done]. simpl.
    split; [done|]. split; [done|].
    split; [rewrite chunk_sizes_lookup in He by done; by injection He as <-|].
    split; [eapply (proj1 (Forall_lookup _ _) Hnn); eauto|].
    by rewrite fmap_take, chunk_list_extents. }
  split; [exact Hall|].
  split; [rewrite chunk_list_extents by done; by apply chunk_sizes_sum|].
  split.
  - intros r Hr.
    destruct (prefix_sum_locate (chunk_sizes R N) r Hnn) as (i & e & Hi & Hb).
    { rewrite chunk_sizes_sum by done. lia. }
    assert (Hch : chunk_list R C N !! i
                  = Some (Chunk 0 (py_sum (take i (chunk_sizes R N))) C e)).
    { unfold chunk_list. rewrite list_lookup_fmap.
      rewrite lookup_seq_lt.
      - simpl. by rewrite Hi.
      - apply lookup_lt_Some in Hi. by rewrite chunk_sizes_length in Hi. }
    exists i. split.
    + eexists. split; [exact Hch|]. unfold covers. simpl. lia.
    + intros j (ch & Hj & Hcov).
      apply chunk_list_lookup in Hj as (e' & He' & ->); [|done].
      unfold covers in Hcov. simpl in Hcov.
      eapply (prefix_sum_unique (chunk_sizes R N) r); eauto.
  - intros HRN i ch Hi Hlt.
    destruct (Hall i ch Hi) as (_ & _ & Hext & _).
    assert (base = 0) as Hb by (apply Z.div_small; lia).
    rewrite Hext. subst remainder. rewrite Hb. rewrite decide_True; lia.
Qed.

(** ** Planes, flattening and masks *)

Section Planes.
Context {A : Type}.
Implicit Types (p : list (list A)) (l old new : list A) (m : list bool).

Lemma wf_plane_lookup R C p r row :
  wf_plane R C p → p !! r = Some row → length row = C.
Proof. intros [_ Hp] Hr. eapply (proj1 (Forall_lookup _ _) Hp); eauto. Qed.

Lemma wf_plane_replicate R C (x : A) :
  wf_plane R C (replicate R (replicate C x)).
Proof.
  split; [apply length_replicate|].
  apply Forall_replicate, length_replicate.
Qed.

Lemma wf_plane_cons R C row p :
  wf_plane (S R) C (row :: p) ↔ length row = C ∧ wf_plane R C p.
Proof.
  unfold wf_plane. simpl. rewrite Forall_cons.
  split; intros (? & ? & ?); repeat split; auto; lia.
Qed.

Lemma length_concat_plane R C p :
  wf_plane R C p → length (concat p) = (R * C)%nat.
Proof.
  revert R. induction p as [|row p IH]; intros R Hp.
  - destruct Hp as [<- _]. done.
  - destruct R as [|R]; [destruct Hp; done|].
    apply wf_plane_cons in Hp as [Hrow Hp]. simpl.
    rewrite length_app, (IH R Hp). lia.
Qed.

Lemma concat_lookup_plane R C p r c :
  wf_plane R C p → (c < C)%nat →
  concat p !! (r * C + c)%nat = plane_at p r c.
Proof.
  revert R r. induction p as [|row p IH]; intros R r Hp Hc.
  - unfold plane_at. simpl. by rewrite !lookup_nil.
  - destruct R as [|R]; [destruct Hp; done|].
    apply wf_plane_cons in Hp as [Hrow Hp]. simpl.
    destruct r as [|r]; simpl.
    + unfold plane_at. simpl. apply lookup_app_l. lia.
    + rewrite lookup_app_r by lia.
      replace (C + r * C + c - length row)%nat with (r * C + c)%nat by lia.
      rewrite (IH R r Hp Hc). done.
Qed.

Lemma unflatten_wf R C l :
  length l = (R * C)%nat → wf_plane R C (unflatten R C l).
Proof.
  revert l. induction R as [|R IH]; intros l Hl; [done|].
  simpl. apply wf_plane_cons. split.
  - rewrite length_take. lia.
  - apply IH. rewrite length_drop. lia.
Qed.

Lemma unflatten_lookup R C l r c :
  (r < R)%nat → (c < C)%nat →
  plane_at (unflatten R C l) r c = l !! (r * C + c)%nat.
Proof.
  revert l r. induction R as [|R IH]; intros l r Hr Hc; [lia|].
  destruct r as [|r]; simpl.
  - unfold plane_at. simpl. by apply lookup_take_lt.
  - unfold plane_at in *. simpl. rewrite IH by lia.
    rewrite lookup_drop. f_equal. lia.
Qed.

Lemma select_nil_r m : select m (@nil A) = [].
Proof. by destruct m. Qed.

Lemma select_length m l :
  length l = length m → length (select m l) = rank m (length m).
Proof.
  revert l. induction m as [|b m IH]; intros [|x l] Hl; simplify_eq/=; [done|].
  destruct b; simpl; rewrite IH; done.
Qed.

Lemma rank_lt m k :
  m !! k = Some true → (rank m k < rank m (length m))%nat.
Proof.
  revert k. induction m as [|b m IH]; intros [|k] Hp; simplify_eq/=.
  - lia.
  - specialize (IH k Hp). lia.
Qed.

Lemma select_lookup m l k :
  length l = length m → m !! k = Some true →
  select m l !! rank m k = l !! k.
Proof.
  revert l k. induction m as [|b m IH]; intros [|x l] [|k] Hl Hp;
    simplify_eq/=; try done.
  destruct b; simpl; by apply IH.
Qed.

Lemma scatter_length m old new :
  length old = length m → length (scatter m old new) = length m.
Proof.
  revert old new. induction m as [|b m IH]; intros [|o old] new Hl;
    simplify_eq/=; [done|].
  destruct b; [destruct new|]; simpl; rewrite IH; done.
Qed.

Lemma scatter_lookup_false m old new k :
  length old = length m → m !! k = Some false →
  scatter m old new !! k = old !! k.
Proof.
  revert old new k. induction m as [|b m IH]; intros [|o old] new [|k] Hl Hp;
    simplify_eq/=; try done.
  destruct b; [destruct new|]; simpl; by apply IH.
Qed.

Lemma scatter_lookup_true m old new k :
  length old = length m → m !! k = Some true →
  (rank m k < length new)%nat →
  scatter m old new !! k = new !! rank m k.
Proof.
  revert old new k. induction m as [|b m IH]; intros [|o old] new [|k] Hl Hp Hr;
    simplify_eq/=; try done.
  - destruct new; simpl in *; [lia|done].
  - destruct b; [destruct new|]; simpl in *; try lia; apply IH; auto; lia.
Qed.

End Planes.

Section PlaneAt.
Context {A : Type}.
Implicit Types (p q : list (list A)) (l : list A).

Lemma plane_at_is_Some R C p r c :
  wf_plane R C p → (r < R)%nat → (c < C)%nat → is_Some (plane_at p r c).
Proof.
  intros Hp Hr Hc. unfold plane_at.
  destruct (p !! r) as [row|] eqn:Hrow.
  - simpl. apply lookup_lt_is_Some. by rewrite (wf_plane_lookup _ _ _ _ _ Hp Hrow).
  - apply lookup_ge_None in Hrow. destruct Hp as [Hlen _]. lia.
Qed.

Lemma plane_at_lt R C p r c x :
  wf_plane R C p → plane_at p r c = Some x → (r < R)%nat ∧ (c < C)%nat.
Proof.
  intros Hp. unfold plane_at.
  destruct (p !! r) as [row|] eqn:Hrow; [|done]. simpl. intros Hc.
  apply lookup_lt_Some in Hc. rewrite (wf_plane_lookup _ _ _ _ _ Hp Hrow) in Hc.
  apply lookup_lt_Some in Hrow. destruct Hp as [Hlen _]. lia.
Qed.

Lemma plane_at_replicate R C (x : A) r c :
  (r < R)%nat → (c < C)%nat →
  plane_at (replicate R (replicate C x)) r c = Some x.
Proof.
  intros Hr Hc. unfold plane_at.
  rewrite lookup_replicate_2 by done. simpl. by apply lookup_replicate_2.
Qed.

Lemma plane_at_fmap {B} (f : A → B) p r c :
  plane_at (map (map f) p) r c = f <$> plane_at p r c.
Proof.
  unfold plane_at. change (map (map f) p) with (map f <$> p).
  rewrite list_lookup_fmap. destruct (p !! r) as [row|]; [|done]. simpl.
  change (map f row) with (f <$> row). by rewrite list_lookup_fmap.
Qed.

Lemma plane_at_zip_with {B C} (f : A → B → C) p (q : list (list B)) r c :
  plane_at (zip_with (zip_with f) p q) r c =
  x ← plane_at p r c; y ← plane_at q r c; Some (f x y).
Proof.
  unfold plane_at. rewrite lookup_zip_with.
  destruct (p !! r) as [row|]; [|done]. simpl.
  destruct (q !! r) as [row'|]; simpl.
  - rewrite lookup_zip_with. done.
  - by destruct (row !! c).
Qed.

(** Two planes of the same dimensions with the same items are equal. *)
Lemma plane_ext R C p q :
  wf_plane R C p → wf_plane R C q →
  (∀ r c, (r < R)%nat → (c < C)%nat → plane_at p r c = plane_at q r c) →
  p = q.
Proof.
  intros Hp Hq Hpq. apply list_eq. intros r.
  destruct (decide (r < R)%nat) as [Hr|Hr].
  - destruct (p !! r) as [row|] eqn:Hrow;
      [|apply lookup_ge_None in Hrow; destruct Hp; lia].
    destruct (q !! r) as [row'|] eqn:Hrow';
      [|apply lookup_ge_None in Hrow'; destruct Hq; lia].
    f_equal. apply list_eq. intros c.
    destruct (decide (c < C)%nat) as [Hc|Hc].
    + specialize (Hpq r c Hr Hc). unfold plane_at in Hpq.
      by rewrite Hrow, Hrow' in Hpq.
    + rewrite !lookup_ge_None_2; [done| |].
      * rewrite (wf_plane_lookup _ _ _ _ _ Hq Hrow'). lia.
      * rewrite (wf_plane_lookup _ _ _ _ _ Hp Hrow). lia.
  - rewrite !lookup_ge_None_2; [done| |]; [destruct Hq|destruct Hp]; lia.
Qed.

Lemma overwrite_length a (new l : list A) :
  (a + length new ≤ length l)%nat → length (overwrite a new l) = length l.
Proof.
  intros Hl. unfold overwrite.
  rewrite !length_app, length_take, length_drop. lia.
Qed.

Lemma overwrite_lookup a (new l : list A) i :
  (a + length new ≤ length l)%nat →
  overwrite a new l !! i =
    if decide (a ≤ i < a + length new)%nat then new !! (i - a)%nat else l !! i.
Proof.
  intros Hl. unfold overwrite.
  destruct (decide (i < a)%nat) as [Hia|Hia].
  - rewrite lookup_app_l by (rewrite length_take; lia).
    rewrite lookup_take_lt by done. rewrite decide_False by lia. done.
  - rewrite lookup_app_r by (rewrite length_take; lia).
    rewrite length_take. replace (a `min` length l)%nat with a by lia.
    destruct (decide (i < a + length new)%nat) as [Hin|Hin].
    + rewrite lookup_app_l by lia. rewrite decide_True by lia. done.
    + rewrite lookup_app_r by lia. rewrite lookup_drop.
      rewrite decide_False by lia. f_equal. lia.
Qed.

(** Writes over disjoint ranges commute. *)
Lemma overwrite_comm a1 a2 (n1 n2 l : list A) :
  (a1 + length n1 ≤ length l)%nat → (a2 + length n2 ≤ length l)%nat →
  (a1 + length n1 ≤ a2 ∨ a2 + length n2 ≤ a1)%nat →
  overwrite a1 n1 (overwrite a2 n2 l) = overwrite a2 n2 (overwrite a1 n1 l).
Proof.
  intros H1 H2 Hd. apply list_eq. intros i.
  rewrite !overwrite_lookup by (rewrite ?overwrite_length; lia).
  repeat case_decide; try done; lia.
Qed.

End PlaneAt.

(** ** Slices *)

Lemma py_clamp_in_range (len : nat) (i : Z) :
  0 ≤ i ≤ Z.of_nat len → py_clamp len i = Z.to_nat i.
Proof. intros Hi. unfold py_clamp. case_decide; lia. Qed.

Lemma py_slice_bounds_in_range (len : nat) (lo hi : Z) :
  0 ≤ lo ≤ hi → hi ≤ Z.of_nat len →
  py_slice_bounds len lo hi = (Z.to_nat lo, Z.to_nat hi).
Proof.
  intros Hlo Hhi. unfold py_slice_bounds.
  rewrite !py_clamp_in_range by lia. f_equal. lia.
Qed.

Lemma py_slice_in_range {A} (lo hi : Z) (l : list A) :
  0 ≤ lo ≤ hi → hi ≤ Z.of_nat (length l) →
  py_slice lo hi l = take (Z.to_nat hi - Z.to_nat lo) (drop (Z.to_nat lo) l).
Proof.
  intros Hlo Hhi. unfold py_slice.
  by rewrite py_slice_bounds_in_range.
Qed.

Lemma py_slice_full {A} (l : list A) (n : Z) :
  n = Z.of_nat (length l) → py_slice 0 (0 + n) l = l.
Proof.
  intros ->. rewrite py_slice_in_range by lia.
  simpl. rewrite drop_0. apply take_ge. lia.
Qed.

Lemma map_id_Forall {A} (f : A → A) (l : list A) :
  Forall (fun x => f x = x) l → map f l = l.
Proof. induction 1; simpl; congruence. Qed.

Lemma zip_with_snd_Forall {A B} (f : A → B → B) (l : list A) (k : list B) :
  length l = length k → (∀ x y, x ∈ l → f x y = y) → zip_with f l k = k.
Proof.
  revert k. induction l as [|x l IH]; intros [|y k] Hlen Hf; simplify_eq/=; [done|].
  rewrite Hf by left. f_equal. apply IH; [done|].
  intros x' y' Hx'. apply Hf. by right.
Qed.

Section Arrays.
Context `{CellType}.
Implicit Types (a buf src : arr3) (ch : chunk_desc).

Lemma wf3_intro B R C cells :
  length cells = B → Forall (wf_plane R C) cells → wf3 (Arr3 (B, R, C) cells).
Proof. intros. by split. Qed.

Lemma wf3_elim a B R C :
  shape3 a = (B, R, C) → wf3 a →
  length (cells3 a) = B ∧ Forall (wf_plane R C) (cells3 a).
Proof. unfold wf3. by intros ->. Qed.

(** Two well-formed arrays of the same shape with the same cells are equal. *)
Lemma arr3_ext a1 a2 B R C :
  shape3 a1 = (B, R, C) → shape3 a2 = (B, R, C) → wf3 a1 → wf3 a2 →
  (∀ b r c, (b < B)%nat → (r < R)%nat → (c < C)%nat →
            at3 a1 b r c = at3 a2 b r c) →
  a1 = a2.
Proof.
  intros Hs1 Hs2 Hw1 Hw2 Hat.
  destruct (wf3_elim _ _ _ _ Hs1 Hw1) as [Hl1 Hp1].
  destruct (wf3_elim _ _ _ _ Hs2 Hw2) as [Hl2 Hp2].
  destruct a1 as [s1 c1], a2 as [s2 c2]. simpl in *. subst s1 s2. f_equal.
  apply list_eq. intros b.
  destruct (decide (b < B)%nat) as [Hb|Hb].
  - destruct (c1 !! b) as [p1|] eqn:E1; [|apply lookup_ge_None in E1; lia].
    destruct (c2 !! b) as [p2|] eqn:E2; [|apply lookup_ge_None in E2; lia].
    f_equal. apply (plane_ext R C).
    + eapply (proj1 (Forall_lookup _ _) Hp1); eauto.
    + eapply (proj1 (Forall_lookup _ _) Hp2); eauto.
    + intros r c Hr Hc. specialize (Hat b r c Hb Hr Hc).
      unfold at3 in Hat. simpl in Hat. by rewrite E1, E2 in Hat.
  - rewrite !lookup_ge_None_2; [done|lia|lia].
Qed.

Lemma at3_plane_at a b r c band :
  cells3 a !! b = Some band → at3 a b r c = plane_at band r c.
Proof. intros Hb. unfold at3. by rewrite Hb. Qed.

(** The validity mask under nodata dropping: a pixel is valid when none of
    its band values is NaN. *)
Lemma np_all_notnan_bands R C (bands : list (list (list cell))) :
  Forall (wf_plane R C) bands →
  let m := foldr (fun band acc =>
                    zip_with (zip_with andb)
                             (map (map (fun x => negb (isnan x))) band) acc)
                 (np_ones_bool R C) bands in
  wf_plane R C m ∧
  ∀ r c, (r < R)%nat → (c < C)%nat →
    plane_at m r c =
    Some (forallb (fun x => negb (isnan x))
                  (omap (fun band => plane_at band r c) bands)).
Proof.
  induction 1 as [|band bands Hband Hbands IH]; simpl.
  - split; [apply wf_plane_replicate|].
    intros r c Hr Hc. by apply plane_at_replicate.
  - destruct IH as [IHwf IHat]. split.
    + destruct Hband as [Hlen Hrows], IHwf as [Hlen' Hrows']. split.
      * rewrite length_zip_with, length_map. lia.
      * apply Forall_lookup. intros r row Hr.
        apply lookup_zip_with_Some in Hr as (x & y & -> & Hx & Hy).
        rewrite length_zip_with.
        change (map (map (fun x => negb (isnan x))) band)
          with (map (fun x => negb (isnan x)) <$> band) in Hx.
        rewrite list_lookup_fmap in Hx.
        destruct (band !! r) as [row|] eqn:Hrow; simplify_eq/=.
        rewrite length_map.
        rewrite (proj1 (Forall_lookup _ _) Hrows _ _ Hrow).
        rewrite (proj1 (Forall_lookup _ _) Hrows' _ _ Hy). lia.
    + intros r c Hr Hc.
      rewrite plane_at_zip_with, plane_at_fmap, (IHat r c Hr Hc).
      destruct (plane_at_is_Some R C band r c Hband Hr Hc) as [x Hx].
      rewrite Hx. simpl. done.
Qed.

Lemma np_all_notnan_wf a B R C :
  shape3 a = (B, R, C) → wf3 a → wf_plane R C (np_all_notnan a).
Proof.
  intros Hs Hw. destruct (wf3_elim _ _ _ _ Hs Hw) as [_ Hp].
  unfold np_all_notnan. rewrite Hs.
  apply (np_all_notnan_bands R C _ Hp).
Qed.

Lemma np_all_notnan_at a B R C r c :
  shape3 a = (B, R, C) → wf3 a → (r < R)%nat → (c < C)%nat →
  plane_at (np_all_notnan a) r c =
  Some (forallb (fun x => negb (isnan x)) (pixel a r c)).
Proof.
  intros Hs Hw Hr Hc. destruct (wf3_elim _ _ _ _ Hs Hw) as [_ Hp].
  unfold np_all_notnan. rewrite Hs.
  by apply (np_all_notnan_bands R C _ Hp).
Qed.

(** The region that [process_array] reads for a chunk. *)
Lemma slice3_chunk a B R C ch :
  shape3 a = (B, R, C) → wf3 a → in_bounds R C ch →
  slice3 a (row_offset ch) (row_offset ch + row_extent ch)
           (col_offset ch) (col_offset ch + col_extent ch)
  = Arr3 (B, Z.to_nat (row_extent ch), C) (map (chunk_rows ch) (cells3 a)).
Proof.
  intros Hs Hw (Hc0 & Hc1 & Ho & He & Hoe).
  destruct (wf3_elim _ _ _ _ Hs Hw) as [_ Hp].
  unfold slice3. rewrite Hs, Hc0, Hc1.
  rewrite !py_slice_bounds_in_range by lia.
  f_equal; [repeat f_equal; lia|].
  apply map_ext_Forall. eapply Forall_impl; [exact Hp|].
  intros band Hband. simpl.
  rewrite py_slice_in_range by (destruct Hband as [Hlen _]; lia).
  replace (Z.to_nat (row_offset ch + row_extent ch) - Z.to_nat (row_offset ch))%nat
    with (Z.to_nat (row_extent ch)) by lia.
  fold (chunk_rows ch band).
  apply map_id_Forall. unfold chunk_rows.
  apply Forall_take, Forall_drop.
  destruct Hband as [_ Hrows]. eapply Forall_impl; [exact Hrows|].
  intros row Hrow. simpl in *. apply py_slice_full. lia.
Qed.

Lemma chunk_rows_wf {A} R C ch (band : list (list A)) :
  in_bounds R C ch → wf_plane R C band →
  wf_plane (Z.to_nat (row_extent ch)) C (chunk_rows ch band).
Proof.
  intros (_ & _ & Ho & He & Hoe) [Hlen Hrows]. unfold chunk_rows. split.
  - rewrite length_take, length_drop. lia.
  - by apply Forall_take, Forall_drop.
Qed.

Lemma chunk_rows_at {A} ch (band : list (list A)) r c :
  (r < Z.to_nat (row_extent ch))%nat →
  plane_at (chunk_rows ch band) r c
  = plane_at band (Z.to_nat (row_offset ch) + r) c.
Proof.
  intros Hr. unfold plane_at, chunk_rows.
  by rewrite lookup_take_lt, lookup_drop.
Qed.

End Arrays.

(** ** Broadcasting and region assignment *)

Lemma stretch_same {A} (s : nat) (l : list A) : stretch s s l = l.
Proof. unfold stretch. by rewrite decide_True. Qed.

Lemma bdim_same (s : nat) : bdim s s = true.
Proof. unfold bdim. by rewrite bool_decide_eq_true_2. Qed.

Lemma stretch_length {A} (s t : nat) (l : list A) :
  length l = s → bdim s t = true → length (stretch s t l) = t.
Proof.
  intros Hl Hb. unfold stretch. case_decide; [congruence|].
  unfold bdim in Hb. rewrite bool_decide_eq_false_2 in Hb by done.
  simpl in Hb. apply bool_decide_eq_true in Hb. subst s.
  destruct l as [|x [|y l]]; simplify_eq/=. apply length_replicate.
Qed.

Lemma stretch_Forall {A} (P : A → Prop) (s t : nat) (l : list A) :
  Forall P l → Forall P (stretch s t l).
Proof.
  intros Hl. unfold stretch. case_decide; [done|].
  destruct l as [|x [|y l]]; try done.
  apply Forall_replicate. by inversion Hl.
Qed.

Lemma zip_with_ext_lookup {A B C} (f g : A → B → C) (l : list A) (k : list B) :
  (∀ i x y, l !! i = Some x → k !! i = Some y → f x y = g x y) →
  zip_with f l k = zip_with g l k.
Proof.
  intros Hfg. apply list_eq. intros i. rewrite !lookup_zip_with.
  destruct (l !! i) as [x|] eqn:Hx; [|done]. simpl.
  destruct (k !! i) as [y|] eqn:Hy; [|done]. simpl.
  by rewrite (Hfg i x y).
Qed.

Section Regions.
Context `{CellType}.
Implicit Types (a buf src : arr3) (ch : chunk_desc).

Lemma broadcast3_wf tb tr tc src vals :
  wf3 src → broadcast3 (tb, tr, tc) src = Some vals →
  length vals = tb ∧ Forall (wf_plane tr tc) vals.
Proof.
  unfold wf3, broadcast3. destruct (shape3 src) as [[sb sr] sc].
  intros [Hlen Hp] Hb.
  destruct (bdim sb tb) eqn:Hbb; [|done].
  destruct (bdim sr tr) eqn:Hbr; [|done].
  destruct (bdim sc tc) eqn:Hbc; [|done]. simplify_eq/=. split.
  - apply stretch_length; [|done]. by rewrite length_map.
  - apply stretch_Forall. apply Forall_map.
    eapply Forall_impl; [exact Hp|]. intros band [Hl Hrows]. simpl. split.
    + apply stretch_length; [|done]. by rewrite length_map.
    + apply stretch_Forall. apply Forall_map.
      eapply Forall_impl; [exact Hrows|]. intros row Hrow. simpl.
      by apply stretch_length.
Qed.

Lemma broadcast3_same B R C src :
  shape3 src = (B, R, C) → broadcast3 (B, R, C) src = Some (cells3 src).
Proof.
  intros Hs. unfold broadcast3. rewrite Hs.
  rewrite !bdim_same. simpl.
  rewrite stretch_same. f_equal. apply map_id_Forall, Forall_forall.
  intros band _. rewrite stretch_same. apply map_id_Forall, Forall_forall.
  intros row _. apply stretch_same.
Qed.

(** Whether a source can be broadcast depends on its shape alone. *)
Lemma broadcast3_is_Some target src1 src2 :
  shape3 src1 = shape3 src2 →
  is_Some (broadcast3 target src1) → is_Some (broadcast3 target src2).
Proof.
  destruct target as [[tb tr] tc]. unfold broadcast3. intros <-.
  destruct (shape3 src1) as [[sb sr] sc].
  destruct (bdim sb tb && bdim sr tr && bdim sc tc); [eauto|].
  by intros [? ?].
Qed.

Lemma broadcast2_wf tb tn (src : arr2) vals :
  wf2 src → broadcast2 (tb, tn) src = Some vals →
  length vals = tb ∧ Forall (fun band => length band = tn) vals.
Proof.
  unfold wf2, wf_plane, broadcast2. destruct (shape2 src) as [sb sn]. simpl.
  intros [Hlen Hp] Hb.
  destruct (bdim sb tb) eqn:Hbb; [|done].
  destruct (bdim sn tn) eqn:Hbn; [|done]. simplify_eq/=. split.
  - apply stretch_length; [|done]. by rewrite length_map.
  - apply stretch_Forall. apply Forall_map.
    eapply Forall_impl; [exact Hp|]. intros band Hl. simpl.
    by apply stretch_length.
Qed.

Lemma broadcast2_same B n (src : arr2) :
  shape2 src = (B, n) → broadcast2 (B, n) src = Some (cells2 src).
Proof.
  intros Hs. unfold broadcast2. rewrite Hs.
  rewrite !bdim_same. simpl.
  rewrite stretch_same. f_equal. apply map_id_Forall, Forall_forall.
  intros band _. apply stretch_same.
Qed.

(** [assign_region] on a chunk that lies within the array. *)
Lemma assign_region_chunk buf B R C ch src :
  shape3 buf = (B, R, C) → wf3 buf → in_bounds R C ch → wf3 src →
  assign_region buf (row_offset ch) (row_offset ch + row_extent ch)
                (col_offset ch) (col_offset ch + col_extent ch) src
  = match broadcast3 (B, Z.to_nat (row_extent ch), C) src with
    | None => Raise ValueError
    | Some vals =>
        Ok (Arr3 (B, R, C)
              (write_rows (Z.to_nat (row_offset ch)) vals (cells3 buf)))
    end.
Proof.
  intros Hs Hw (Hc0 & Hc1 & Ho & He & Hoe) Hsrc.
  destruct (wf3_elim _ _ _ _ Hs Hw) as [Hlen Hp].
  unfold assign_region. rewrite Hs, Hc0, Hc1.
  rewrite !py_slice_bounds_in_range by lia.
  replace (Z.to_nat (row_offset ch + row_extent ch) - Z.to_nat (row_offset ch))%nat
    with (Z.to_nat (row_extent ch)) by lia.
  replace (Z.to_nat (0 + Z.of_nat C) - Z.to_nat 0)%nat with C by lia.
  destruct (broadcast3 _ src) as [vals|] eqn:Hb; [|done].
  destruct (broadcast3_wf _ _ _ _ _ Hsrc Hb) as [Hvl Hvp].
  f_equal. f_equal. unfold write_rows. apply zip_with_ext_lookup.
  intros b band new Hband Hnew.
  pose proof (proj1 (Forall_lookup _ _) Hp _ _ Hband) as [Hbl Hbrows].
  pose proof (proj1 (Forall_lookup _ _) Hvp _ _ Hnew) as [Hnl Hnrows].
  unfold splice, overwrite. rewrite Hnl.
  replace (Z.to_nat (row_offset ch) + Z.to_nat (row_extent ch))%nat
    with (Z.to_nat (row_offset ch + row_extent ch)) by lia.
  f_equal. f_equal.
  apply zip_with_snd_Forall.
  - rewrite length_take, length_drop. lia.
  - intros row srow Hrow.
    assert (length row = C) as Hrl.
    { apply list_elem_of_lookup in Hrow as [i Hi].
      apply lookup_take_Some in Hi as [Hi _]. rewrite lookup_drop in Hi.
      eapply (proj1 (Forall_lookup _ _) Hbrows); eauto. }
    simpl. rewrite drop_ge by lia. by rewrite app_nil_r.
Qed.

Lemma write_rows_wf B R C off ext vals cells :
  (off + ext ≤ R)%nat →
  length cells = B → Forall (wf_plane R C) cells →
  length vals = B → Forall (wf_plane ext C) vals →
  length (write_rows off vals cells) = B ∧
  Forall (wf_plane R C) (write_rows off vals cells).
Proof.
  intros Hoff Hcl Hcp Hvl Hvp. unfold write_rows. split.
  - rewrite length_zip_with. lia.
  - apply Forall_lookup. intros b band' Hb.
    apply lookup_zip_with_Some in Hb as (band & new & -> & Hband & Hnew).
    pose proof (proj1 (Forall_lookup _ _) Hcp _ _ Hband) as [Hbl Hbrows].
    pose proof (proj1 (Forall_lookup _ _) Hvp _ _ Hnew) as [Hnl Hnrows].
    split.
    + rewrite overwrite_length; lia.
    + unfold overwrite. rewrite !Forall_app. split; [by apply Forall_take|].
      split; [done|by apply Forall_drop].
Qed.

Lemma write_rows_comm B R off1 ext1 off2 ext2 v1 v2 cells :
  (off1 + ext1 ≤ R)%nat → (off2 + ext2 ≤ R)%nat →
  (off1 + ext1 ≤ off2 ∨ off2 + ext2 ≤ off1)%nat →
  length cells = B → Forall (fun band => length band = R) cells →
  length v1 = B → Forall (fun new => length new = ext1) v1 →
  length v2 = B → Forall (fun new => length new = ext2) v2 →
  write_rows off1 v1 (write_rows off2 v2 cells)
  = write_rows off2 v2 (write_rows off1 v1 cells).
Proof.
  intros H1 H2 Hd Hcl Hcp Hl1 Hp1 Hl2 Hp2. unfold write_rows.
  apply list_eq. intros b. rewrite !lookup_zip_with.
  destruct (cells !! b) as [band|] eqn:Hband; [|done]. simpl.
  destruct (v1 !! b) as [n1|] eqn:Hn1; simpl;
    destruct (v2 !! b) as [n2|] eqn:Hn2; simpl; try done.
  pose proof (proj1 (Forall_lookup _ _) Hcp _ _ Hband) as Hbl.
  pose proof (proj1 (Forall_lookup _ _) Hp1 _ _ Hn1) as Hnl1.
  pose proof (proj1 (Forall_lookup _ _) Hp2 _ _ Hn2) as Hnl2.
  simpl in *. f_equal. apply overwrite_comm; lia.
Qed.

End Regions.

(** ** The worker as a function of the globals *)

Section Worker.
Context `{CellType}.
Implicit Types (s : state) (g : globals) (ch : chunk_desc).

Lemma str_join_chunk_items sep ch : str_join sep (chunk_items ch) = Raise TypeError.
Proof. reflexivity. Qed.

Lemma mt_worker_unfold s g ch :
  mt_globals s = Some g →
  mt_worker ch s =
    match chunk_output g ch with
    | Ok o => apply_wfunc (MT_WFUNC g) o ch
                (with_trace (trace s ++ worker_events g ch) s)
    | Raise e => (Raise e, with_trace (trace s ++ worker_events g ch) s)
    end.
Proof.
  intros Hg. unfold mt_worker, chunk_output, worker_events, call_wfunc.
  unfold bind at 1. unfold gets at 1. rewrite Hg.
  unfold bind at 1. unfold lift at 1.
  unfold bind at 1. unfold log at 1. unfold modify at 1.
  unfold bind at 1. unfold lift at 1.
  destruct (MT_RFUNC g ch) as [d|e]; [|done].
  unfold rbind at 1. fold (as_3d d).
  destruct (shape3 (as_3d d)) as [[b rows] cols] eqn:Hshape.
  unfold valid_mask. rewrite Hshape.
  unfold bind at 1. unfold lift at 1.
  destruct (np_full _ nan) as [output|e]; [|done].
  unfold rbind at 1.
  set (valid := if MT_DROPNODATA g then _ else _).
  unfold bind at 1. unfold try_except.
  unfold bind at 1. unfold log at 1. unfold modify at 1.
  unfold bind at 1. unfold lift at 1.
  destruct (MT_PFUNC g _) as [res|e]; cbn [rbind].
  - unfold lift at 1.
    destruct (put_mask output valid res) as [o|e].
    + unfold bind, log, modify.
      cbn [with_trace trace self mt_globals uuid_source uuid_drawn sa_names sa_heap].
      rewrite <- !app_assoc. done.
    + unfold bind, lift. rewrite str_join_chunk_items.
      cbn [with_trace trace self mt_globals uuid_source uuid_drawn sa_names sa_heap].
      rewrite <- !app_assoc. done.
  - unfold bind, lift. rewrite str_join_chunk_items.
    cbn [with_trace trace self mt_globals uuid_source uuid_drawn sa_names sa_heap].
    rewrite <- !app_assoc. done.
Qed.
Lemma state_eta s :
  State (self s) (mt_globals s) (uuid_source s) (uuid_drawn s)
        (sa_names s) (sa_heap s) (trace s) = s.
Proof. by destruct s. Qed.

Lemma shared_write_run s h buf o ch :
  arrout (self s) = Some h → sa_heap s !! h = Some buf →
  shared_write o ch s =
    match assign_region buf (row_offset ch) (row_offset ch + row_extent ch)
                        (col_offset ch) (col_offset ch + col_extent ch) o with
    | Ok buf' => (Ok tt, with_heap (<[h := buf']> (sa_heap s)) s)
    | Raise e => (Raise e, s)
    end.
Proof.
  intros Hh Hbuf. unfold shared_write, bind, attr, gets. rewrite Hh, Hbuf.
  unfold lift. by destruct (assign_region _ _ _ _ _ _).
Qed.

(** The worker when the write function is the closure of [_setup_arrays]. *)
Lemma mt_worker_shared s g h buf ch :
  mt_globals s = Some g → MT_WFUNC g = Some SharedWrite →
  arrout (self s) = Some h → sa_heap s !! h = Some buf →
  mt_worker ch s =
    match chunk_step g buf ch with
    | Ok buf' =>
        (Ok tt, with_heap (<[h := buf']> (sa_heap s))
                  (with_trace (trace s ++ worker_events g ch) s))
    | Raise e => (Raise e, with_trace (trace s ++ worker_events g ch) s)
    end.
Proof.
  intros Hg Hw Hh Hbuf. rewrite (mt_worker_unfold s g ch Hg).
  unfold chunk_step. destruct (chunk_output g ch) as [o|e]; [|done].
  cbn [rbind]. rewrite Hw. cbn [apply_wfunc].
  rewrite (shared_write_run _ h buf) by done.
  by destruct (assign_region _ _ _ _ _ _).
Qed.

Lemma for_each_shared s g h buf l :
  mt_globals s = Some g → MT_WFUNC g = Some SharedWrite →
  arrout (self s) = Some h → sa_heap s !! h = Some buf →
  match rfoldM (chunk_step g) buf l with
  | Ok buf' =>
      for_each mt_worker l s =
      (Ok tt, with_heap (<[h := buf']> (sa_heap s))
                (with_trace (trace s ++ flat_map (worker_events g) l) s))
  | Raise e => fst (for_each mt_worker l s) = Raise e
  end.
Proof.
  revert s buf. induction l as [|ch l IH]; intros s buf Hg Hw Hh Hbuf.
  - cbn [rfoldM for_each flat_map]. unfold ret.
    rewrite app_nil_r, list_insert_id by done.
    unfold with_heap, with_trace. state_simpl. by rewrite state_eta.
  - cbn [rfoldM for_each flat_map]. unfold bind.
    rewrite (mt_worker_shared s g h buf ch) by done.
    destruct (chunk_step g buf ch) as [buf1|e]; cbn [rbind]; [|done].
    set (s1 := with_heap _ _).
    specialize (IH s1 buf1).
    assert (sa_heap s1 !! h = Some buf1) as Hbuf1.
    { subst s1. cbn. apply list_lookup_insert_eq. by eapply lookup_lt_Some. }
    specialize (IH Hg Hw Hh Hbuf1).
    destruct (rfoldM (chunk_step g) buf1 l) as [buf'|e]; [|done].
    rewrite IH. subst s1. unfold with_heap, with_trace. state_simpl.
    by rewrite list_insert_insert_eq, app_assoc.
Qed.

Lemma worker_events_quiet g ch : Forall quiet (worker_events g ch).
Proof.
  unfold worker_events. constructor; [done|].
  destruct (MT_RFUNC g ch) as [d|]; [|done].
  destruct (shape3 (as_3d d)) as [[b rows] cols].
  destruct (np_full _ _); [|done].
  constructor; [done|].
  destruct (_ ←r _; _); [|done]. by constructor.
Qed.

Lemma frame_refl s : frame s s.
Proof.
  repeat split; try done. exists []. by rewrite app_nil_r.
Qed.

Lemma frame_trans s1 s2 s3 : frame s1 s2 → frame s2 s3 → frame s1 s3.
Proof.
  intros (H1 & H2 & H3 & H4 & H5 & H6 & e1 & H7 & Q1)
         (K1 & K2 & K3 & K4 & K5 & K6 & e2 & K7 & Q2).
  repeat split; try congruence.
  - intros h Hh. rewrite K6 by congruence. by apply H6.
  - exists (e1 ++ e2). split; [|by apply Forall_app].
    by rewrite K7, H7, app_assoc.
Qed.

Lemma frame_log s es : Forall quiet es → frame s (with_trace (trace s ++ es) s).
Proof. intros Hq. repeat split; try done. by exists es. Qed.

Lemma frame_globals s (og : option globals) : frame s (with_globals og s).
Proof. repeat split; try done. exists []. cbn. by rewrite app_nil_r. Qed.

Lemma shared_write_frame s o ch : frame s (snd (shared_write o ch s)).
Proof.
  unfold shared_write, bind, attr, gets, lift, modify.
  destruct (arrout (self s)) as [h|] eqn:Hh; [|apply frame_refl].
  destruct (sa_heap s !! h) as [buf|]; [|apply frame_refl].
  destruct (assign_region _ _ _ _ _ _); [|apply frame_refl].
  repeat split; try done.
  - cbn. by rewrite length_insert.
  - intros h' Hne. cbn. apply list_lookup_insert_ne. congruence.
  - exists []. cbn. by rewrite app_nil_r.
Qed.

(** The worker allocates nothing and does not touch the object. *)
Lemma mt_worker_frame s ch : frame s (snd (mt_worker ch s)).
Proof.
  destruct (mt_globals s) as [g|] eqn:Hg.
  - rewrite (mt_worker_unfold s g ch Hg).
    eapply frame_trans; [apply (frame_log s _ (worker_events_quiet g ch))|].
    destruct (chunk_output g ch) as [o|e]; [|apply frame_refl].
    destruct (MT_WFUNC g) as [[|f]|]; cbn [apply_wfunc].
    + apply shared_write_frame.
    + apply frame_refl.
    + apply frame_refl.
  - unfold mt_worker, bind, gets, lift. rewrite Hg. apply frame_refl.
Qed.

Lemma for_each_mt_worker_frame s l : frame s (snd (for_each mt_worker l s)).
Proof.
  revert s. induction l as [|ch l IH]; intros s; [apply frame_refl|].
  cbn [for_each]. unfold bind.
  pose proof (mt_worker_frame s ch) as Hf.
  destruct (mt_worker ch s) as [[[]|e] s1]; [|done].
  eapply frame_trans; [exact Hf|apply IH].
Qed.

End Worker.

(** ** The methods *)

Section Methods.
Context `{CellType}.
Implicit Types (s : state) (g : globals) (ch : chunk_desc) (o : MultiTool).

Lemma bind_ok {A B} (m : M A) (k : A → M B) s a s' :
  m s = (Ok a, s') → bind m k s = k a s'.
Proof. intros Hm. unfold bind. by rewrite Hm. Qed.

Lemma bind_raise {A B} (m : M A) (k : A → M B) s e s' :
  m s = (Raise e, s') → bind m k s = (Raise e, s').
Proof. intros Hm. unfold bind. by rewrite Hm. Qed.

Lemma np_full_nonneg (shape : Z * Z * Z) (x : cell) :
  0 ≤ shape.1.1 → 0 ≤ shape.1.2 → 0 ≤ shape.2 →
  ∃ a, np_full shape x = Ok a ∧ fill3 a nan = nan_array shape.
Proof.
  destruct shape as [[b r] c]. simpl. intros Hb Hr Hc.
  unfold np_full. rewrite decide_False by lia. eexists. split; [done|].
  done.
Qed.

(** [_setup_arrays] on an object without a write function: a shared array
    of the input shape is created under a new name and filled with NaN, and
    the row dimension is cut into the default number of chunks. *)
Lemma _setup_arrays_fresh s (shape : Z * Z * Z) :
  wfunc (self s) = None →
  sa_names s !! uuid_source s (uuid_drawn s) = None →
  0 ≤ shape.1.1 → 0 ≤ shape.1.2 → 0 ≤ shape.2 →
  let name := uuid_source s (uuid_drawn s) in
  let h := length (sa_heap s) in
  _setup_arrays shape s =
  (Ok tt,
   State (after_setup (self s) shape name h
            (chunk_list shape.1.2 shape.2 chunk_default_nchunks))
         (mt_globals s) (uuid_source s) (S (uuid_drawn s))
         (<[name := h]> (sa_names s))
         (sa_heap s ++ [nan_array shape])
         (trace s ++ [EvCreate name shape; EvFill h])).
Proof.
  intros Hw Hfree Hb Hr Hc name h.
  destruct (np_full_nonneg shape zero Hb Hr Hc) as (a & Ha & Hfill).
  unfold _setup_arrays, sa_create, fill_nan. run.
  cbn [set_inshape wfunc]. rewrite Hw. run.
  cbn [set_sa_id set_inshape inshape]. rewrite Ha. run.
  subst name h. rewrite Hfree. run.
  destruct shape as [[b r] c]. rewrite chunk_eq by done.
  f_equal. f_equal.
  - rewrite alter_app_r_alt by done. rewrite Nat.sub_diag. simpl. by rewrite Hfill.
  - by rewrite <- app_assoc.
Qed.

Lemma _setup_arrays_again s (shape : Z * Z * Z) w :
  wfunc (self s) = Some w →
  _setup_arrays shape s = (Ok tt, with_self (set_inshape (Some shape)) s).
Proof.
  intros Hw. unfold _setup_arrays. run.
  cbn [set_inshape wfunc]. by rewrite Hw.
Qed.

Lemma _cleanup_noop s w : wfunc (self s) = Some w → _cleanup s = (Ok tt, s).
Proof. intros Hw. unfold _cleanup, bind, gets. by rewrite Hw. Qed.

Lemma _process_nomulti_unfold s rf chs :
  rfunc (self s) = Some rf → chunks (self s) = Some chs →
  _process_nomulti s =
  bind (for_each mt_worker chs) (fun _ => attr arrout)
       (with_globals (Some (globals_of (self s) rf)) s).
Proof.
  intros Hrf Hchs. unfold _process_nomulti, _setup_globals.
  unfold bind at 1. unfold gets at 1.
  unfold bind at 1. unfold attr at 1. rewrite Hrf.
  do 3 (unfold bind at 1; unfold gets at 1).
  unfold bind at 1. unfold modify at 1.
  unfold bind at 1. unfold attr at 1. state_simpl. by rewrite Hchs.
Qed.

Lemma _process_unfold sched s rf chs :
  rfunc (self s) = Some rf → chunks (self s) = Some chs →
  1 ≤ nproc (self s) →
  _process sched s =
  bind (in_children (globals_of (self s) rf)
          (for_each mt_worker (pool_order sched chs)))
       (fun _ => attr arrout) s.
Proof.
  intros Hrf Hchs Hnp. unfold _process.
  unfold bind at 1. unfold gets at 1.
  unfold bind at 1. unfold attr at 1. rewrite Hrf.
  do 4 (unfold bind at 1; unfold gets at 1).
  rewrite decide_False by lia.
  unfold bind at 1. unfold ret at 1.
  unfold bind at 1. unfold attr at 1. by rewrite Hchs.
Qed.

Lemma _process_nomulti_shared s rf chs h buf :
  rfunc (self s) = Some rf → chunks (self s) = Some chs →
  wfunc (self s) = Some SharedWrite →
  arrout (self s) = Some h → sa_heap s !! h = Some buf →
  let g := globals_of (self s) rf in
  match rfoldM (chunk_step g) buf chs with
  | Ok buf' =>
      _process_nomulti s =
      (Ok h, State (self s) (Some g) (uuid_source s) (uuid_drawn s)
               (sa_names s) (<[h := buf']> (sa_heap s))
               (trace s ++ flat_map (worker_events g) chs))
  | Raise e => fst (_process_nomulti s) = Raise e
  end.
Proof.
  intros Hrf Hchs Hw Hh Hbuf g.
  pose proof (for_each_shared (with_globals (Some g) s) g h buf chs
                eq_refl Hw Hh Hbuf) as Hrun.
  rewrite (_process_nomulti_unfold s rf chs Hrf Hchs). fold g.
  unfold bind.
  destruct (rfoldM (chunk_step g) buf chs) as [buf'|e].
  - rewrite Hrun. unfold attr. state_simpl.
    unfold with_heap, with_trace, with_globals. state_simpl. by rewrite Hh.
  - destruct (for_each mt_worker chs _) as [[[]|e'] s']; simpl in *; congruence.
Qed.

Lemma _process_shared sched s rf chs h buf :
  rfunc (self s) = Some rf → chunks (self s) = Some chs →
  wfunc (self s) = Some SharedWrite →
  arrout (self s) = Some h → sa_heap s !! h = Some buf →
  1 ≤ nproc (self s) →
  let g := globals_of (self s) rf in
  match rfoldM (chunk_step g) buf (pool_order sched chs) with
  | Ok buf' =>
      _process sched s =
      (Ok h, State (self s) (mt_globals s) (uuid_source s) (uuid_drawn s)
               (sa_names s) (<[h := buf']> (sa_heap s))
               (trace s ++ flat_map (worker_events g) (pool_order sched chs)))
  | Raise e => fst (_process sched s) = Raise e
  end.
Proof.
  intros Hrf Hchs Hw Hh Hbuf Hnp g.
  pose proof (for_each_shared (with_globals (Some g) s) g h buf
                (pool_order sched chs) eq_refl Hw Hh Hbuf) as Hrun.
  rewrite (_process_unfold sched s rf chs Hrf Hchs Hnp). fold g.
  unfold bind, in_children.
  destruct (rfoldM (chunk_step g) buf (pool_order sched chs)) as [buf'|e].
  - rewrite Hrun. unfold attr. state_simpl.
    unfold with_heap, with_trace, with_globals. state_simpl. by rewrite Hh.
  - destruct (for_each mt_worker _ _) as [[[]|e'] s']; simpl in *; congruence.
Qed.

Lemma shapeZ_nonneg (a : arr3) :
  0 ≤ (shapeZ a).1.1 ∧ 0 ≤ (shapeZ a).1.2 ∧ 0 ≤ (shapeZ a).2.
Proof. unfold shapeZ. destruct (shape3 a) as [[b r] c]. simpl. lia. Qed.

Lemma process_array_unfold sched s (arrin : arr3) :
  wfunc (self s) = None →
  sa_names s !! uuid_source s (uuid_drawn s) = None →
  let shape := shapeZ arrin in
  let name := uuid_source s (uuid_drawn s) in
  let h := length (sa_heap s) in
  let chs := chunk_list shape.1.2 shape.2 chunk_default_nchunks in
  let o1 := set_rfunc (Some (array_reader arrin))
              (after_setup (self s) shape name h chs) in
  process_array sched arrin s =
  bind (if decide (nproc (self s) = 1) then _process_nomulti
        else _process sched)
       (fun _ => bind _cleanup (fun _ => attr arrout))
       (State o1 (mt_globals s) (uuid_source s) (S (uuid_drawn s))
              (<[name := h]> (sa_names s))
              (sa_heap s ++ [nan_array shape])
              (trace s ++ [EvCreate name shape; EvFill h])).
Proof.
  intros Hw Hfree shape name h chs o1.
  destruct (shapeZ_nonneg arrin) as (Hb & Hr & Hc).
  pose proof (_setup_arrays_fresh s shape Hw Hfree Hb Hr Hc) as Hsetup.
  cbv zeta in Hsetup. fold name h chs in Hsetup.
  unfold process_array.
  rewrite (bind_ok _ _ _ _ _ Hsetup).
  unfold bind at 1. unfold assign at 1. unfold modify at 1.
  unfold bind at 1. unfold gets at 1.
  unfold with_self. state_simpl. done.
Qed.

(** [process_array] on an object without a write function, when
    [nproc >= 1]: the run is the fold of the chunk steps, in the order of the
    chunk list when [nproc = 1] and in the order of the pool otherwise, over
    a new shared array filled with NaN. *)
Lemma process_array_fresh sched s (arrin : arr3) :
  wfunc (self s) = None →
  sa_names s !! uuid_source s (uuid_drawn s) = None →
  1 ≤ nproc (self s) →
  let shape := shapeZ arrin in
  let name := uuid_source s (uuid_drawn s) in
  let h := length (sa_heap s) in
  let chs := chunk_list shape.1.2 shape.2 chunk_default_nchunks in
  let o1 := set_rfunc (Some (array_reader arrin))
              (after_setup (self s) shape name h chs) in
  let g := globals_of o1 (array_reader arrin) in
  let order := if decide (nproc (self s) = 1) then chs
               else pool_order sched chs in
  match rfoldM (chunk_step g) (nan_array shape) order with
  | Ok buf' =>
      process_array sched arrin s =
      (Ok h,
       State o1 (if decide (nproc (self s) = 1) then Some g else mt_globals s)
             (uuid_source s) (S (uuid_drawn s))
             (<[name := h]> (sa_names s))
             (sa_heap s ++ [buf'])
             (trace s ++ [EvCreate name shape; EvFill h]
                      ++ flat_map (worker_events g) order))
  | Raise e => fst (process_array sched arrin s) = Raise e
  end.
Proof.
  intros Hw Hfree Hnp shape name h chs o1 g order.
  rewrite (process_array_unfold sched s arrin Hw Hfree).
  fold shape name h chs o1.
  set (s1 := State o1 _ _ _ _ _ _).
  assert (sa_heap s1 !! h = Some (nan_array shape)) as Hbuf.
  { subst s1 h. state_simpl. rewrite lookup_app_r by done.
    by rewrite Nat.sub_diag. }
  subst order.
  destruct (decide (nproc (self s) = 1)) as [Hone|Hmany].
  - pose proof (_process_nomulti_shared s1 (array_reader arrin) chs h
                  (nan_array shape) eq_refl eq_refl eq_refl eq_refl Hbuf) as Hrun.
    cbv zeta in Hrun. change (globals_of (self s1) (array_reader arrin)) with g in Hrun.
    destruct (rfoldM (chunk_step g) (nan_array shape) chs) as [buf'|e].
    + rewrite (bind_ok _ _ _ _ _ Hrun).
      erewrite bind_ok; [|by eapply _cleanup_noop].
      unfold attr. subst s1. state_simpl.
      change (arrout o1) with (Some h).
      f_equal. f_equal.
      * subst h. rewrite insert_app_r_alt by done.
        by rewrite Nat.sub_diag.
      * by rewrite <- app_assoc.
    + unfold bind.
      destruct (_process_nomulti s1) as [[?|?] ?]; simpl in *; congruence.
  - pose proof (_process_shared sched s1 (array_reader arrin) chs h
                  (nan_array shape) eq_refl eq_refl eq_refl eq_refl Hbuf) as Hrun.
    specialize (Hrun Hnp).
    cbv zeta in Hrun. change (globals_of (self s1) (array_reader arrin)) with g in Hrun.
    destruct (rfoldM (chunk_step g) (nan_array shape) (pool_order sched chs))
      as [buf'|e].
    + rewrite (bind_ok _ _ _ _ _ Hrun).
      erewrite bind_ok; [|by eapply _cleanup_noop].
      unfold attr. subst s1. state_simpl.
      change (arrout o1) with (Some h).
      f_equal. f_equal.
      * subst h. rewrite insert_app_r_alt by done.
        by rewrite Nat.sub_diag.
      * by rewrite <- app_assoc.
    + unfold bind.
      destruct (_process sched s1) as [[?|?] ?]; simpl in *; congruence.
Qed.

End Methods.

(** ** Order of the chunks *)

Lemma ok_of_rbind {A B} (r : result A) (k : A → result B) :
  ok_of (rbind r k) = ok_of r ≫= (fun a => ok_of (k a)).
Proof. by destruct r. Qed.

Lemma ForallOrdPairs_perm {A} (D : A → A → Prop) (l1 l2 : list A) :
  (∀ x y, D x y → D y x) →
  l1 ≡ₚ l2 → ForallOrdPairs D l1 → ForallOrdPairs D l2.
Proof.
  intros Hsym Hperm. induction Hperm as [|x l1 l2 Hperm IH|x y l|l1 l2 l3 _ IH1 _ IH2].
  - done.
  - intros Hp. inversion Hp as [|? ? Hx Hl]; subst.
    constructor; [by rewrite <- Hperm|by apply IH].
  - intros Hp. inversion Hp as [|? ? Hy Hl]; subst.
    inversion Hl as [|? ? Hx Hl']; subst.
    inversion Hy as [|? ? Hyx Hyl]; subst.
    constructor; [constructor; [by apply Hsym|done]|].
    by constructor.
  - auto.
Qed.

Lemma ForallOrdPairs_lookup {A} (D : A → A → Prop) (l : list A) :
  (∀ i j x y, (i < j)%nat → l !! i = Some x → l !! j = Some y → D x y) →
  ForallOrdPairs D l.
Proof.
  induction l as [|a l IH]; intros Hl; constructor.
  - apply Forall_lookup. intros j y Hj. by apply (Hl 0%nat (S j)); [lia| |].
  - apply IH. intros i j x y Hij Hi Hj. apply (Hl (S i) (S j)); [lia|done|done].
Qed.

(** A fold of steps that commute on disjoint items gives the same value,
    if any, in every order of the items. *)
Lemma rfoldM_perm {S A} (f : S → A → result S) (I : S → Prop)
    (P : A → Prop) (D : A → A → Prop) :
  (∀ s x s', I s → P x → f s x = Ok s' → I s') →
  (∀ s x y, I s → P x → P y → D x y →
     ok_of (s1 ←r f s x; f s1 y) = ok_of (s1 ←r f s y; f s1 x)) →
  (∀ x y, D x y → D y x) →
  ∀ l1 l2, l1 ≡ₚ l2 → ForallOrdPairs D l1 → Forall P l1 →
  ∀ s, I s → ok_of (rfoldM f s l1) = ok_of (rfoldM f s l2).
Proof.
  intros Hinv Hcomm Hsym l1 l2 Hperm.
  induction Hperm as [|x l1 l2 Hperm IH|x y l|l1 l2 l3 Hp1 IH1 Hp2 IH2];
    intros Hd HP s Hs.
  - done.
  - inversion Hd as [|? ? Hx Hl]; subst. inversion HP as [|? ? Px Pl]; subst.
    cbn [rfoldM]. destruct (f s x) as [s1|e] eqn:Hf; [|done].
    cbn [rbind]. apply IH; eauto.
  - inversion HP as [|? ? Py Pl]; subst. inversion Pl as [|? ? Px Pl']; subst.
    inversion Hd as [|? ? Hy Hl]; subst. inversion Hy as [|? ? Hyx _]; subst.
    pose proof (Hcomm s y x Hs Py Px Hyx) as Hc.
    cbn [rfoldM].
    destruct (f s y) as [s1|e1] eqn:Hfy; destruct (f s x) as [s2|e2] eqn:Hfx;
      cbn [rbind] in *.
    + destruct (f s1 x) as [s3|e3]; destruct (f s2 y) as [s4|e4];
        cbn [rbind ok_of] in *; simplify_eq; done.
    + destruct (f s1 x) as [s3|e3]; cbn [rbind ok_of] in *; simplify_eq; done.
    + destruct (f s2 y) as [s4|e4]; cbn [rbind ok_of] in *; simplify_eq; done.
    + done.
  - rewrite IH1 by done. apply IH2; [|by rewrite <- Hp1|done].
    by eapply ForallOrdPairs_perm.
Qed.

(** ** Masked reads and writes of the worker *)

Lemma rank_length (m : list bool) :
  rank m (length m) = length (filter (fun b => b = true) m).
Proof.
  induction m as [|b m IH]; [done|].
  destruct b.
  - rewrite filter_cons_True by done. simpl. by rewrite IH.
  - rewrite filter_cons_False by done. simpl. by rewrite IH.
Qed.

Section Masks.
Context `{CellType}.
Implicit Types (a data : arr3) (valid : mask) (g : globals) (ch : chunk_desc).

Lemma count_true_rank valid :
  count_true valid = rank (concat valid) (length (concat valid)).
Proof. unfold count_true. by rewrite rank_length. Qed.

Lemma take_mask_wf data B R C valid :
  shape3 data = (B, R, C) → wf3 data → wf_plane R C valid →
  shape2 (take_mask data valid) = (B, count_true valid) ∧
  wf2 (take_mask data valid).
Proof.
  intros Hs Hw Hv. destruct (wf3_elim _ _ _ _ Hs Hw) as [Hlen Hp].
  unfold take_mask, wf2, wf_plane. rewrite Hs. simpl. split; [done|].
  split; [by rewrite length_map|].
  apply Forall_map. eapply Forall_impl; [exact Hp|].
  intros band Hband. simpl.
  rewrite select_length, <- count_true_rank; [done|].
  by rewrite (length_concat_plane R C), (length_concat_plane R C).
Qed.

Lemma put_mask_wf a B R C valid res o :
  shape3 a = (B, R, C) → wf3 a → wf_plane R C valid → wf2 res →
  put_mask a valid res = Ok o →
  shape3 o = (B, R, C) ∧ wf3 o.
Proof.
  intros Hs Hw Hv Hres. destruct (wf3_elim _ _ _ _ Hs Hw) as [Hlen Hp].
  unfold put_mask. rewrite Hs.
  destruct (broadcast2 _ res) as [vals|] eqn:Hb; [|done].
  intros [= <-]. split; [done|].
  destruct (broadcast2_wf _ _ _ _ Hres Hb) as [Hvl _].
  apply wf3_intro.
  - rewrite length_zip_with. lia.
  - apply Forall_lookup. intros b band' Hb'.
    apply lookup_zip_with_Some in Hb' as (band & new & -> & Hband & Hnew).
    apply unflatten_wf. rewrite scatter_length.
    + by apply length_concat_plane.
    + rewrite (length_concat_plane R C _ Hv).
      apply length_concat_plane.
      eapply (proj1 (Forall_lookup _ _) Hp); eauto.
Qed.

Lemma np_full_ok (b : Z) (R C : nat) (x : cell) :
  0 ≤ b →
  np_full (b, Z.of_nat R, Z.of_nat C) x
  = Ok (Arr3 (Z.to_nat b, R, C)
          (replicate (Z.to_nat b) (replicate R (replicate C x)))).
Proof.
  intros Hb. unfold np_full. rewrite decide_False by lia.
  by rewrite !Nat2Z.id.
Qed.

Lemma np_full_inv (b : Z) (R C : nat) (x : cell) a :
  np_full (b, Z.of_nat R, Z.of_nat C) x = Ok a →
  0 ≤ b ∧ a = Arr3 (Z.to_nat b, R, C)
                (replicate (Z.to_nat b) (replicate R (replicate C x))).
Proof.
  intros Ha. destruct (decide (0 ≤ b)) as [Hb|Hb].
  - rewrite np_full_ok in Ha by done. by injection Ha as <-.
  - unfold np_full in Ha. by rewrite decide_True in Ha by lia.
Qed.

Lemma full_wf (B R C : nat) (x : cell) :
  wf3 (Arr3 (B, R, C) (replicate B (replicate R (replicate C x)))).
Proof.
  apply wf3_intro; [apply length_replicate|].
  apply Forall_replicate, wf_plane_replicate.
Qed.

Lemma valid_mask_wf drop data B R C :
  shape3 data = (B, R, C) → wf3 data → wf_plane R C (valid_mask drop data).
Proof.
  intros Hs Hw. unfold valid_mask. rewrite Hs. destruct drop.
  - by eapply np_all_notnan_wf.
  - apply wf_plane_replicate.
Qed.

(** What the worker hands to the write function, when the transform
    returns: the result of the masked assignment into a NaN array. *)
Lemma chunk_output_inv g ch o :
  chunk_output g ch = Ok o →
  ∃ d res B R C,
    MT_RFUNC g ch = Ok d ∧ shape3 (as_3d d) = (B, R, C) ∧
    0 ≤ MT_OUTBANDS g ∧
    MT_PFUNC g (take_mask (as_3d d) (valid_mask (MT_DROPNODATA g) (as_3d d)))
      = Ok res ∧
    put_mask (Arr3 (Z.to_nat (MT_OUTBANDS g), R, C)
                (replicate (Z.to_nat (MT_OUTBANDS g))
                   (replicate R (replicate C nan))))
             (valid_mask (MT_DROPNODATA g) (as_3d d)) res = Ok o.
Proof.
  unfold chunk_output. destruct (MT_RFUNC g ch) as [d|]; [|done].
  cbn [rbind]. destruct (shape3 (as_3d d)) as [[B R] C] eqn:Hs.
  destruct (np_full _ nan) as [output|] eqn:Hfull; [|done].
  apply np_full_inv in Hfull as [Hb ->]. cbn [rbind].
  destruct (MT_PFUNC g _) as [res|] eqn:Hpf; [|done]. cbn [rbind].
  destruct (put_mask _ _ res) as [o'|] eqn:Hput; [|done].
  intros [= <-]. exists d, res, B, R, C. done.
Qed.

Lemma chunk_output_wf g ch o :
  wf_globals g → chunk_output g ch = Ok o → wf3 o.
Proof.
  intros [Hrf Hpf] Ho.
  apply chunk_output_inv in Ho as (d & res & B & R & C & Hd & Hs & Hb & Hres & Hput).
  pose proof (Hrf _ _ Hd) as Hwd.
  pose proof (valid_mask_wf (MT_DROPNODATA g) _ B R C Hs Hwd) as Hv.
  destruct (take_mask_wf _ B R C _ Hs Hwd Hv) as [_ Hwa].
  eapply put_mask_wf in Hput as [_ Hw]; eauto.
  apply full_wf.
Qed.

End Masks.

(** ** The chunk steps commute *)

Section Steps.
Context `{CellType}.
Implicit Types (buf : arr3) (g : globals) (ch x y : chunk_desc).

Lemma chunk_step_closed g buf B R C ch :
  wf_globals g → shape3 buf = (B, R, C) → wf3 buf → in_bounds R C ch →
  chunk_step g buf ch =
  (o ←r chunk_output g ch;
   match broadcast3 (B, Z.to_nat (row_extent ch), C) o with
   | None => Raise ValueError
   | Some vals =>
       Ok (Arr3 (B, R, C)
             (write_rows (Z.to_nat (row_offset ch)) vals (cells3 buf)))
   end).
Proof.
  intros Hg Hs Hw Hch. unfold chunk_step.
  destruct (chunk_output g ch) as [o|e] eqn:Ho; [|done]. cbn [rbind].
  apply (assign_region_chunk buf B R C ch o Hs Hw Hch).
  by eapply chunk_output_wf.
Qed.

Lemma chunk_step_inv g buf B R C ch buf' :
  wf_globals g → shape3 buf = (B, R, C) → wf3 buf → in_bounds R C ch →
  chunk_step g buf ch = Ok buf' →
  shape3 buf' = (B, R, C) ∧ wf3 buf'.
Proof.
  intros Hg Hs Hw Hch.
  rewrite (chunk_step_closed g buf B R C ch Hg Hs Hw Hch).
  destruct (chunk_output g ch) as [o|e] eqn:Ho; [|done]. cbn [rbind].
  destruct (broadcast3 _ o) as [vals|] eqn:Hb; [|done].
  intros [= <-]. split; [done|].
  destruct (wf3_elim _ _ _ _ Hs Hw) as [Hlen Hp].
  destruct (broadcast3_wf _ _ _ _ _ (chunk_output_wf g ch o Hg Ho) Hb)
    as [Hvl Hvp].
  destruct Hch as (_ & _ & Hoff & Hext & Hle).
  pose proof (write_rows_wf B R C (Z.to_nat (row_offset ch))
                (Z.to_nat (row_extent ch)) vals (cells3 buf)
                ltac:(lia) Hlen Hp Hvl Hvp) as [Hl' Hp'].
  by apply wf3_intro.
Qed.

Lemma row_disjoint_sym x y : row_disjoint x y → row_disjoint y x.
Proof. unfold row_disjoint. tauto. Qed.

Lemma chunk_step_comm g buf B R C x y :
  wf_globals g → shape3 buf = (B, R, C) → wf3 buf →
  in_bounds R C x → in_bounds R C y → row_disjoint x y →
  ok_of (b1 ←r chunk_step g buf x; chunk_step g b1 y)
  = ok_of (b1 ←r chunk_step g buf y; chunk_step g b1 x).
Proof.
  intros Hg Hs Hw Hx Hy Hd.
  destruct (wf3_elim _ _ _ _ Hs Hw) as [Hlen Hp].
  destruct (chunk_step g buf x) as [bx|ex] eqn:Hsx;
    destruct (chunk_step g buf y) as [by_|ey] eqn:Hsy; cbn [rbind].
  - destruct (chunk_step_inv g buf B R C x bx Hg Hs Hw Hx Hsx) as [Hsbx Hwbx].
    destruct (chunk_step_inv g buf B R C y by_ Hg Hs Hw Hy Hsy) as [Hsby Hwby].
    rewrite (chunk_step_closed g bx B R C y Hg Hsbx Hwbx Hy).
    rewrite (chunk_step_closed g by_ B R C x Hg Hsby Hwby Hx).
    rewrite (chunk_step_closed g buf B R C x Hg Hs Hw Hx) in Hsx.
    rewrite (chunk_step_closed g buf B R C y Hg Hs Hw Hy) in Hsy.
    destruct (chunk_output g x) as [ox|] eqn:Hox; [|done].
    destruct (chunk_output g y) as [oy|] eqn:Hoy; [|done].
    cbn [rbind] in *.
    destruct (broadcast3 _ ox) as [vx|] eqn:Hbx; [|done].
    destruct (broadcast3 _ oy) as [vy|] eqn:Hby; [|done].
    injection Hsx as <-. injection Hsy as <-. cbn [cells3 ok_of].
    destruct (broadcast3_wf _ _ _ _ _ (chunk_output_wf g x ox Hg Hox) Hbx)
      as [Hvxl Hvxp].
    destruct (broadcast3_wf _ _ _ _ _ (chunk_output_wf g y oy Hg Hoy) Hby)
      as [Hvyl Hvyp].
    destruct Hx as (_ & _ & Hxo & Hxe & Hxl), Hy as (_ & _ & Hyo & Hye & Hyl).
    f_equal. f_equal. symmetry.
    eapply (write_rows_comm B R); try done.
    + instantiate (1 := Z.to_nat (row_extent x)). lia.
    + instantiate (1 := Z.to_nat (row_extent y)). lia.
    + unfold row_disjoint in Hd. lia.
    + eapply Forall_impl; [exact Hp|]. by intros band [? _].
    + eapply Forall_impl; [exact Hvxp|]. by intros band [? _].
    + eapply Forall_impl; [exact Hvyp|]. by intros band [? _].
  - destruct (chunk_step_inv g buf B R C x bx Hg Hs Hw Hx Hsx) as [Hsbx Hwbx].
    rewrite (chunk_step_closed g bx B R C y Hg Hsbx Hwbx Hy).
    rewrite (chunk_step_closed g buf B R C y Hg Hs Hw Hy) in Hsy.
    destruct (chunk_output g y) as [oy|]; [|done]. cbn [rbind] in *.
    by destruct (broadcast3 _ oy).
  - destruct (chunk_step_inv g buf B R C y by_ Hg Hs Hw Hy Hsy) as [Hsby Hwby].
    rewrite (chunk_step_closed g by_ B R C x Hg Hsby Hwby Hx).
    rewrite (chunk_step_closed g buf B R C x Hg Hs Hw Hx) in Hsx.
    destruct (chunk_output g x) as [ox|]; [|done]. cbn [rbind] in *.
    by destruct (broadcast3 _ ox).
  - done.
Qed.

(** The shared array after the chunk steps does not depend on the order in
    which the chunks are taken. *)
Lemma chunk_steps_perm g buf B R C l1 l2 :
  wf_globals g → shape3 buf = (B, R, C) → wf3 buf →
  Forall (in_bounds R C) l1 → ForallOrdPairs row_disjoint l1 →
  l1 ≡ₚ l2 →
  ok_of (rfoldM (chunk_step g) buf l1) = ok_of (rfoldM (chunk_step g) buf l2).
Proof.
  intros Hg Hs Hw Hin Hdis Hperm.
  apply (rfoldM_perm (chunk_step g)
           (fun b => shape3 b = (B, R, C) ∧ wf3 b)
           (in_bounds R C) row_disjoint); try done.
  - intros b x b' [Hsb Hwb] Hx Hstep. by eapply chunk_step_inv.
  - intros b x y [Hsb Hwb] Hx Hy Hxy. by eapply chunk_step_comm.
Qed.

End Steps.

(** ** The chunks of an array *)

Lemma chunk_list_offsets (R C N : Z) (i : nat) ch :
  0 ≤ R → 1 ≤ N → chunk_list R C N !! i = Some ch →
  col_offset ch = 0 ∧ col_extent ch = C ∧
  row_offset ch = py_sum (take i (chunk_sizes R N)) ∧
  row_offset ch + row_extent ch = py_sum (take (S i) (chunk_sizes R N)) ∧
  0 ≤ row_offset ch ∧ 0 ≤ row_extent ch ∧
  row_offset ch + row_extent ch ≤ R.
Proof.
  intros HR HN Hi.
  pose proof (chunk_sizes_nonneg R N HR HN) as Hnn.
  apply chunk_list_lookup in Hi as (e & He & ->); [|done]. simpl.
  rewrite (py_sum_take_S _ _ _ He).
  assert (0 ≤ e) by (eapply (proj1 (Forall_lookup _ _) Hnn); eauto).
  assert (0 ≤ py_sum (take i (chunk_sizes R N))).
  { apply py_sum_nonneg. by apply Forall_take. }
  pose proof (lookup_lt_Some _ _ _ He) as Hlt.
  pose proof (py_sum_take_mono (chunk_sizes R N) (S i)
                (length (chunk_sizes R N)) Hnn ltac:(lia)) as Hm.
  rewrite (py_sum_take_S _ _ _ He) in Hm.
  rewrite (take_ge _ (length (chunk_sizes R N))) in Hm by lia.
  rewrite chunk_sizes_sum in Hm by done.
  repeat split; try done; lia.
Qed.

Lemma chunk_list_in_bounds (R C : nat) (N : Z) :
  1 ≤ N → Forall (in_bounds R C) (chunk_list (Z.of_nat R) (Z.of_nat C) N).
Proof.
  intros HN. apply Forall_lookup. intros i ch Hi.
  destruct (chunk_list_offsets (Z.of_nat R) (Z.of_nat C) N i ch ltac:(lia) HN Hi)
    as (? & ? & ? & ? & ? & ? & ?).
  by repeat split.
Qed.

Lemma chunk_list_disjoint (R C N : Z) :
  0 ≤ R → 1 ≤ N → ForallOrdPairs row_disjoint (chunk_list R C N).
Proof.
  intros HR HN. apply ForallOrdPairs_lookup. intros i j x y Hij Hx Hy.
  destruct (chunk_list_offsets _ _ _ _ _ HR HN Hx) as (_ & _ & _ & Hxe & _).
  destruct (chunk_list_offsets _ _ _ _ _ HR HN Hy) as (_ & _ & Hyo & _).
  pose proof (py_sum_take_mono (chunk_sizes R N) (S i) j
                (chunk_sizes_nonneg R N HR HN) ltac:(lia)).
  left. lia.
Qed.

Lemma chunk_list_covers (R C N : Z) (r : Z) :
  0 ≤ r < R → 1 ≤ N → ∃ ch, ch ∈ chunk_list R C N ∧ covers ch r.
Proof.
  intros Hr HN.
  destruct (prefix_sum_locate (chunk_sizes R N) r) as (i & e & Hi & Hb).
  { apply chunk_sizes_nonneg; lia. }
  { rewrite chunk_sizes_sum by done. lia. }
  exists (Chunk 0 (py_sum (take i (chunk_sizes R N))) C e). split.
  - apply list_elem_of_lookup. exists i. unfold chunk_list.
    rewrite list_lookup_fmap, lookup_seq_lt.
    + simpl. by rewrite Hi.
    + apply lookup_lt_Some in Hi. by rewrite chunk_sizes_length in Hi.
  - unfold covers. simpl. lia.
Qed.

Lemma py_clamp_le (len : nat) (i : Z) : (py_clamp len i ≤ len)%nat.
Proof. unfold py_clamp. case_decide; lia. Qed.

Lemma py_slice_length {A} (lo hi : Z) (l : list A) :
  length (py_slice lo hi l)
  = ((py_slice_bounds (length l) lo hi).2 - (py_slice_bounds (length l) lo hi).1)%nat.
Proof.
  unfold py_slice, py_slice_bounds. simpl.
  rewrite length_take, length_drop.
  pose proof (py_clamp_le (length l) lo). pose proof (py_clamp_le (length l) hi).
  lia.
Qed.

Section Readers.
Context `{CellType}.

Lemma slice3_wf (a : arr3) (r0 r1 c0 c1 : Z) :
  wf3 a → wf3 (slice3 a r0 r1 c0 c1).
Proof.
  intros Hw. destruct (shape3 a) as [[B R] C] eqn:Hs.
  destruct (wf3_elim _ _ _ _ Hs Hw) as [Hlen Hp].
  unfold slice3. rewrite Hs.
  destruct (py_slice_bounds R r0 r1) as [ra rb] eqn:Hr.
  destruct (py_slice_bounds C c0 c1) as [ca cb] eqn:Hc.
  apply wf3_intro; [by rewrite length_map|].
  apply Forall_map. eapply Forall_impl; [exact Hp|].
  intros band [Hbl Hrows]. simpl. split.
  - rewrite length_map, py_slice_length, Hbl, Hr. done.
  - apply Forall_map. unfold py_slice at 2.
    destruct (py_slice_bounds (length band) r0 r1).
    apply Forall_take, Forall_drop.
    eapply Forall_impl; [exact Hrows|]. intros row Hrow. simpl.
    by rewrite py_slice_length, Hrow, Hc.
Qed.

Lemma array_reader_wf (a : arr3) ch d :
  wf3 a → array_reader a ch = Ok d → wf3 (as_3d d).
Proof. intros Hw [= <-]. by apply slice3_wf. Qed.

End Readers.

(** ** Pixel-wise transforms *)

Lemma omap_lookup_total {A B} (f : A → option B) (l : list A) (i : nat) :
  Forall (fun x => is_Some (f x)) l → omap f l !! i = l !! i ≫= f.
Proof.
  intros Hl. revert i. induction Hl as [|x l [y Hy] _ IH]; intros i; [done|].
  simpl. rewrite Hy. destruct i as [|i]; simpl; [done|]. apply IH.
Qed.

Lemma omap_length_total {A B} (f : A → option B) (l : list A) :
  Forall (fun x => is_Some (f x)) l → length (omap f l) = length l.
Proof.
  induction 1 as [|x l [y Hy] _ IH]; [done|]. simpl. rewrite Hy. simpl. by f_equal.
Qed.

Lemma omap_ext_Forall {A B} (f g : A → option B) (l : list A) :
  Forall (fun x => f x = g x) l → omap f l = omap g l.
Proof.
  induction 1 as [|x l Hx _ IH]; [done|]. cbn. rewrite Hx.
  destruct (g x); by rewrite ?IH.
Qed.

Lemma omap_map {A B C} (f : B → option C) (g : A → B) (l : list A) :
  omap f (map g l) = omap (fun x => f (g x)) l.
Proof.
  induction l as [|x l IH]; [done|]. cbn. destruct (f (g x)); by rewrite IH.
Qed.

Section Pixelwise.
Context `{CellType}.
Implicit Types (a data : arr3) (valid : mask) (g : globals) (ch : chunk_desc).

(** The columns of [data[:, valid]] are the valid pixel-vectors of [data]. *)
Lemma take_mask_column data B R C valid r c :
  shape3 data = (B, R, C) → wf3 data → wf_plane R C valid →
  plane_at valid r c = Some true →
  column (take_mask data valid) (rank (concat valid) (r * C + c))
  = pixel data r c.
Proof.
  intros Hs Hw Hv Hrc. destruct (wf3_elim _ _ _ _ Hs Hw) as [Hlen Hp].
  destruct (plane_at_lt R C valid r c true Hv Hrc) as [Hr Hc].
  unfold column, pixel, take_mask. rewrite Hs. simpl. rewrite omap_map.
  apply omap_ext_Forall. eapply Forall_impl; [exact Hp|].
  intros band Hband. simpl.
  rewrite select_lookup.
  - by apply (concat_lookup_plane R C).
  - by rewrite (length_concat_plane R C), (length_concat_plane R C).
  - by rewrite (concat_lookup_plane R C).
Qed.

Lemma column_lookup (y : arr2) Bo n j b :
  shape2 y = (Bo, n) → wf2 y → (j < n)%nat →
  column y j !! b = cells2 y !! b ≫= (fun band => band !! j).
Proof.
  intros Hs [Hlen Hrows] Hj. rewrite Hs in Hlen, Hrows. simpl in *.
  unfold column. apply omap_lookup_total.
  eapply Forall_impl; [exact Hrows|]. intros band Hband. simpl in *.
  apply lookup_lt_is_Some. lia.
Qed.

Lemma pixel_length data B R C r c :
  shape3 data = (B, R, C) → wf3 data → (r < R)%nat → (c < C)%nat →
  length (pixel data r c) = B.
Proof.
  intros Hs Hw Hr Hc. destruct (wf3_elim _ _ _ _ Hs Hw) as [Hlen Hp].
  unfold pixel. rewrite omap_length_total; [done|].
  eapply Forall_impl; [exact Hp|]. intros band Hband. simpl.
  by eapply plane_at_is_Some.
Qed.

(** The masked transform of a pixel-wise function, cell by cell. *)
Lemma masked_transform_at pf f data B Bo R C valid :
  pixelwise pf f B Bo →
  shape3 data = (B, R, C) → wf3 data → wf_plane R C valid →
  ∃ o,
    (res ←r pf (take_mask data valid);
     put_mask (Arr3 (Bo, R, C) (replicate Bo (replicate R (replicate C nan))))
              valid res) = Ok o ∧
    shape3 o = (Bo, R, C) ∧ wf3 o ∧
    ∀ b r c, (b < Bo)%nat → (r < R)%nat → (c < C)%nat →
      at3 o b r c = expect f valid data b r c.
Proof.
  intros Hpf Hs Hw Hv.
  destruct (take_mask_wf data B R C valid Hs Hw Hv) as [Hsa Hwa].
  destruct (Hpf _ _ Hsa Hwa) as (y & Hy & Hsy & Hwy & Hcol).
  rewrite Hy. cbn [rbind].
  set (out := Arr3 (Bo, R, C) _).
  destruct (put_mask out valid y) as [o|e] eqn:Hput.
  2:{ unfold put_mask, out in Hput. cbn [shape3 cells3] in Hput.
      by rewrite (broadcast2_same Bo (count_true valid) y Hsy) in Hput. }
  exists o. split; [done|].
  destruct (put_mask_wf out Bo R C valid y o eq_refl (full_wf Bo R C nan)
              Hv Hwy Hput) as [Hso Hwo].
  split; [done|]. split; [done|].
  intros b r c Hb Hr Hc.
  unfold put_mask, out in Hput. cbn [shape3 cells3] in Hput.
  rewrite (broadcast2_same Bo (count_true valid) y Hsy) in Hput.
  injection Hput as <-.
  destruct Hwy as [Hyl Hyrows]. rewrite Hsy in Hyl, Hyrows. simpl in Hyl, Hyrows.
  destruct (cells2 y !! b) as [yb|] eqn:Hyb;
    [|apply lookup_ge_None in Hyb; lia].
  pose proof (proj1 (Forall_lookup _ _) Hyrows _ _ Hyb) as Hybl. simpl in Hybl.
  unfold at3. simpl. rewrite lookup_zip_with.
  rewrite lookup_replicate_2 by done. simpl. rewrite Hyb. simpl.
  fold (plane_at (unflatten R C
                    (scatter (concat valid)
                       (concat (replicate R (replicate C nan))) yb)) r c).
  rewrite unflatten_lookup by done.
  assert (length (concat (replicate R (replicate C nan)))
          = length (concat valid)) as Hlenm.
  { rewrite (length_concat_plane R C _ Hv).
    apply length_concat_plane, wf_plane_replicate. }
  unfold expect.
  destruct (plane_at_is_Some R C valid r c Hv Hr Hc) as [v Hvrc].
  pose proof (concat_lookup_plane R C valid r c Hv Hc) as Hm.
  rewrite Hvrc in Hm. rewrite Hvrc. destruct v.
  - rewrite scatter_lookup_true; [|done|done|].
    2:{ rewrite Hybl, count_true_rank. by apply rank_lt. }
    assert (rank (concat valid) (r * C + c) < count_true valid)%nat as Hrk.
    { rewrite count_true_rank. by apply rank_lt. }
    rewrite <- (take_mask_column data B R C valid r c Hs Hw Hv Hvrc).
    rewrite <- (Hcol _ Hrk).
    rewrite (column_lookup y Bo (count_true valid) _ b Hsy) by
      (try done; split; by rewrite Hsy).
    by rewrite Hyb.
  - rewrite scatter_lookup_false by done.
    rewrite (concat_lookup_plane R C) by (done || apply wf_plane_replicate).
    by apply plane_at_replicate.
Qed.

End Pixelwise.

(** ** A run over the chunks of an array with a pixel-wise transform *)

Lemma arr3_eq `{CellType} (a1 a2 : arr3) :
  shape3 a1 = shape3 a2 → cells3 a1 = cells3 a2 → a1 = a2.
Proof. destruct a1, a2. simpl. by intros -> ->. Qed.

Section Run.
Context `{CellType}.
Variables (pf : pfunc_t) (f : list cell → list cell) (drop : bool).
Variables (arrin : arr3) (B R C : nat).
Hypothesis Hshape : shape3 arrin = (B, R, C).
Hypothesis Hwf : wf3 arrin.
Hypothesis Hpf : pixelwise pf f B B.

Lemma whole_array_at :
  ∃ E, whole_array pf (Z.of_nat B) drop arrin = Ok E ∧
       shape3 E = (B, R, C) ∧ wf3 E ∧
       ∀ b r c, (b < B)%nat → (r < R)%nat → (c < C)%nat →
         at3 E b r c = expect f (valid_mask drop arrin) arrin b r c.
Proof.
  unfold whole_array. rewrite Hshape, np_full_ok by lia. cbn [rbind].
  rewrite Nat2Z.id.
  apply (masked_transform_at pf f arrin B B R C); try done.
  by eapply valid_mask_wf.
Qed.

Lemma pixel_chunk_slice ch r c :
  (r < Z.to_nat (row_extent ch))%nat →
  pixel (chunk_slice ch arrin) r c
  = pixel arrin (Z.to_nat (row_offset ch) + r) c.
Proof.
  intros Hr. unfold pixel, chunk_slice. rewrite Hshape. simpl.
  rewrite omap_map. apply omap_ext_Forall, Forall_forall.
  intros band _. by apply chunk_rows_at.
Qed.

Lemma chunk_slice_wf ch a :
  shape3 a = (B, R, C) → wf3 a → in_bounds R C ch →
  shape3 (chunk_slice ch a) = (B, Z.to_nat (row_extent ch), C) ∧
  wf3 (chunk_slice ch a).
Proof.
  intros Hs Hw Hch. destruct (wf3_elim _ _ _ _ Hs Hw) as [Hlen Hp].
  unfold chunk_slice. rewrite Hs. split; [done|].
  apply wf3_intro; [by rewrite length_map|].
  apply Forall_map. eapply Forall_impl; [exact Hp|].
  intros band Hband. by apply (chunk_rows_wf R C).
Qed.

Lemma at3_chunk_slice ch a b r c :
  shape3 a = (B, R, C) → (r < Z.to_nat (row_extent ch))%nat →
  at3 (chunk_slice ch a) b r c
  = at3 a b (Z.to_nat (row_offset ch) + r) c.
Proof.
  intros Hs Hr. unfold at3, chunk_slice. rewrite Hs. simpl.
  change (map (chunk_rows ch) (cells3 a)) with (chunk_rows ch <$> cells3 a).
  rewrite list_lookup_fmap. destruct (cells3 a !! b) as [band|]; [|done].
  simpl. by apply chunk_rows_at.
Qed.

Lemma valid_mask_chunk_slice ch r c :
  in_bounds R C ch → (r < Z.to_nat (row_extent ch))%nat → (c < C)%nat →
  plane_at (valid_mask drop (chunk_slice ch arrin)) r c
  = plane_at (valid_mask drop arrin) (Z.to_nat (row_offset ch) + r) c.
Proof.
  intros Hch Hr Hc.
  destruct (chunk_slice_wf ch arrin Hshape Hwf Hch) as [Hs Hw].
  pose proof Hch as (_ & _ & Ho & He & Hle).
  unfold valid_mask. rewrite Hs, Hshape. destruct drop.
  - rewrite (np_all_notnan_at _ _ _ _ _ _ Hs Hw Hr Hc).
    rewrite (np_all_notnan_at arrin B R C (Z.to_nat (row_offset ch) + r) c
               Hshape Hwf ltac:(lia) Hc).
    by rewrite pixel_chunk_slice.
  - unfold np_ones_bool. rewrite !plane_at_replicate by lia. done.
Qed.

(** What a worker computes for a chunk is the chunk of what the transform
    gives on the whole array. *)
Lemma chunk_output_slice g ch E :
  MT_OUTBANDS g = Z.of_nat B → MT_RFUNC g = array_reader arrin →
  MT_PFUNC g = pf → MT_DROPNODATA g = drop →
  in_bounds R C ch →
  whole_array pf (Z.of_nat B) drop arrin = Ok E →
  chunk_output g ch = Ok (chunk_slice ch E).
Proof.
  intros Hgo Hgr Hgp Hgd Hch HE.
  destruct whole_array_at as (E' & HE' & HsE & HwE & HatE).
  rewrite HE in HE'. injection HE' as <-.
  destruct (chunk_slice_wf ch arrin Hshape Hwf Hch) as [Hs Hw].
  destruct (chunk_slice_wf ch E HsE HwE Hch) as [HsS HwS].
  pose proof Hch as (_ & _ & Ho & He & Hle).
  unfold chunk_output. rewrite Hgo, Hgr, Hgp, Hgd.
  unfold array_reader. cbn [rbind as_3d].
  rewrite (slice3_chunk arrin B R C ch Hshape Hwf Hch).
  assert (Arr3 (B, Z.to_nat (row_extent ch), C)
            (map (chunk_rows ch) (cells3 arrin)) = chunk_slice ch arrin) as ->.
  { unfold chunk_slice. by rewrite Hshape. }
  rewrite Hs. rewrite np_full_ok by lia. cbn [rbind]. rewrite Nat2Z.id.
  destruct (masked_transform_at pf f (chunk_slice ch arrin) B B
              (Z.to_nat (row_extent ch)) C
              (valid_mask drop (chunk_slice ch arrin)) Hpf Hs Hw)
    as (o & Ho' & Hso & Hwo & Hato).
  { by eapply valid_mask_wf. }
  rewrite Ho'. f_equal.
  apply (arr3_ext o (chunk_slice ch E) B (Z.to_nat (row_extent ch)) C);
    try done.
  intros b r c Hb Hr Hc.
  rewrite (Hato b r c Hb Hr Hc), (at3_chunk_slice ch E b r c HsE Hr).
  rewrite (HatE b (Z.to_nat (row_offset ch) + r)%nat c Hb ltac:(lia) Hc).
  unfold expect.
  rewrite (valid_mask_chunk_slice ch r c Hch Hr Hc).
  by rewrite (pixel_chunk_slice ch r c Hr).
Qed.

Variables (g : globals) (E : arr3).
Hypothesis Hgo : MT_OUTBANDS g = Z.of_nat B.
Hypothesis Hgr : MT_RFUNC g = array_reader arrin.
Hypothesis Hgp : MT_PFUNC g = pf.
Hypothesis Hgd : MT_DROPNODATA g = drop.
Hypothesis HE : whole_array pf (Z.of_nat B) drop arrin = Ok E.

Lemma whole_array_shape : shape3 E = (B, R, C) ∧ wf3 E.
Proof.
  destruct whole_array_at as (E' & HE' & HsE & HwE & _).
  rewrite HE in HE'. by injection HE' as <-.
Qed.

Lemma chunk_step_slice buf ch :
  shape3 buf = (B, R, C) → wf3 buf → in_bounds R C ch →
  chunk_step g buf ch
  = Ok (Arr3 (B, R, C)
          (write_rows (Z.to_nat (row_offset ch))
             (map (chunk_rows ch) (cells3 E)) (cells3 buf))).
Proof.
  intros Hs Hw Hch. destruct whole_array_shape as [HsE HwE].
  destruct (chunk_slice_wf ch E HsE HwE Hch) as [HsS HwS].
  unfold chunk_step.
  rewrite (chunk_output_slice g ch E Hgo Hgr Hgp Hgd Hch HE). cbn [rbind].
  rewrite (assign_region_chunk buf B R C ch _ Hs Hw Hch HwS).
  rewrite (broadcast3_same _ _ _ _ HsS).
  unfold chunk_slice. by rewrite HsE.
Qed.

Lemma write_rows_agree S cells ch :
  length cells = B → Forall (wf_plane R C) cells → in_bounds R C ch →
  rows_agree S cells (cells3 E) →
  rows_agree (fun r => S r ∨ covers ch (Z.of_nat r))
    (write_rows (Z.to_nat (row_offset ch)) (map (chunk_rows ch) (cells3 E)) cells)
    (cells3 E).
Proof.
  intros Hlen Hp Hch Hagree b band' eband r Hb' Heb Hr.
  destruct whole_array_shape as [HsE HwE].
  destruct (wf3_elim _ _ _ _ HsE HwE) as [HlE HpE].
  pose proof Hch as (_ & _ & Ho & He & Hle).
  unfold write_rows in Hb'.
  apply lookup_zip_with_Some in Hb' as (band & new & -> & Hband & Hnew).
  change (map (chunk_rows ch) (cells3 E)) with (chunk_rows ch <$> cells3 E) in Hnew.
  rewrite list_lookup_fmap, Heb in Hnew. injection Hnew as <-.
  pose proof (proj1 (Forall_lookup _ _) Hp _ _ Hband) as [Hbl _].
  pose proof (proj1 (Forall_lookup _ _) HpE _ _ Heb) as [Hel _].
  assert (length (chunk_rows ch eband) = Z.to_nat (row_extent ch)) as Hnl.
  { unfold chunk_rows. rewrite length_take, length_drop. lia. }
  rewrite overwrite_lookup by lia. rewrite Hnl.
  case_decide as Hin.
  - unfold chunk_rows. rewrite lookup_take_lt by lia. rewrite lookup_drop.
    f_equal. lia.
  - destruct Hr as [Hr|Hr]; [by eapply Hagree|].
    unfold covers in Hr. lia.
Qed.

Lemma fold_agree L : ∀ buf S,
  Forall (in_bounds R C) L →
  shape3 buf = (B, R, C) → wf3 buf →
  rows_agree S (cells3 buf) (cells3 E) →
  ∃ buf', rfoldM (chunk_step g) buf L = Ok buf' ∧
          shape3 buf' = (B, R, C) ∧ wf3 buf' ∧
          rows_agree (fun r => S r ∨ ∃ ch, ch ∈ L ∧ covers ch (Z.of_nat r))
                     (cells3 buf') (cells3 E).
Proof.
  induction L as [|ch L IH]; intros buf S HL Hs Hw Hagree.
  - exists buf. repeat split; try done.
    intros b band eband r Hb He [Hr|(ch & Hch & _)]; [by eapply Hagree|].
    by apply elem_of_nil in Hch.
  - apply Forall_cons in HL as [Hch HL'].
    destruct (wf3_elim _ _ _ _ Hs Hw) as [Hlen Hp].
    cbn [rfoldM]. rewrite (chunk_step_slice buf ch Hs Hw Hch). cbn [rbind].
    set (cells' := write_rows _ _ _).
    pose proof (write_rows_agree S (cells3 buf) ch Hlen Hp Hch Hagree) as Hag'.
    fold cells' in Hag'.
    destruct whole_array_shape as [HsE HwE].
    destruct (wf3_elim _ _ _ _ HsE HwE) as [HlE HpE].
    pose proof Hch as (_ & _ & Ho & He & Hle).
    assert (Forall (wf_plane (Z.to_nat (row_extent ch)) C)
              (map (chunk_rows ch) (cells3 E))) as Hvp.
    { apply Forall_map. eapply Forall_impl; [exact HpE|].
      intros band Hband. by apply (chunk_rows_wf R C). }
    pose proof (write_rows_wf B R C (Z.to_nat (row_offset ch))
                  (Z.to_nat (row_extent ch)) _ (cells3 buf)
                  ltac:(lia) Hlen Hp ltac:(by rewrite length_map) Hvp)
      as [Hl' Hp'].
    fold cells' in Hl', Hp'.
    destruct (IH (Arr3 (B, R, C) cells') _ HL' eq_refl
                 (wf3_intro _ _ _ _ Hl' Hp') Hag')
      as (buf' & Hfold & Hs' & Hw' & Hag'').
    exists buf'. repeat split; try done.
    intros b band eband r Hb Heb Hr. eapply Hag''; eauto.
    destruct Hr as [Hr|(ch' & Hin & Hcov)]; [by left; left|].
    apply elem_of_cons in Hin as [->|Hin]; [by left; right|].
    right. eauto.
Qed.

(** When the chunks cover all the rows, the shared array ends as the
    transform of the whole array. *)
Lemma fold_whole L :
  Forall (in_bounds R C) L →
  (∀ r, (r < R)%nat → ∃ ch, ch ∈ L ∧ covers ch (Z.of_nat r)) →
  rfoldM (chunk_step g) (nan_array (Z.of_nat B, Z.of_nat R, Z.of_nat C)) L
  = Ok E.
Proof.
  intros HL Hcov.
  assert (nan_array (Z.of_nat B, Z.of_nat R, Z.of_nat C)
          = Arr3 (B, R, C) (replicate B (replicate R (replicate C nan)))) as ->.
  { unfold nan_array. by rewrite !Nat2Z.id. }
  destruct (fold_agree L (Arr3 (B, R, C) (replicate B (replicate R (replicate C nan))))
              (fun _ => False) HL eq_refl (full_wf B R C nan))
    as (buf' & Hfold & Hs' & Hw' & Hag); [by intros ? ? ? ? ? ? []|].
  rewrite Hfold. f_equal.
  destruct whole_array_shape as [HsE HwE].
  destruct (wf3_elim _ _ _ _ HsE HwE) as [HlE HpE].
  destruct (wf3_elim _ _ _ _ Hs' Hw') as [Hl' Hp'].
  apply arr3_eq; [by rewrite Hs', HsE|].
  apply list_eq. intros b.
  destruct (cells3 buf' !! b) as [band|] eqn:Hb;
    destruct (cells3 E !! b) as [eband|] eqn:He.
  - f_equal. apply list_eq. intros r.
    destruct (decide (r < R)%nat) as [Hr|Hr].
    + eapply Hag; eauto.
    + pose proof (proj1 (Forall_lookup _ _) Hp' _ _ Hb) as [Hbl _].
      pose proof (proj1 (Forall_lookup _ _) HpE _ _ He) as [Hel _].
      rewrite !lookup_ge_None_2; [done|lia|lia].
  - apply lookup_lt_Some in Hb. apply lookup_ge_None in He. lia.
  - apply lookup_lt_Some in He. apply lookup_ge_None in Hb. lia.
  - done.
Qed.

End Run.

(** ** Calls on an object that has a write function *)

Section Reuse.
Context `{CellType}.
Implicit Types (s : state).

Lemma _process_nomulti_frame s : frame s (snd (_process_nomulti s)).
Proof.
  destruct (rfunc (self s)) as [rf|] eqn:Hrf.
  - destruct (chunks (self s)) as [chs|] eqn:Hchs.
    + rewrite (_process_nomulti_unfold s rf chs Hrf Hchs). unfold bind.
      set (s1 := with_globals _ s).
      pose proof (for_each_mt_worker_frame s1 chs) as Hf.
      destruct (for_each mt_worker chs s1) as [[[]|e] s2]; simpl in Hf.
      * unfold attr. destruct (arrout (self s2)); simpl;
          (eapply frame_trans; [apply frame_globals|exact Hf]).
      * simpl. eapply frame_trans; [apply frame_globals|exact Hf].
    + unfold _process_nomulti, _setup_globals.
      unfold bind at 1. unfold gets at 1.
      unfold bind at 1. unfold attr at 1. rewrite Hrf.
      do 3 (unfold bind at 1; unfold gets at 1).
      unfold bind at 1. unfold modify at 1.
      unfold bind at 1. unfold attr at 1. state_simpl. rewrite Hchs.
      apply frame_globals.
  - unfold _process_nomulti.
    unfold bind at 1. unfold gets at 1.
    unfold bind at 1. unfold attr at 1. rewrite Hrf. apply frame_refl.
Qed.

Lemma _process_frame sched s : frame s (snd (_process sched s)).
Proof.
  destruct (rfunc (self s)) as [rf|] eqn:Hrf.
  2:{ unfold _process. unfold bind at 1. unfold gets at 1.
      unfold bind at 1. unfold attr at 1. rewrite Hrf. apply frame_refl. }
  destruct (decide (nproc (self s) < 1)) as [Hnp|Hnp].
  { unfold _process. unfold bind at 1. unfold gets at 1.
    unfold bind at 1. unfold attr at 1. rewrite Hrf.
    do 4 (unfold bind at 1; unfold gets at 1).
    rewrite decide_True by done. unfold bind at 1. unfold lift.
    apply frame_refl. }
  destruct (chunks (self s)) as [chs|] eqn:Hchs.
  - rewrite (_process_unfold sched s rf chs Hrf Hchs) by lia.
    unfold bind, in_children.
    set (s1 := with_globals _ s).
    pose proof (for_each_mt_worker_frame s1 (pool_order sched chs)) as Hf.
    destruct (for_each mt_worker _ s1) as [[[]|e] s2]; simpl in Hf.
    + unfold attr. state_simpl.
      destruct (arrout (self s2)); simpl;
        (eapply frame_trans; [apply frame_globals|];
         eapply frame_trans; [exact Hf|apply frame_globals]).
    + simpl. eapply frame_trans; [apply frame_globals|].
      eapply frame_trans; [exact Hf|apply frame_globals].
  - unfold _process. unfold bind at 1. unfold gets at 1.
    unfold bind at 1. unfold attr at 1. rewrite Hrf.
    do 4 (unfold bind at 1; unfold gets at 1).
    rewrite decide_False by done. unfold bind at 1. unfold ret at 1.
    unfold bind at 1. unfold attr at 1. rewrite Hchs. apply frame_refl.
Qed.

(** The tail that the two entry points share, after [_setup_arrays] and the
    assignment of the read function. *)
Lemma entry_tail_same_buffer sched s0 s w :
  wfunc (self s) = Some w →
  same_buffer s0 s → arrout (self s) = arrout (self s0) →
  let out := bind (if decide (nproc (self s) = 1) then _process_nomulti
                   else _process sched)
                  (fun _ => bind _cleanup (fun _ => attr arrout)) s in
  same_buffer s0 (snd out) ∧
  ∀ h, fst out = Ok h → arrout (self s0) = Some h.
Proof.
  intros Hw Hsame Harr out.
  assert (∀ s2, frame s s2 → same_buffer s0 s2) as Hstep.
  { intros s2 (F1 & F2 & F3 & F4 & F5 & F6 & evs2 & F7 & Q2).
    destruct Hsame as (S1 & S2 & S3 & S4 & S5 & S6 & S7 & S8 & evs1 & S9 & Q1).
    unfold same_buffer. rewrite F1. repeat split; try congruence.
    - intros h Hh. rewrite F6 by congruence. by apply S7.
    - exists (evs1 ++ evs2). split; [|by apply Forall_app].
      by rewrite F7, S9, app_assoc. }
  assert (∀ (r : result nat) s2, frame s s2 →
            let out2 := match r with
                        | Ok _ => bind _cleanup (fun _ => attr arrout) s2
                        | Raise e => (Raise e, s2)
                        end in
            same_buffer s0 (snd out2) ∧
            ∀ h, fst out2 = Ok h → arrout (self s0) = Some h) as Htail.
  { intros r s2 Hf out2. subst out2. destruct r as [a|e].
    - assert (wfunc (self s2) = Some w) as Hw2.
      { destruct Hf as (F1 & _). by rewrite F1. }
      rewrite (bind_ok _ _ _ _ _ (_cleanup_noop s2 w Hw2)).
      unfold attr. destruct (arrout (self s2)) as [h|] eqn:Hh; simpl.
      + split; [by apply Hstep|]. intros h' [= <-].
        destruct Hf as (F1 & _). rewrite F1 in Hh. congruence.
      + split; [by apply Hstep|]. done.
    - simpl. split; [by apply Hstep|]. done. }
  assert (∀ m : M nat, frame s (snd (m s)) →
            same_buffer s0
              (snd (bind m (fun _ => bind _cleanup (fun _ => attr arrout)) s)) ∧
            ∀ h, fst (bind m (fun _ => bind _cleanup (fun _ => attr arrout)) s)
                 = Ok h → arrout (self s0) = Some h) as Hm.
  { intros m Hf. unfold bind at 1 3.
    destruct (m s) as [r s2]. apply (Htail r s2 Hf). }
  subst out. destruct (decide (nproc (self s) = 1)).
  - apply Hm, _process_nomulti_frame.
  - apply Hm, _process_frame.
Qed.

End Reuse.

(** * Main results *)

(** ** Where the code departs from its documentation *)

Section Departures.
Context `{CellType}.

(** When the transform raises, the handler of [mt_worker] raises itself:
    nothing is printed and the write function is not called. *)
Lemma mt_worker_transform_raises s g ch d e :
  mt_globals s = Some g → MT_RFUNC g ch = Ok d → 0 ≤ MT_OUTBANDS g →
  MT_PFUNC g (take_mask (as_3d d) (valid_mask (MT_DROPNODATA g) (as_3d d)))
    = Raise e →
  mt_worker ch s =
  (Raise TypeError,
   with_trace (trace s ++ [EvRead ch;
                           EvTransform
                             (take_mask (as_3d d)
                                (valid_mask (MT_DROPNODATA g) (as_3d d)))]) s).
Proof.
  intros Hg Hd Hb Hpf. rewrite (mt_worker_unfold s g ch Hg).
  unfold chunk_output, worker_events. rewrite Hd. cbn [rbind].
  destruct (shape3 (as_3d d)) as [[B R] C].
  rewrite np_full_ok by done. cbn [rbind]. by rewrite Hpf.
Qed.

(** [read_and_process] does not look at the read function it is given. *)
Lemma read_and_process_ignores_rfunc sched shape (rf1 rf2 : rfunc_t) s :
  read_and_process sched shape rf1 s = read_and_process sched shape rf2 s.
Proof. reflexivity. Qed.

(** After [_setup_arrays] has allocated, the write function is set, so that
    [_cleanup] frees nothing. *)
Lemma _setup_arrays_sets_wfunc s shape s' :
  _setup_arrays shape s = (Ok tt, s') → wfunc (self s') ≠ None.
Proof.
  destruct (wfunc (self s)) as [w|] eqn:Hw.
  - rewrite (_setup_arrays_again s shape w Hw). intros [= <-].
    unfold with_self. state_simpl. cbn [set_inshape wfunc]. by rewrite Hw.
  - unfold _setup_arrays. unfold bind at 1. unfold assign at 1.
    unfold modify at 1. unfold bind at 1. unfold gets at 1.
    unfold with_self at 1. state_simpl. cbn [set_inshape wfunc]. rewrite Hw.
    unfold bind at 1. unfold uuid4 at 1.
    unfold bind at 1. unfold assign at 1. unfold modify at 1.
    unfold bind at 1. unfold attr at 1.
    unfold with_self at 1, with_drawn at 1. state_simpl.
    cbn [set_sa_id set_inshape inshape].
    unfold bind at 1.
    destruct (sa_create _ _ _) as [[h|e] s1]; [|done].
    unfold bind at 1. unfold assign at 1. unfold modify at 1.
    unfold bind at 1.
    destruct (fill_nan h _) as [[[]|e] s2]; [|done].
    unfold bind at 1. unfold lift at 1.
    destruct (chunk shape chunk_default_nchunks) as [chs|e]; [|done].
    unfold bind, assign, modify. intros [= <-].
    unfold with_self. state_simpl. done.
Qed.

(** Whatever [nchunks] the object was built with, [_setup_arrays] on an
    object without a write function cuts the rows into the default number
    of chunks, and the shared array has the shape of the input. *)
Lemma _setup_arrays_defaults s (shape : Z * Z * Z) :
  wfunc (self s) = None →
  sa_names s !! uuid_source s (uuid_drawn s) = None →
  0 ≤ shape.1.1 → 0 ≤ shape.1.2 → 0 ≤ shape.2 →
  let s' := snd (_setup_arrays shape s) in
  chunks (self s')
  = Some (chunk_list shape.1.2 shape.2 chunk_default_nchunks) ∧
  length <$> chunks (self s') = Some (Z.to_nat chunk_default_nchunks) ∧
  (arrout (self s') ≫= fun h => sa_heap s' !! h) = Some (nan_array shape).
Proof.
  intros Hw Hfree Hb Hr Hc.
  rewrite (_setup_arrays_fresh s shape Hw Hfree Hb Hr Hc). cbn [snd].
  state_simpl. cbn [after_setup set_wfunc set_chunks set_arrout chunks arrout].
  split; [done|]. split.
  - unfold fmap, option_fmap, option_map. by rewrite chunk_list_length.
  - cbn [mbind option_bind]. rewrite lookup_app_r by done.
    by rewrite Nat.sub_diag.
Qed.

Lemma quiet_no_delete (evs : list event) :
  Forall quiet evs → existsb is_delete evs = false.
Proof.
  induction 1 as [|e evs He _ IH]; [done|].
  simpl. rewrite IH. by destruct e.
Qed.

(** A call of [process_array] on a new object that returns has deleted
    nothing: the name of the shared array is still registered. *)
Lemma fresh_run_keeps_name sched s (arrin : arr3) h s' :
  wfunc (self s) = None →
  sa_names s !! uuid_source s (uuid_drawn s) = None →
  1 ≤ nproc (self s) →
  process_array sched arrin s = (Ok h, s') →
  sa_names s' !! uuid_source s (uuid_drawn s) = Some h ∧
  existsb is_delete (trace s') = existsb is_delete (trace s).
Proof.
  intros Hw Hfree Hnp Hcall.
  pose proof (process_array_fresh sched s arrin Hw Hfree Hnp) as Hrun.
  cbv zeta in Hrun.
  destruct (rfoldM _ _ _) as [buf'|e].
  - rewrite Hrun in Hcall. injection Hcall as <- <-. state_simpl. split.
    + apply lookup_insert_eq.
    + rewrite !existsb_app. simpl.
      rewrite (quiet_no_delete (flat_map _ _)); [by rewrite orb_false_r|].
      apply Forall_flat_map, Forall_forall. intros ch _.
      apply worker_events_quiet.
  - rewrite Hcall in Hrun. done.
Qed.

End Departures.

Section Concrete.
#[local] Existing Instance fcell_cells.

(** C2 (the code departs): a transform that raises, with [nproc = 1].  The
    handler of the worker raises [TypeError] when it joins the ints of the
    chunk, so that nothing is printed, the write function is not called
    and [process_array] raises; the specification says that the exception is
    reported and swallowed, the NaN output written and a result returned. *)
Theorem failing_transform_escapes :
  let r := process_array in_order sample_array
             (sample_state failing 2 100 1 false) in
  fst r = Raise TypeError ∧
  trace (snd r)
  = [EvCreate "a" (2, 3, 2); EvFill 0; EvRead (Chunk 0 0 2 0);
     EvTransform (Arr2 (2, 0)%nat [[]; []])].
Proof. vm_compute. done. Qed.

(** C3 (the code departs): [read_and_process] on a new object, with a read
    function over [sample_array].  The method never stores the read
    function; [self.rfunc] is missing and the call raises [AttributeError]
    before any chunk is read, where the specification says that each worker reads
    its chunk through the function supplied. *)
Theorem read_and_process_drops_rfunc :
  let r := read_and_process in_order (2, 3, 2) (array_reader sample_array)
             (sample_state passthrough 2 100 1 false) in
  fst r = Raise AttributeError ∧
  rfunc (self (snd r)) = None ∧
  trace (snd r) = [EvCreate "a" (2, 3, 2); EvFill 0].
Proof. vm_compute. done. Qed.

(** C4 (the code departs): [_setup_arrays] for an input of shape (3, 2, 2)
    on an object with one output band.  The shared array is created with
    the input shape, three bands, where the specification says (output_bands, rows,
    columns), one band; every cell of it is NaN. *)
Theorem setup_allocates_input_shape :
  let r := _setup_arrays (3, 2, 2) (sample_state passthrough 1 100 1 false) in
  fst r = Ok tt ∧
  arrout (self (snd r)) = Some 0%nat ∧
  sa_heap (snd r) = [nan_array (3, 2, 2)] ∧
  shape3 (nan_array (3, 2, 2)) = (3, 2, 2)%nat ∧
  shape3 (nan_array (3, 2, 2)) ≠ (1, 2, 2)%nat.
Proof. vm_compute. repeat split; done. Qed.

(** C5 (the code departs): [_setup_arrays] on an object built with
    [nchunks = 7], for an input of ten rows.  [self.chunk] is called without
    the chunk count, and the chunk list has the default 100 entries where
    the specification says 7. *)
Theorem setup_ignores_nchunks :
  let r := _setup_arrays (1, 10, 10) (sample_state passthrough 1 7 1 false) in
  fst r = Ok tt ∧
  nchunks (self (snd r)) = 7 ∧
  length <$> chunks (self (snd r)) = Some 100%nat.
Proof. vm_compute. done. Qed.

(** C6 (the code departs): a whole call of [process_array] on a new object.
    [_cleanup] frees the array only when there is no write function, and
    [_setup_arrays] has set one: [sa.delete] is never called and the name
    stays registered, where the specification says that the array is freed exactly
    once at the end of the run. *)
Theorem run_never_frees :
  let r := process_array in_order sample_array
             (sample_state passthrough 2 100 1 false) in
  fst r = Ok 0%nat ∧
  sa_id (self (snd r)) = Some "a" ∧
  sa_names (snd r) !! "a" = Some 0%nat ∧
  existsb is_delete (trace (snd r)) = false.
Proof. vm_compute. done. Qed.

End Concrete.

(** ** A second call on the same object *)

Section SecondCall.
Context `{CellType}.

Lemma process_array_again sched s w (arrin : arr3) :
  wfunc (self s) = Some w →
  let s1 := with_self (set_rfunc (Some (array_reader arrin)))
              (with_self (set_inshape (Some (shapeZ arrin))) s) in
  process_array sched arrin s =
  bind (if decide (nproc (self s1) = 1) then _process_nomulti
        else _process sched)
       (fun _ => bind _cleanup (fun _ => attr arrout)) s1.
Proof.
  intros Hw s1. unfold process_array.
  rewrite (bind_ok _ _ _ _ _ (_setup_arrays_again s (shapeZ arrin) w Hw)).
  unfold bind at 1. unfold assign at 1. unfold modify at 1.
  unfold bind at 1. unfold gets at 1. done.
Qed.

Lemma read_and_process_again sched s w shape (rf : rfunc_t) :
  wfunc (self s) = Some w →
  let s1 := with_self (set_inshape (Some shape)) s in
  read_and_process sched shape rf s =
  bind (if decide (nproc (self s1) = 1) then _process_nomulti
        else _process sched)
       (fun _ => bind _cleanup (fun _ => attr arrout)) s1.
Proof.
  intros Hw s1. unfold read_and_process.
  rewrite (bind_ok _ _ _ _ _ (_setup_arrays_again s shape w Hw)).
  unfold bind at 1. unfold gets at 1. done.
Qed.

Lemma same_buffer_refl s s1 :
  chunks (self s1) = chunks (self s) → sa_id (self s1) = sa_id (self s) →
  arrout (self s1) = arrout (self s) → wfunc (self s1) = wfunc (self s) →
  sa_names s1 = sa_names s → sa_heap s1 = sa_heap s →
  uuid_drawn s1 = uuid_drawn s → trace s1 = trace s →
  same_buffer s s1.
Proof.
  intros H1 H2 H3 H4 H5 H6 H7 H8. unfold same_buffer.
  split_and!; try done.
  - by rewrite H6.
  - intros h _. by rewrite H6.
  - exists []. by rewrite app_nil_r.
Qed.

(** On an object whose write function is set, a call of either entry
    point leaves the chunk list, the name and the reference of the shared
    array and the write function as they were, and the reference that the
    call returns is the one stored before the call. *)
Lemma entry_points_same_buffer sched s w :
  wfunc (self s) = Some w →
  (∀ arrin : arr3,
     same_buffer s (snd (process_array sched arrin s)) ∧
     ∀ h, fst (process_array sched arrin s) = Ok h → arrout (self s) = Some h) ∧
  (∀ shape (rf : rfunc_t),
     same_buffer s (snd (read_and_process sched shape rf s)) ∧
     ∀ h, fst (read_and_process sched shape rf s) = Ok h →
          arrout (self s) = Some h).
Proof.
  intros Hw. split.
  - intros arrin. rewrite (process_array_again sched s w arrin Hw).
    cbv zeta.
    apply (entry_tail_same_buffer sched s _ w); [done| |done].
    by apply same_buffer_refl.
  - intros shape rf. rewrite (read_and_process_again sched s w shape rf Hw).
    cbv zeta.
    apply (entry_tail_same_buffer sched s _ w); [done| |done].
    by apply same_buffer_refl.
Qed.

End SecondCall.

(** ** Whole runs on a new object *)

Lemma ok_of_eq_iff {A} (r1 r2 : result A) (a : A) :
  ok_of r1 = ok_of r2 → (r1 = Ok a ↔ r2 = Ok a).
Proof. destruct r1, r2; simpl; intros Heq; split; intros Hr; congruence. Qed.

Section WholeRuns.
Context `{CellType}.
Implicit Types (s : state) (arrin : arr3).

Lemma shapeZ_eq arrin B R C :
  shape3 arrin = (B, R, C) →
  shapeZ arrin = (Z.of_nat B, Z.of_nat R, Z.of_nat C).
Proof. intros Hs. unfold shapeZ. by rewrite Hs. Qed.

Lemma run_order_perm sched o chs : run_order sched o chs ≡ₚ chs.
Proof. unfold run_order. case_decide; [done|apply pool_order_perm]. Qed.

(** A call on a new object returns [out] exactly when the chunk steps, in
    the order of the call, turn the NaN array into [out]. *)
Lemma process_array_returns sched s arrin out B R C :
  wfunc (self s) = None →
  sa_names s !! uuid_source s (uuid_drawn s) = None →
  1 ≤ nproc (self s) →
  shape3 arrin = (B, R, C) →
  returns_array sched arrin s out ↔
  rfoldM (chunk_step (run_globals (self s) arrin))
         (nan_array (Z.of_nat B, Z.of_nat R, Z.of_nat C))
         (run_order sched (self s)
            (chunk_list (Z.of_nat R) (Z.of_nat C) chunk_default_nchunks))
  = Ok out.
Proof.
  intros Hw Hfree Hnp Hs.
  pose proof (process_array_fresh sched s arrin Hw Hfree Hnp) as Hrun.
  cbv zeta in Hrun. rewrite (shapeZ_eq arrin B R C Hs) in Hrun.
  cbn [fst snd] in Hrun.
  change (globals_of _ (array_reader arrin))
    with (run_globals (self s) arrin) in Hrun.
  fold (run_order sched (self s)
          (chunk_list (Z.of_nat R) (Z.of_nat C) chunk_default_nchunks)) in Hrun.
  destruct (rfoldM _ _ _) as [buf'|e].
  - split.
    + intros (h & s' & Hcall & Hout). rewrite Hrun in Hcall.
      injection Hcall as <- <-. cbn [sa_heap] in Hout.
      rewrite lookup_app_r, Nat.sub_diag in Hout by done.
      simpl in Hout. congruence.
    + intros [= <-]. eexists _, _. split; [exact Hrun|].
      state_simpl. rewrite lookup_app_r, Nat.sub_diag by done. done.
  - split; [|done].
    intros (h & s' & Hcall & _). rewrite Hcall in Hrun. done.
Qed.

Lemma pixel_lookup arrin B R C b r c :
  shape3 arrin = (B, R, C) → wf3 arrin → (r < R)%nat → (c < C)%nat →
  pixel arrin r c !! b = at3 arrin b r c.
Proof.
  intros Hs Hw Hr Hc. destruct (wf3_elim _ _ _ _ Hs Hw) as [Hlen Hp].
  unfold pixel, at3. rewrite omap_lookup_total; [done|].
  eapply Forall_impl; [exact Hp|]. intros band Hband. simpl.
  by eapply plane_at_is_Some.
Qed.

Lemma passthrough_pixelwise B : pixelwise passthrough (fun v => v) B B.
Proof. intros x n Hs Hw. exists x. by split_and!. Qed.

(** The pass-through transform of a whole array is the array, when no pixel
    is dropped in part. *)
Lemma whole_array_passthrough arrin B R C drop :
  shape3 arrin = (B, R, C) → wf3 arrin →
  (drop = false ∨
   ∀ r c, (r < R)%nat → (c < C)%nat → whole_pixel (pixel arrin r c)) →
  whole_array passthrough (Z.of_nat B) drop arrin = Ok arrin.
Proof.
  intros Hs Hw Hwhole.
  destruct (whole_array_at passthrough (fun v => v) drop arrin B R C Hs Hw
              (passthrough_pixelwise B)) as (E & HE & HsE & HwE & Hat).
  rewrite HE. f_equal. apply (arr3_ext E arrin B R C); try done.
  intros b r c Hb Hr Hc. rewrite (Hat b r c Hb Hr Hc). unfold expect.
  rewrite (pixel_lookup arrin B R C b r c Hs Hw Hr Hc).
  unfold valid_mask. rewrite Hs. destruct drop.
  - rewrite (np_all_notnan_at arrin B R C r c Hs Hw Hr Hc).
    destruct (forallb _ _) eqn:Hall; [done|].
    destruct Hwhole as [|Hwhole]; [done|].
    destruct (Hwhole r c Hr Hc) as [Hnone|Hnan].
    + apply not_true_iff_false in Hall. exfalso. apply Hall.
      apply forallb_forall. intros x Hx. apply list_elem_of_In in Hx.
      by rewrite (Hnone x Hx).
    + rewrite <- (pixel_lookup arrin B R C b r c Hs Hw Hr Hc).
      destruct (pixel arrin r c !! b) as [x|] eqn:Hx.
      * f_equal. symmetry. apply Hnan. by eapply list_elem_of_lookup_2.
      * apply lookup_ge_None in Hx.
        rewrite (pixel_length arrin B R C r c Hs Hw Hr Hc) in Hx. lia.
  - unfold np_ones_bool. by rewrite plane_at_replicate.
Qed.

(** The chunks of a call lie within the array and cover its rows. *)
Lemma run_order_in_bounds sched o (R C : nat) :
  Forall (in_bounds R C)
    (run_order sched o
       (chunk_list (Z.of_nat R) (Z.of_nat C) chunk_default_nchunks)).
Proof.
  rewrite run_order_perm. by apply chunk_list_in_bounds.
Qed.

Lemma run_order_covers sched o (R C : nat) (r : nat) :
  (r < R)%nat →
  ∃ ch, ch ∈ run_order sched o
               (chunk_list (Z.of_nat R) (Z.of_nat C) chunk_default_nchunks) ∧
        covers ch (Z.of_nat r).
Proof.
  intros Hr.
  destruct (chunk_list_covers (Z.of_nat R) (Z.of_nat C) chunk_default_nchunks
              (Z.of_nat r)) as (ch & Hin & Hcov); [lia|done|].
  exists ch. split; [|done]. by rewrite run_order_perm.
Qed.

(** A call on a new object with a pixel-wise transform that keeps the band
    count returns the transform of the whole array. *)
Lemma process_array_pixelwise sched s arrin B R C f whole :
  wfunc (self s) = None →
  sa_names s !! uuid_source s (uuid_drawn s) = None →
  1 ≤ nproc (self s) →
  shape3 arrin = (B, R, C) → wf3 arrin →
  nbandsout (self s) = Z.of_nat B →
  pixelwise (pfunc (self s)) f B B →
  whole_array (pfunc (self s)) (Z.of_nat B) (dropnodata (self s)) arrin
    = Ok whole →
  returns_array sched arrin s whole.
Proof.
  intros Hw Hfree Hnp Hs Hwf Hnb Hpf Hwhole.
  apply (process_array_returns sched s arrin whole B R C Hw Hfree Hnp Hs).
  apply (fold_whole (pfunc (self s)) f (dropnodata (self s)) arrin B R C
           Hs Hwf Hpf (run_globals (self s) arrin) whole); try done.
  - apply run_order_in_bounds.
  - intros r Hr. by apply run_order_covers.
Qed.

End WholeRuns.

(** ** Pass-through and chunking *)

Section Chunking.
Context `{CellType}.

(** C8, amended: on a newly constructed [MultiTool] with the pass-through
    transform and as many output bands as the input has, with one worker or
    more, [process_array] returns an array equal to the input, provided
    that nodata dropping is off or that every pixel of the input with a NaN
    band is NaN in all its bands. *)
Theorem passthrough_returns_input sched s (arrin : arr3) B R C nch np drop :
  self s = __init__ passthrough (Z.of_nat B) nch np drop →
  sa_names s !! uuid_source s (uuid_drawn s) = None →
  1 ≤ np →
  shape3 arrin = (B, R, C) → wf3 arrin →
  (drop = false ∨
   ∀ r c, (r < R)%nat → (c < C)%nat → whole_pixel (pixel arrin r c)) →
  returns_array sched arrin s arrin.
Proof.
  intros Hself Hfree Hnp Hs Hw Hwhole.
  apply (process_array_pixelwise sched s arrin B R C (fun v => v));
    rewrite ?Hself; cbn [pfunc dropnodata nbandsout nproc wfunc __init__];
    try done.
  - apply passthrough_pixelwise.
  - exact (whole_array_passthrough arrin B R C drop Hs Hw Hwhole).
Qed.

Lemma run_globals_wf (o : MultiTool) (arrin : arr3) :
  wf3 arrin → wf_transform (pfunc o) →
  wf_globals (run_globals o arrin).
Proof.
  intros Hw Hpf. split.
  - intros ch d Hd. exact (array_reader_wf arrin ch d Hw Hd).
  - exact Hpf.
Qed.

Lemma nan_array_wf (B R C : nat) :
  shape3 (nan_array (Z.of_nat B, Z.of_nat R, Z.of_nat C)) = (B, R, C) ∧
  wf3 (nan_array (Z.of_nat B, Z.of_nat R, Z.of_nat C)).
Proof.
  unfold nan_array. rewrite !Nat2Z.id. split; [done|apply full_wf].
Qed.

(** C9, amended: for every input and every deterministic transform that
    maps arrays to arrays, the run without a pool ([nproc = 1]) and the run with a
    pool ([nproc > 1], whatever the order in which the pool takes the
    chunks) return the same array, if any; and for a pixel-wise transform
    that keeps the band count (output bands = input bands) both return the
    transform applied to the whole array at once, under the same nodata
    mask. *)
Theorem chunking_preserves_result (pf : pfunc_t) nbo nch drop np
    sched1 sched2 (arrin : arr3) s1 s2 :
  self s1 = __init__ pf nbo nch 1 drop →
  self s2 = __init__ pf nbo nch np drop →
  1 < np →
  sa_names s1 !! uuid_source s1 (uuid_drawn s1) = None →
  sa_names s2 !! uuid_source s2 (uuid_drawn s2) = None →
  wf3 arrin →
  (wf_transform pf →
   ∀ out, returns_array sched1 arrin s1 out ↔ returns_array sched2 arrin s2 out) ∧
  (∀ f B R C,
     shape3 arrin = (B, R, C) → nbo = Z.of_nat B → pixelwise pf f B B →
     ∃ whole, whole_array pf nbo drop arrin = Ok whole ∧
              returns_array sched1 arrin s1 whole ∧
              returns_array sched2 arrin s2 whole).
Proof.
  intros Hself1 Hself2 Hnp Hfree1 Hfree2 Hw. split.
  - intros Hpf out.
    destruct (shape3 arrin) as [[B R] C] eqn:Hs.
    rewrite (process_array_returns sched1 s1 arrin out B R C)
      by (rewrite ?Hself1; done).
    rewrite (process_array_returns sched2 s2 arrin out B R C)
      by (rewrite ?Hself2; simpl; (done || lia)).
    rewrite Hself1, Hself2. unfold run_order. cbn [nproc __init__].
    rewrite decide_True by done. rewrite decide_False by lia.
    change (run_globals (__init__ pf nbo nch np drop) arrin)
      with (run_globals (__init__ pf nbo nch 1 drop) arrin).
    apply ok_of_eq_iff.
    destruct (nan_array_wf B R C) as [Hsn Hwn].
    apply (chunk_steps_perm _ _ B R C); try done.
    + by apply run_globals_wf.
    + by apply chunk_list_in_bounds.
    + apply chunk_list_disjoint; [lia|done].
    + symmetry. apply pool_order_perm.
  - intros f B R C Hs -> Hpix.
    destruct (whole_array_at pf f drop arrin B R C Hs Hw Hpix)
      as (whole & Hwhole & _).
    exists whole. split; [done|]. split.
    + apply (process_array_pixelwise sched1 s1 arrin B R C f);
        rewrite ?Hself1; done.
    + apply (process_array_pixelwise sched2 s2 arrin B R C f);
        rewrite ?Hself2; simpl; (done || lia).
Qed.

End Chunking.

(** ** The nodata mask of the worker *)

Lemma rank_surj (m : list bool) (j : nat) :
  (j < rank m (length m))%nat → ∃ k, m !! k = Some true ∧ rank m k = j.
Proof.
  revert j. induction m as [|b m IH]; intros j Hj; simpl in Hj; [lia|].
  destruct b.
  - destruct j as [|j]; [by exists 0%nat|].
    destruct (IH j ltac:(lia)) as (k & Hk & Hr). exists (S k). simpl.
    split; [done|]. by rewrite Hr.
  - destruct (IH j ltac:(lia)) as (k & Hk & Hr). exists (S k). by simpl.
Qed.

Lemma flat_position (R C k : nat) :
  (k < R * C)%nat →
  ∃ r c, (r < R)%nat ∧ (c < C)%nat ∧ (r * C + c)%nat = k.
Proof.
  intros Hk. assert (C ≠ 0)%nat as HC by lia.
  exists (k `div` C)%nat, (k `mod` C)%nat.
  pose proof (Nat.div_mod_eq k C). pose proof (Nat.mod_upper_bound k C HC).
  split; [|split; [done|lia]].
  apply Nat.Div0.div_lt_upper_bound. lia.
Qed.

Section NodataMask.
Context `{CellType}.
Implicit Types (s : state) (g : globals) (ch : chunk_desc) (a : arr3).

Lemma apply_wfunc_trace w o ch s :
  trace (snd (apply_wfunc w o ch s)) = trace s.
Proof.
  destruct w as [[|f]|]; cbn [apply_wfunc]; try done.
  unfold shared_write, bind, attr, gets, lift, modify.
  destruct (arrout (self s)) as [h|]; [|done].
  destruct (sa_heap s !! h) as [buf|]; [|done].
  by destruct (assign_region _ _ _ _ _ _).
Qed.

(** The events of the worker are those of [worker_events]. *)
Lemma mt_worker_trace s g ch :
  mt_globals s = Some g →
  trace (snd (mt_worker ch s)) = trace s ++ worker_events g ch.
Proof.
  intros Hg. rewrite (mt_worker_unfold s g ch Hg).
  destruct (chunk_output g ch); [|done].
  by rewrite apply_wfunc_trace.
Qed.

Lemma put_mask_at_invalid a B R C valid (res : arr2) o b r c :
  shape3 a = (B, R, C) → wf3 a → wf_plane R C valid → wf2 res →
  put_mask a valid res = Ok o →
  (b < B)%nat → plane_at valid r c = Some false →
  at3 o b r c = at3 a b r c.
Proof.
  intros Hs Hw Hv Hres Hput Hb Hrc.
  destruct (wf3_elim _ _ _ _ Hs Hw) as [Hlen Hp].
  destruct (plane_at_lt R C valid r c false Hv Hrc) as [Hr Hc].
  unfold put_mask in Hput. rewrite Hs in Hput.
  destruct (broadcast2 _ res) as [vals|] eqn:Hbc; [|done].
  injection Hput as <-.
  destruct (broadcast2_wf _ _ _ _ Hres Hbc) as [Hvl _].
  destruct (cells3 a !! b) as [band|] eqn:Hband;
    [|apply lookup_ge_None in Hband; lia].
  destruct (vals !! b) as [new|] eqn:Hnew;
    [|apply lookup_ge_None in Hnew; lia].
  pose proof (proj1 (Forall_lookup _ _) Hp _ _ Hband) as Hbw.
  unfold at3. simpl. rewrite lookup_zip_with, Hband. simpl. rewrite Hnew. simpl.
  fold (plane_at (unflatten R C (scatter (concat valid) (concat band) new)) r c).
  fold (plane_at band r c).
  rewrite unflatten_lookup by done.
  rewrite scatter_lookup_false.
  - by apply (concat_lookup_plane R C).
  - by rewrite (length_concat_plane R C), (length_concat_plane R C).
  - by rewrite (concat_lookup_plane R C).
Qed.

(** C7: for a chunk whose data the worker has read, with [valid] the mask
    that the worker computes: when the nodata-drop flag is set a pixel is
    valid exactly when none of its band values is NaN, and when it is not
    set every pixel is valid; the transform is called once, with an array
    whose columns are exactly the valid pixel-vectors, in row-major order;
    in any output handed to the write function every invalid pixel is NaN
    in all bands, whatever the transform returned; and when the transform
    returns an array of the expected shape the write function is called. *)
Theorem worker_masks_nodata s g ch d B R C :
  mt_globals s = Some g →
  MT_RFUNC g ch = Ok d → shape3 (as_3d d) = (B, R, C) → wf3 (as_3d d) →
  0 ≤ MT_OUTBANDS g →
  wf_transform (MT_PFUNC g) →
  let data := as_3d d in
  let valid := valid_mask (MT_DROPNODATA g) data in
  let arg := take_mask data valid in
  let Bo := Z.to_nat (MT_OUTBANDS g) in
  (∀ r c, (r < R)%nat → (c < C)%nat →
     plane_at valid r c =
     Some (if MT_DROPNODATA g
           then forallb (fun x => negb (isnan x)) (pixel data r c)
           else true)) ∧
  shape2 arg = (B, count_true valid) ∧
  (∀ r c, plane_at valid r c = Some true →
     (rank (concat valid) (r * C + c) < count_true valid)%nat ∧
     column arg (rank (concat valid) (r * C + c)) = pixel data r c) ∧
  (∀ j, (j < count_true valid)%nat →
     ∃ r c, plane_at valid r c = Some true ∧
            rank (concat valid) (r * C + c) = j) ∧
  (∃ rest,
     trace (snd (mt_worker ch s))
     = trace s ++ EvRead ch :: EvTransform arg :: rest ∧
     (∀ x, EvTransform x ∉ rest) ∧
     (∀ o ch', EvWrite o ch' ∈ rest →
        ch' = ch ∧ shape3 o = (Bo, R, C) ∧
        ∀ b r c, (b < Bo)%nat → plane_at valid r c = Some false →
                 at3 o b r c = Some nan) ∧
     (∀ y, MT_PFUNC g arg = Ok y → shape2 y = (Bo, count_true valid) →
           ∃ o, rest = [EvWrite o ch])).
Proof.
  intros Hg Hd Hs Hw Hb Hpf0 data valid arg Bo.
  assert (wf_plane R C valid) as Hv by (by eapply valid_mask_wf).
  assert (∀ y, MT_PFUNC g arg = Ok y → wf2 y) as Hpf.
  { intros y Hy. apply (Hpf0 arg y); [|done].
    by apply (take_mask_wf data B R C). }
  split_and!.
  - intros r c Hr Hc. subst valid data. unfold valid_mask. rewrite Hs.
    destruct (MT_DROPNODATA g).
    + by apply (np_all_notnan_at (as_3d d) B R C).
    + by apply plane_at_replicate.
  - by apply (take_mask_wf data B R C).
  - intros r c Hrc. split.
    + rewrite count_true_rank. apply rank_lt.
      destruct (plane_at_lt R C valid r c true Hv Hrc) as [Hr Hc].
      by rewrite (concat_lookup_plane R C).
    + by apply (take_mask_column data B R C).
  - intros j Hj. rewrite count_true_rank in Hj.
    destruct (rank_surj _ _ Hj) as (k & Hk & Hrk).
    pose proof (lookup_lt_Some _ _ _ Hk) as Hlt.
    rewrite (length_concat_plane R C _ Hv) in Hlt.
    destruct (flat_position R C k Hlt) as (r & c & Hr & Hc & <-).
    exists r, c. split; [|done].
    by rewrite <- (concat_lookup_plane R C valid r c Hv Hc).
  - rewrite (mt_worker_trace s g ch Hg).
    unfold worker_events. rewrite Hd. cbv zeta. rewrite Hs.
    rewrite np_full_ok by done. fold data. fold valid. fold arg. fold Bo.
    set (output := Arr3 (Bo, R, C) _).
    set (outcome := rbind (MT_PFUNC g arg) _).
    exists (match outcome with Ok o => [EvWrite o ch] | Raise _ => [] end).
    split; [done|]. split_and!.
    + intros x Hx. destruct outcome; [|by apply elem_of_nil in Hx].
      by apply list_elem_of_singleton in Hx.
    + intros o ch' Ho. destruct outcome as [o'|] eqn:Hout;
        [|by apply elem_of_nil in Ho].
      apply list_elem_of_singleton in Ho. injection Ho as -> ->.
      subst outcome. destruct (MT_PFUNC g arg) as [y|] eqn:Hy; [|done].
      cbn [rbind] in Hout.
      destruct (put_mask_wf output Bo R C valid y o' eq_refl (full_wf Bo R C nan)
                  Hv (Hpf y eq_refl) Hout) as [Hso Hwo].
      split; [done|]. split; [done|].
      intros b r c Hbo Hrc.
      rewrite (put_mask_at_invalid output Bo R C valid y o' b r c eq_refl
                 (full_wf Bo R C nan) Hv (Hpf y eq_refl) Hout Hbo Hrc).
      destruct (plane_at_lt R C valid r c false Hv Hrc) as [Hr Hc].
      unfold at3, output. simpl. rewrite lookup_replicate_2 by done. simpl.
      by apply plane_at_replicate.
    + intros y Hy Hsy. subst outcome. rewrite Hy. cbn [rbind].
      unfold put_mask, output. cbn [shape3 cells3].
      rewrite (broadcast2_same Bo (count_true valid) y Hsy). eauto.
Qed.

End NodataMask.

(** ** The theorems at sample inputs *)

Section Witnesses.
#[local] Existing Instance fcell_cells.

Lemma sample_array_wf : wf3 sample_array.
Proof. split; [reflexivity|]. repeat constructor. Defined.

Lemma passthrough_wf : wf_transform passthrough.
Proof. intros x y Hx Hy. injection Hy as <-. exact Hx. Defined.

(** Ten rows in three chunks. *)
Lemma chunk_partitions_rows_witness :
  0 ≤ 10 ∧ 1 ≤ 3 ∧
  ∃ l, chunk (2, 10, 4) 3 = Ok l ∧ length l = 3%nat ∧
       py_sum (row_extent <$> l) = 10.
Proof.
  split; [lia|]. split; [lia|].
  destruct (chunk_partitions_rows 2 10 4 3) as (l & H1 & H2 & _ & _ & H5 & _);
    [lia|lia|].
  exists l. split; [exact H1|]. split; [exact H2|exact H5].
Defined.

(** The worker on the whole of [sample_array], with nodata dropping. *)
Lemma worker_masks_nodata_witness :
  ∃ rest,
    trace (snd (mt_worker (Chunk 0 0 2 3)
                  (with_globals (Some (sample_globals true))
                     (sample_state passthrough 2 100 1 true))))
    = [] ++ EvRead (Chunk 0 0 2 3)
         :: EvTransform
              (take_mask sample_array (valid_mask true sample_array))
         :: rest.
Proof.
  destruct (worker_masks_nodata
              (with_globals (Some (sample_globals true))
                 (sample_state passthrough 2 100 1 true))
              (sample_globals true) (Chunk 0 0 2 3) (Read3 sample_array)
              2 3 2 eq_refl eq_refl eq_refl sample_array_wf
              ltac:(simpl; lia) passthrough_wf)
    as (_ & _ & _ & _ & rest & Htrace & _).
  exists rest. exact Htrace.
Defined.

(** The pass-through run of [sample_array] with a pool of two workers. *)
Lemma passthrough_returns_input_witness :
  returns_array reversed sample_array
    (sample_state passthrough 2 100 2 false) sample_array.
Proof.
  apply (passthrough_returns_input reversed
           (sample_state passthrough 2 100 2 false) sample_array
           2 3 2 100 2 false).
  - reflexivity.
  - reflexivity.
  - lia.
  - reflexivity.
  - exact sample_array_wf.
  - left. reflexivity.
Defined.

(** The same transform without and with a pool. *)
Lemma chunking_preserves_result_witness :
  (returns_array in_order sample_array
     (sample_state passthrough 2 100 1 false) sample_array ↔
   returns_array reversed sample_array
     (sample_state passthrough 2 100 2 false) sample_array) ∧
  ∃ whole,
    whole_array passthrough 2 false sample_array = Ok whole ∧
    returns_array in_order sample_array
      (sample_state passthrough 2 100 1 false) whole ∧
    returns_array reversed sample_array
      (sample_state passthrough 2 100 2 false) whole.
Proof.
  destruct (chunking_preserves_result passthrough 2 100 false 2
              in_order reversed sample_array
              (sample_state passthrough 2 100 1 false)
              (sample_state passthrough 2 100 2 false)
              eq_refl eq_refl ltac:(lia) eq_refl eq_refl sample_array_wf)
    as [Hsame Hwhole].
  split.
  - exact (Hsame passthrough_wf sample_array).
  - exact (Hwhole (fun v => v) 2%nat 3%nat 2%nat eq_refl eq_refl
             (passthrough_pixelwise 2)).
Defined.

(** C8, as stated, fails: with nodata dropping, the pass-through run of
    [sample_array], whose pixel at row 1, column 1 is NaN in band 0 only,
    returns an array that differs from the input at that pixel in band 1. *)
Lemma passthrough_drops_partial_nan :
  let r := process_array in_order sample_array
             (sample_state passthrough 2 100 1 true) in
  fst r = Ok 0%nat ∧
  (sa_heap (snd r) !! 0%nat ≫= fun out => at3 out 1 1 1) = Some FNaN ∧
  at3 sample_array 1 1 1 = Some (FNum 10) ∧
  sa_heap (snd r) !! 0%nat ≠ Some sample_array.
Proof.
  vm_compute. split_and!; try reflexivity. intros Heq. discriminate Heq.
Qed.

(** C9, as stated, fails: [spread_first] is deterministic, and its chunked
    run of [sample_column], with or without a pool, differs from its
    application to the whole array. *)
Lemma spread_first_differs :
  let r1 := process_array in_order sample_column
              (sample_state spread_first 1 100 1 false) in
  let r2 := process_array reversed sample_column
              (sample_state spread_first 1 100 2 false) in
  fst r1 = Ok 0%nat ∧ fst r2 = Ok 0%nat ∧
  sa_heap (snd r1) !! 0%nat = Some sample_column ∧
  sa_heap (snd r2) !! 0%nat = Some sample_column ∧
  whole_array spread_first 1 false sample_column
  = Ok (Arr3 (1, 2, 1)%nat [[[FNum 1]; [FNum 1]]]) ∧
  sa_heap (snd r1) !! 0%nat
  ≠ ok_of (whole_array spread_first 1 false sample_column).
Proof.
  vm_compute. split_and!; try reflexivity. intros Heq. discriminate Heq.
Qed.

End Witnesses.

(** * Further properties of the code *)

(** ** Degenerate chunk counts *)

(** X1: [MultiTool.chunk] with a chunk count of 0 raises
    [ZeroDivisionError], and with a negative chunk count it returns the
    empty list without an error, whatever the shape. *)
Theorem chunk_degenerate_counts (shape : Z * Z * Z) :
  chunk shape 0 = Raise ZeroDivisionError ∧
  ∀ N, N < 0 → chunk shape N = Ok [].
Proof.
  destruct shape as [[B R] C]. split; [done|].
  intros N HN. unfold chunk, py_floordiv. rewrite decide_False by lia.
  cbn [rbind]. unfold py_range.
  replace (Z.to_nat N) with 0%nat by lia. done.
Qed.

(** ** Gathering and scattering through a mask *)

Section MaskRoundTrip.
Context {A : Type}.
Implicit Types (l old new : list A) (m : list bool).

Lemma select_scatter m old new :
  length old = length m → length new = rank m (length m) →
  select m (scatter m old new) = new.
Proof.
  revert old new. induction m as [|b m IH]; intros [|o old] new Ho Hn;
    simplify_eq/=.
  - by destruct new.
  - destruct b; simpl in Hn.
    + destruct new as [|n new]; simplify_eq/=. f_equal. by apply IH.
    + by apply IH.
Qed.

Lemma concat_unflatten R C l :
  length l = (R * C)%nat → concat (unflatten R C l) = l.
Proof.
  revert l. induction R as [|R IH]; intros l Hl; simpl in *.
  - by destruct l.
  - rewrite IH by (rewrite length_drop; lia). apply take_drop.
Qed.

Lemma rank_all_true m k :
  Forall (fun b => b = true) m → (k ≤ length m)%nat → rank m k = k.
Proof.
  intros Hm. revert k. induction Hm as [|b m -> _ IH]; intros [|k] Hk;
    simpl in *; try done; [lia|].
  rewrite IH by lia. done.
Qed.

End MaskRoundTrip.

(** ** What the worker hands to the transform and to the write function *)

Section MaskedCalls.
Context `{CellType}.
Implicit Types (s : state) (g : globals) (ch : chunk_desc) (a : arr3).

Lemma take_put_mask a B R C valid (res : arr2) :
  shape3 a = (B, R, C) → wf3 a → wf_plane R C valid →
  shape2 res = (B, count_true valid) → wf2 res →
  ∃ o, put_mask a valid res = Ok o ∧ shape3 o = (B, R, C) ∧
       take_mask o valid = res.
Proof.
  intros Hs Hw Hv Hsr Hres.
  destruct (wf3_elim _ _ _ _ Hs Hw) as [Hlen Hp].
  unfold put_mask. rewrite Hs, (broadcast2_same B _ res Hsr).
  eexists. split; [done|]. split; [done|].
  unfold take_mask. cbn [shape3 cells3].
  destruct res as [shp rows]. simpl in Hsr. subst shp. f_equal.
  destruct Hres as [Hrl Hrw]. simpl in Hrl, Hrw.
  apply list_eq. intros i. rewrite list_lookup_fmap, lookup_zip_with.
  destruct (cells3 a !! i) as [band|] eqn:Hband; simpl.
  - destruct (rows !! i) as [new|] eqn:Hnew; simpl.
    + pose proof (proj1 (Forall_lookup _ _) Hp _ _ Hband) as Hbw.
      pose proof (proj1 (Forall_lookup _ _) Hrw _ _ Hnew) as Hnl.
      simpl in Hnl. f_equal.
      rewrite concat_unflatten.
      * apply select_scatter.
        -- by rewrite (length_concat_plane R C), (length_concat_plane R C).
        -- by rewrite Hnl, count_true_rank.
      * rewrite scatter_length; [by apply (length_concat_plane R C)|].
        by rewrite (length_concat_plane R C), (length_concat_plane R C).
    + apply lookup_ge_None in Hnew. apply lookup_lt_Some in Hband. lia.
  - symmetry. apply lookup_ge_None. apply lookup_ge_None in Hband. lia.
Qed.


(** X2: when the transform returns a well-formed array of the expected
    shape (output bands x valid pixels), the worker calls the write function
    once, with an array of shape (output bands, rows, columns) whose valid
    pixels, gathered again in row-major order, are exactly what the
    transform returned. *)
Theorem worker_output_holds_result s g ch d B R C (y : arr2) :
  mt_globals s = Some g →
  MT_RFUNC g ch = Ok d → shape3 (as_3d d) = (B, R, C) → wf3 (as_3d d) →
  0 ≤ MT_OUTBANDS g →
  let valid := valid_mask (MT_DROPNODATA g) (as_3d d) in
  let arg := take_mask (as_3d d) valid in
  let Bo := Z.to_nat (MT_OUTBANDS g) in
  MT_PFUNC g arg = Ok y → shape2 y = (Bo, count_true valid) → wf2 y →
  ∃ o, trace (snd (mt_worker ch s))
       = trace s ++ [EvRead ch; EvTransform arg; EvWrite o ch] ∧
       shape3 o = (Bo, R, C) ∧
       take_mask o valid = y.
Proof.
  intros Hg Hd Hs Hw Hb valid arg Bo Hy Hsy Hwy.
  assert (wf_plane R C valid) as Hv by (by eapply valid_mask_wf).
  destruct (take_put_mask
              (Arr3 (Bo, R, C) (replicate Bo (replicate R (replicate C nan))))
              Bo R C valid y eq_refl (full_wf Bo R C nan) Hv Hsy Hwy)
    as (o & Hput & Hso & Htake).
  exists o. split; [|done].
  rewrite (mt_worker_trace s g ch Hg).
  unfold worker_events. rewrite Hd. cbv zeta. rewrite Hs.
  rewrite np_full_ok by done. fold valid. fold arg. fold Bo.
  rewrite Hy. cbn [rbind]. by rewrite Hput.
Qed.

(** X3: when the nodata-drop flag is off, the worker calls the transform
    with all rows x columns pixels of the chunk, in row-major order: column
    [r * C + c] of the argument is the pixel-vector at row [r], column
    [c]. *)
Theorem worker_passes_all_pixels s g ch d B R C :
  mt_globals s = Some g →
  MT_RFUNC g ch = Ok d → shape3 (as_3d d) = (B, R, C) → wf3 (as_3d d) →
  0 ≤ MT_OUTBANDS g →
  MT_DROPNODATA g = false →
  ∃ arg rest,
    trace (snd (mt_worker ch s))
    = trace s ++ EvRead ch :: EvTransform arg :: rest ∧
    shape2 arg = (B, (R * C)%nat) ∧
    ∀ r c, (r < R)%nat → (c < C)%nat →
      column arg (r * C + c) = pixel (as_3d d) r c.
Proof.
  intros Hg Hd Hs Hw Hb Hdrop.
  set (valid := valid_mask (MT_DROPNODATA g) (as_3d d)).
  assert (wf_plane R C valid) as Hv by (by eapply valid_mask_wf).
  assert (valid = np_ones_bool R C) as Hones.
  { subst valid. unfold valid_mask. by rewrite Hs, Hdrop. }
  assert (Forall (fun b => b = true) (concat valid)) as Htrue.
  { rewrite Hones. unfold np_ones_bool. apply Forall_concat.
    apply Forall_replicate, Forall_replicate. done. }
  assert (length (concat valid) = (R * C)%nat) as Hlen
    by (by apply length_concat_plane).
  exists (take_mask (as_3d d) valid).
  rewrite (mt_worker_trace s g ch Hg).
  unfold worker_events. rewrite Hd. cbv zeta. rewrite Hs.
  rewrite np_full_ok by done. fold valid.
  eexists. split; [done|]. split.
  - destruct (take_mask_wf (as_3d d) B R C valid Hs Hw Hv) as [-> _].
    by rewrite count_true_rank, rank_all_true, Hlen by (done || lia).
  - intros r c Hr Hc.
    assert (r * C + c < R * C)%nat as Hk by nia.
    rewrite <- (rank_all_true (concat valid) (r * C + c)) at 1
      by (done || lia).
    apply (take_mask_column (as_3d d) B R C); try done.
    rewrite Hones. by apply plane_at_replicate.
Qed.

Lemma select_all_true {A} (m : list bool) (l : list A) :
  Forall (fun b => b = true) m → length l = length m → select m l = l.
Proof.
  intros Hm. revert l. induction Hm as [|b m -> _ IH]; intros [|x l] Hl;
    simplify_eq/=; [done|]. f_equal. by apply IH.
Qed.

(** X4: when the read function returns a 2-D (rows x columns) array and
    the nodata-drop flag is off, the worker treats the array as one band:
    the transform is called with a (1 x rows * columns) array that holds
    the rows of the array one after the other. *)
Theorem two_dimensional_read_is_one_band s g ch (a : arr2) R C :
  mt_globals s = Some g →
  MT_RFUNC g ch = Ok (Read2 a) → shape2 a = (R, C) → wf2 a →
  0 ≤ MT_OUTBANDS g →
  MT_DROPNODATA g = false →
  ∃ rest,
    trace (snd (mt_worker ch s))
    = trace s ++ EvRead ch
              :: EvTransform (Arr2 (1, R * C)%nat [concat (cells2 a)]) :: rest.
Proof.
  intros Hg Hd Hs Hw Hb Hdrop.
  assert (wf_plane R C (cells2 a)) as Hp.
  { unfold wf2 in Hw. by rewrite Hs in Hw. }
  rewrite (mt_worker_trace s g ch Hg).
  unfold worker_events. rewrite Hd. cbn [as_3d]. unfold reshape_band.
  rewrite Hs. cbn [shape3 fst snd]. rewrite np_full_ok by done.
  unfold valid_mask. cbn [shape3]. rewrite Hdrop.
  eexists. do 2 f_equal. f_equal.
  assert (Forall (fun b => b = true) (concat (np_ones_bool R C))) as Htrue.
  { unfold np_ones_bool. apply Forall_concat.
    apply Forall_replicate, Forall_replicate. done. }
  assert (length (concat (np_ones_bool R C)) = (R * C)%nat) as Hlen.
  { apply length_concat_plane. apply wf_plane_replicate. }
  unfold take_mask. cbn [shape3 cells3 map].
  rewrite count_true_rank, rank_all_true, Hlen by (done || lia).
  rewrite select_all_true; [done|done|].
  by rewrite Hlen, (length_concat_plane R C).
Qed.

(** X5: when the transform raises, or returns an array that cannot be
    broadcast to (output bands x valid pixels), the worker raises
    [TypeError] out of its exception handler: nothing is printed, the
    debugger is not entered, the write function is not called and the
    shared arrays are left as they were. *)
Theorem worker_failure_is_type_error s g ch d B R C :
  mt_globals s = Some g →
  MT_RFUNC g ch = Ok d → shape3 (as_3d d) = (B, R, C) →
  0 ≤ MT_OUTBANDS g →
  let valid := valid_mask (MT_DROPNODATA g) (as_3d d) in
  let arg := take_mask (as_3d d) valid in
  let Bo := Z.to_nat (MT_OUTBANDS g) in
  ((∃ e, MT_PFUNC g arg = Raise e) ∨
   (∃ y yb yn, MT_PFUNC g arg = Ok y ∧ shape2 y = (yb, yn) ∧
               ((yb ≠ Bo ∧ yb ≠ 1%nat) ∨
                (yn ≠ count_true valid ∧ yn ≠ 1%nat)))) →
  mt_worker ch s
  = (Raise TypeError,
     with_trace (trace s ++ [EvRead ch; EvTransform arg]) s).
Proof.
  intros Hg Hd Hs Hb valid arg Bo Hbad.
  rewrite (mt_worker_unfold s g ch Hg).
  assert ((res ←r MT_PFUNC g arg;
           put_mask (Arr3 (Bo, R, C)
                       (replicate Bo (replicate R (replicate C nan))))
                    valid res) = Raise
            match MT_PFUNC g arg with Raise e => e | Ok _ => ValueError end)
    as Hfail.
  { destruct Hbad as [[e He]|(y & yb & yn & Hy & Hsy & Hne)];
      [by rewrite He|].
    rewrite Hy. cbn [rbind]. unfold put_mask, broadcast2. cbn [shape3].
    rewrite Hsy. unfold bdim.
    destruct Hne as [[H1 H2]|[H1 H2]].
    - by rewrite (bool_decide_eq_false_2 (yb = Bo)),
        (bool_decide_eq_false_2 (yb = 1%nat)).
    - rewrite (bool_decide_eq_false_2 (yn = count_true valid)),
        (bool_decide_eq_false_2 (yn = 1%nat)) by done.
      by rewrite andb_false_r. }
  unfold chunk_output, worker_events. rewrite Hd. cbn [rbind]. cbv zeta.
  rewrite Hs. rewrite np_full_ok by done. cbn [rbind].
  fold valid. fold arg. fold Bo. by rewrite Hfail.
Qed.

End MaskedCalls.

(** ** The shared array as a buffer *)

Lemma chunk_rows_overwrite {A} ch (new band : list A) :
  0 ≤ row_offset ch →
  length new = Z.to_nat (row_extent ch) →
  (Z.to_nat (row_offset ch) + length new ≤ length band)%nat →
  chunk_rows ch (overwrite (Z.to_nat (row_offset ch)) new band) = new.
Proof.
  intros Ho Hn Hle. unfold chunk_rows, overwrite.
  rewrite drop_app_length' by (rewrite length_take; lia).
  rewrite <- Hn. by rewrite take_app_length.
Qed.

Section Buffers.
Context `{CellType}.
Implicit Types (s : state) (ch : chunk_desc) (a buf o : arr3).

(** X6: the read function that [process_array] derives from the input
    never raises: for every chunk descriptor it returns a well-formed 3-D
    array with the bands of the input, clipped to the input; for a chunk
    within the input the array has the rows of the chunk, and its cell at
    (b, r, c) is the cell of the input at (b, row offset + r, c). *)
Theorem array_reader_clips (arrin : arr3) B R C ch :
  shape3 arrin = (B, R, C) → wf3 arrin →
  ∃ a, array_reader arrin ch = Ok (Read3 a) ∧ wf3 a ∧
       (∃ r c, shape3 a = (B, r, c) ∧ (r ≤ R)%nat ∧ (c ≤ C)%nat) ∧
       (in_bounds R C ch →
        shape3 a = (B, Z.to_nat (row_extent ch), C) ∧
        ∀ b r c, (r < Z.to_nat (row_extent ch))%nat →
          at3 a b r c = at3 arrin b (Z.to_nat (row_offset ch) + r) c).
Proof.
  intros Hs Hw. eexists. split; [reflexivity|]. split; [by apply slice3_wf|].
  split.
  - unfold slice3, py_slice_bounds. rewrite Hs. cbn [shape3].
    eexists _, _. split; [reflexivity|].
    pose proof (py_clamp_le R (row_offset ch + row_extent ch)).
    pose proof (py_clamp_le R (row_offset ch)).
    pose proof (py_clamp_le C (col_offset ch + col_extent ch)).
    pose proof (py_clamp_le C (col_offset ch)). lia.
  - intros Hin. rewrite (slice3_chunk arrin B R C ch Hs Hw Hin).
    split; [done|]. intros b r c Hr.
    unfold at3. cbn [cells3]. rewrite list_lookup_fmap.
    destruct (cells3 arrin !! b) as [band|]; [|done]. simpl.
    by apply (chunk_rows_at ch band r c).
Qed.

(** X7: the write function that [_setup_arrays] defines, called with an
    output of the shape of a chunk that lies within the shared array,
    succeeds; afterwards reading the same chunk of the shared array gives
    back exactly that output, and the rows outside the chunk are as they
    were. *)
Theorem shared_write_then_read s h buf o ch B R C :
  arrout (self s) = Some h → sa_heap s !! h = Some buf →
  shape3 buf = (B, R, C) → wf3 buf → in_bounds R C ch →
  shape3 o = (B, Z.to_nat (row_extent ch), C) → wf3 o →
  ∃ buf',
    shared_write o ch s = (Ok tt, with_heap (<[h := buf']> (sa_heap s)) s) ∧
    shape3 buf' = (B, R, C) ∧ wf3 buf' ∧
    array_reader buf' ch = Ok (Read3 o) ∧
    ∀ b r c, ¬ covers ch (Z.of_nat r) → at3 buf' b r c = at3 buf b r c.
Proof.
  intros Ha Hh Hs Hw Hin Hso Hwo.
  destruct (wf3_elim _ _ _ _ Hs Hw) as [Hlen Hp].
  destruct (wf3_elim _ _ _ _ Hso Hwo) as [Holen Hop].
  pose proof Hin as (Hc0 & Hc1 & Hoff & Hext & Hend).
  set (cells' := write_rows (Z.to_nat (row_offset ch)) (cells3 o) (cells3 buf)).
  destruct (write_rows_wf B R C (Z.to_nat (row_offset ch))
              (Z.to_nat (row_extent ch)) (cells3 o) (cells3 buf))
    as [Hl' Hp']; try done; [lia|]. fold cells' in Hl', Hp'.
  exists (Arr3 (B, R, C) cells').
  rewrite (shared_write_run s h buf o ch Ha Hh).
  rewrite (assign_region_chunk buf B R C ch o Hs Hw Hin Hwo).
  rewrite (broadcast3_same B _ C o Hso). fold cells'.
  assert (wf3 (Arr3 (B, R, C) cells')) as Hw' by (by apply wf3_intro).
  split; [done|]. split; [done|]. split; [done|]. split.
  - unfold array_reader.
    rewrite (slice3_chunk (Arr3 (B, R, C) cells') B R C ch eq_refl Hw' Hin).
    cbn [cells3]. do 2 f_equal. apply arr3_eq; [by rewrite Hso|].
    cbn [cells3]. subst cells'. unfold write_rows.
    apply list_eq. intros b. rewrite list_lookup_fmap, lookup_zip_with.
    destruct (cells3 buf !! b) as [band|] eqn:Hband; simpl.
    + destruct (cells3 o !! b) as [new|] eqn:Hnew; simpl.
      * pose proof (proj1 (Forall_lookup _ _) Hp _ _ Hband) as [Hbl _].
        pose proof (proj1 (Forall_lookup _ _) Hop _ _ Hnew) as [Hnl _].
        f_equal. apply chunk_rows_overwrite; lia.
      * apply lookup_ge_None in Hnew. apply lookup_lt_Some in Hband. lia.
    + symmetry. apply lookup_ge_None. apply lookup_ge_None in Hband. lia.
  - intros b r c Hr. unfold at3. cbn [cells3]. subst cells'. unfold write_rows.
    rewrite lookup_zip_with.
    destruct (cells3 buf !! b) as [band|] eqn:Hband; [|done]. simpl.
    destruct (cells3 o !! b) as [new|] eqn:Hnew; simpl.
    + pose proof (proj1 (Forall_lookup _ _) Hp _ _ Hband) as [Hbl _].
      pose proof (proj1 (Forall_lookup _ _) Hop _ _ Hnew) as [Hnl _].
      rewrite overwrite_lookup by lia.
      rewrite decide_False; [done|]. unfold covers in Hr. lia.
    + apply lookup_ge_None in Hnew. apply lookup_lt_Some in Hband. lia.
Qed.

End Buffers.

(** ** Shapes of the shared arrays *)

Section Shapes.
Context `{CellType}.
Implicit Types (s : state) (ch : chunk_desc).

Lemma shapes_kept_heap s s' : sa_heap s' = sa_heap s → shapes_kept s s'.
Proof. intros Heq h a Ha. exists a. by rewrite Heq. Qed.

Lemma shapes_kept_refl s : shapes_kept s s.
Proof. by apply shapes_kept_heap. Qed.

Lemma shapes_kept_trans s1 s2 s3 :
  shapes_kept s1 s2 → shapes_kept s2 s3 → shapes_kept s1 s3.
Proof.
  intros H12 H23 h a Ha.
  destruct (H12 h a Ha) as (a2 & Ha2 & Hs2).
  destruct (H23 h a2 Ha2) as (a3 & Ha3 & Hs3).
  exists a3. split; [done|congruence].
Qed.

Lemma keeps_ret {A} (a : A) : keeps_shapes (ret a).
Proof. intros s. apply shapes_kept_refl. Qed.

Lemma keeps_lift {A} (r : result A) : keeps_shapes (lift r).
Proof. intros s. apply shapes_kept_refl. Qed.

Lemma keeps_gets {A} (f : state → A) : keeps_shapes (gets f).
Proof. intros s. apply shapes_kept_refl. Qed.

Lemma keeps_attr {A} (f : MultiTool → option A) : keeps_shapes (attr f).
Proof. intros s. unfold attr. destruct (f (self s)); apply shapes_kept_refl. Qed.

Lemma keeps_modify (f : state → state) :
  (∀ s, shapes_kept s (f s)) → keeps_shapes (modify f).
Proof. intros Hf s. apply Hf. Qed.

Lemma keeps_log e : keeps_shapes (log e).
Proof. apply keeps_modify. intros s. by apply shapes_kept_heap. Qed.

Lemma keeps_assign f : keeps_shapes (assign f).
Proof. apply keeps_modify. intros s. by apply shapes_kept_heap. Qed.

Lemma keeps_bind {A B} (m : M A) (k : A → M B) :
  keeps_shapes m → (∀ a, keeps_shapes (k a)) → keeps_shapes (bind m k).
Proof.
  intros Hm Hk s. unfold bind. specialize (Hm s).
  destruct (m s) as [[a|e] s1]; [|done].
  eapply shapes_kept_trans; [exact Hm|apply Hk].
Qed.

Lemma keeps_try_except {A} (m : M A) (h : exn → M A) :
  keeps_shapes m → (∀ e, keeps_shapes (h e)) → keeps_shapes (try_except m h).
Proof.
  intros Hm Hh s. unfold try_except. specialize (Hm s).
  destruct (m s) as [[a|e] s1]; [done|].
  eapply shapes_kept_trans; [exact Hm|apply Hh].
Qed.

Lemma keeps_for_each {A} (f : A → M unit) (l : list A) :
  (∀ x, keeps_shapes (f x)) → keeps_shapes (for_each f l).
Proof.
  intros Hf. induction l as [|x l IH]; [apply keeps_ret|].
  cbn [for_each]. apply keeps_bind; [apply Hf|done].
Qed.

Lemma keeps_in_children {A} g (m : M A) :
  keeps_shapes m → keeps_shapes (in_children g m).
Proof.
  intros Hm s. unfold in_children.
  specialize (Hm (with_globals (Some g) s)).
  destruct (m _) as [r s1]. exact Hm.
Qed.

Lemma assign_region_shape (a : arr3) r0 r1 c0 c1 src a' :
  assign_region a r0 r1 c0 c1 src = Ok a' → shape3 a' = shape3 a.
Proof.
  unfold assign_region. destruct (shape3 a) as [[b r] c].
  destruct (py_slice_bounds r r0 r1), (py_slice_bounds c c0 c1).
  destruct (broadcast3 _ _); [|done]. by intros [= <-].
Qed.

Lemma fill3_shape (a : arr3) x : shape3 (fill3 a x) = shape3 a.
Proof. unfold fill3. by destruct (shape3 a) as [[b r] c]. Qed.

Lemma keeps_shared_write o ch : keeps_shapes (shared_write o ch).
Proof.
  intros s. unfold shared_write, bind, attr, gets, lift, modify.
  destruct (arrout (self s)) as [h|]; [|apply shapes_kept_refl].
  destruct (sa_heap s !! h) as [buf|] eqn:Hbuf; [|apply shapes_kept_refl].
  destruct (assign_region _ _ _ _ _ _) as [buf'|] eqn:Has;
    [|apply shapes_kept_refl].
  intros h' a Ha. cbn. destruct (decide (h' = h)) as [->|Hne].
  - exists buf'. split.
    + apply list_lookup_insert_eq. by eapply lookup_lt_Some.
    + rewrite (assign_region_shape _ _ _ _ _ _ _ Has). congruence.
  - exists a. by rewrite list_lookup_insert_ne.
Qed.

Lemma keeps_fill_nan h : keeps_shapes (fill_nan h).
Proof.
  unfold fill_nan. apply keeps_bind; [apply keeps_log|]. intros _.
  apply keeps_modify. intros s h' a Ha. cbn.
  destruct (decide (h' = h)) as [->|Hne].
  - exists (fill3 a nan). rewrite list_lookup_alter_eq, Ha.
    split; [done|apply fill3_shape].
  - exists a. by rewrite list_lookup_alter_ne.
Qed.

Lemma keeps_sa_create name shape : keeps_shapes (sa_create name shape).
Proof.
  intros s. unfold sa_create, bind, log, modify, lift, gets, ret.
  destruct (np_full shape zero) as [a|]; [|by apply shapes_kept_heap].
  state_simpl.
  destruct (sa_names s !! name); [by apply shapes_kept_heap|].
  intros h b Hb. exists b. cbn. split; [|done].
  by apply lookup_app_l_Some.
Qed.

Lemma keeps_sa_delete name : keeps_shapes (sa_delete name).
Proof.
  intros s. unfold sa_delete, bind, log, modify, lift, gets.
  state_simpl. destruct (sa_names s !! name); by apply shapes_kept_heap.
Qed.

Lemma keeps_mt_worker ch : keeps_shapes (mt_worker ch).
Proof.
  unfold mt_worker.
  apply keeps_bind; [apply keeps_gets|]. intros og.
  apply keeps_bind; [apply keeps_lift|]. intros g.
  apply keeps_bind; [apply keeps_log|]. intros _.
  apply keeps_bind; [apply keeps_lift|]. intros d.
  destruct (shape3 _) as [[b rows] cols].
  apply keeps_bind; [apply keeps_lift|]. intros output.
  apply keeps_bind.
  - apply keeps_try_except.
    + apply keeps_bind; [apply keeps_log|]. intros _.
      apply keeps_bind; [apply keeps_lift|]. intros res. apply keeps_lift.
    + intros e. apply keeps_bind; [apply keeps_lift|]. intros who.
      apply keeps_bind; [apply keeps_log|]. intros _.
      apply keeps_bind; [apply keeps_log|]. intros _.
      apply keeps_bind; [apply keeps_log|]. intros _. apply keeps_ret.
  - intros output'. unfold call_wfunc.
    apply keeps_bind; [apply keeps_log|]. intros _.
    destruct (MT_WFUNC g) as [[|w]|]; cbn [apply_wfunc];
      [apply keeps_shared_write|apply keeps_lift|apply keeps_lift].
Qed.

Lemma keeps__setup_arrays shape : keeps_shapes (_setup_arrays shape).
Proof.
  unfold _setup_arrays.
  apply keeps_bind; [apply keeps_assign|]. intros _.
  apply keeps_bind; [apply keeps_gets|]. intros [w|]; [apply keeps_ret|].
  apply keeps_bind; [|intros name].
  { intros s. by apply shapes_kept_heap. }
  apply keeps_bind; [apply keeps_assign|]. intros _.
  apply keeps_bind; [apply keeps_attr|]. intros shp.
  apply keeps_bind; [apply keeps_sa_create|]. intros h.
  apply keeps_bind; [apply keeps_assign|]. intros _.
  apply keeps_bind; [apply keeps_fill_nan|]. intros _.
  apply keeps_bind; [apply keeps_lift|]. intros chs.
  apply keeps_bind; [apply keeps_assign|]. intros _. apply keeps_assign.
Qed.

Lemma keeps__cleanup : keeps_shapes _cleanup.
Proof.
  unfold _cleanup.
  apply keeps_bind; [apply keeps_gets|]. intros [w|]; [apply keeps_ret|].
  apply keeps_bind; [apply keeps_attr|]. intros name. apply keeps_sa_delete.
Qed.

Lemma keeps__process_nomulti : keeps_shapes _process_nomulti.
Proof.
  unfold _process_nomulti.
  apply keeps_bind; [apply keeps_gets|]. intros outbands.
  apply keeps_bind; [apply keeps_attr|]. intros rf.
  apply keeps_bind; [apply keeps_gets|]. intros pf.
  apply keeps_bind; [apply keeps_gets|]. intros wf.
  apply keeps_bind; [apply keeps_gets|]. intros drop.
  apply keeps_bind.
  { apply keeps_modify. intros s. by apply shapes_kept_heap. }
  intros _. apply keeps_bind; [apply keeps_attr|]. intros chs.
  apply keeps_bind; [|intros _; apply keeps_attr].
  apply keeps_for_each, keeps_mt_worker.
Qed.

Lemma keeps__process sched : keeps_shapes (_process sched).
Proof.
  unfold _process.
  apply keeps_bind; [apply keeps_gets|]. intros outbands.
  apply keeps_bind; [apply keeps_attr|]. intros rf.
  apply keeps_bind; [apply keeps_gets|]. intros pf.
  apply keeps_bind; [apply keeps_gets|]. intros wf.
  apply keeps_bind; [apply keeps_gets|]. intros drop.
  apply keeps_bind; [apply keeps_gets|]. intros np.
  apply keeps_bind; [case_decide; [apply keeps_lift|apply keeps_ret]|].
  intros _. apply keeps_bind; [apply keeps_attr|]. intros chs.
  apply keeps_bind; [|intros _; apply keeps_attr].
  apply keeps_in_children, keeps_for_each, keeps_mt_worker.
Qed.

Lemma keeps_entry_tail sched :
  keeps_shapes
    (bind (gets (fun s => nproc (self s)))
       (fun np => bind (if decide (np = 1) then _process_nomulti
                        else _process sched)
                    (fun _ => bind _cleanup (fun _ => attr arrout)))).
Proof.
  apply keeps_bind; [apply keeps_gets|]. intros np.
  apply keeps_bind;
    [case_decide; [apply keeps__process_nomulti|apply keeps__process]|].
  intros _. apply keeps_bind; [apply keeps__cleanup|].
  intros _. apply keeps_attr.
Qed.

(** X8: a call of [process_array] or of [read_and_process], whatever its
    outcome and whatever the state of the object, leaves every shared array
    that exists before the call in place with the shape it had; in
    particular the output array of an object keeps the shape of the first
    input, also when a later call is given an input of another shape. *)
Theorem entry_points_keep_shapes sched s h (a : arr3) :
  sa_heap s !! h = Some a →
  (∀ arrin : arr3,
     ∃ a', sa_heap (snd (process_array sched arrin s)) !! h = Some a' ∧
           shape3 a' = shape3 a) ∧
  (∀ shape (rf : rfunc_t),
     ∃ a', sa_heap (snd (read_and_process sched shape rf s)) !! h = Some a' ∧
           shape3 a' = shape3 a).
Proof.
  intros Ha. split.
  - intros arrin. revert h a Ha. change (shapes_kept s (snd (process_array sched arrin s))).
    revert s. change (keeps_shapes (process_array sched arrin)).
    unfold process_array.
    apply keeps_bind; [apply keeps__setup_arrays|]. intros _.
    apply keeps_bind; [apply keeps_assign|]. intros _.
    apply keeps_entry_tail.
  - intros shape rf. revert h a Ha.
    change (shapes_kept s (snd (read_and_process sched shape rf s))).
    revert s. change (keeps_shapes (read_and_process sched shape rf)).
    unfold read_and_process.
    apply keeps_bind; [apply keeps__setup_arrays|]. intros _.
    apply keeps_entry_tail.
Qed.

End Shapes.

(** ** Chunk steps that write the rows of a given array *)

Section Target.
Context `{CellType}.
Variables (g : globals) (F : arr3) (B R C : nat).
Hypothesis HsF : shape3 F = (B, R, C).
Hypothesis HwF : wf3 F.
Hypothesis Hstep : ∀ buf ch,
  shape3 buf = (B, R, C) → wf3 buf → in_bounds R C ch →
  chunk_step g buf ch
  = Ok (Arr3 (B, R, C)
          (write_rows (Z.to_nat (row_offset ch))
             (map (chunk_rows ch) (cells3 F)) (cells3 buf))).

Lemma write_rows_target S cells ch :
  length cells = B → Forall (wf_plane R C) cells → in_bounds R C ch →
  rows_agree S cells (cells3 F) →
  rows_agree (fun r => S r ∨ covers ch (Z.of_nat r))
    (write_rows (Z.to_nat (row_offset ch)) (map (chunk_rows ch) (cells3 F)) cells)
    (cells3 F).
Proof.
  intros Hlen Hp Hch Hagree b band' eband r Hb' Heb Hr.
  destruct (wf3_elim _ _ _ _ HsF HwF) as [HlE HpE].
  pose proof Hch as (_ & _ & Ho & He & Hle).
  unfold write_rows in Hb'.
  apply lookup_zip_with_Some in Hb' as (band & new & -> & Hband & Hnew).
  change (map (chunk_rows ch) (cells3 F)) with (chunk_rows ch <$> cells3 F) in Hnew.
  rewrite list_lookup_fmap, Heb in Hnew. injection Hnew as <-.
  pose proof (proj1 (Forall_lookup _ _) Hp _ _ Hband) as [Hbl _].
  pose proof (proj1 (Forall_lookup _ _) HpE _ _ Heb) as [Hel _].
  assert (length (chunk_rows ch eband) = Z.to_nat (row_extent ch)) as Hnl.
  { unfold chunk_rows. rewrite length_take, length_drop. lia. }
  rewrite overwrite_lookup by lia. rewrite Hnl.
  case_decide as Hin.
  - unfold chunk_rows. rewrite lookup_take_lt by lia. rewrite lookup_drop.
    f_equal. lia.
  - destruct Hr as [Hr|Hr]; [by eapply Hagree|].
    unfold covers in Hr. lia.
Qed.

Lemma fold_target_agree L : ∀ buf S,
  Forall (in_bounds R C) L →
  shape3 buf = (B, R, C) → wf3 buf →
  rows_agree S (cells3 buf) (cells3 F) →
  ∃ buf', rfoldM (chunk_step g) buf L = Ok buf' ∧
          shape3 buf' = (B, R, C) ∧ wf3 buf' ∧
          rows_agree (fun r => S r ∨ ∃ ch, ch ∈ L ∧ covers ch (Z.of_nat r))
                     (cells3 buf') (cells3 F).
Proof.
  induction L as [|ch L IH]; intros buf S HL Hs Hw Hagree.
  - exists buf. repeat split; try done.
    intros b band eband r Hb He [Hr|(ch & Hch & _)]; [by eapply Hagree|].
    by apply elem_of_nil in Hch.
  - apply Forall_cons in HL as [Hch HL'].
    destruct (wf3_elim _ _ _ _ Hs Hw) as [Hlen Hp].
    cbn [rfoldM]. rewrite (Hstep buf ch Hs Hw Hch). cbn [rbind].
    set (cells' := write_rows _ _ _).
    pose proof (write_rows_target S (cells3 buf) ch Hlen Hp Hch Hagree) as Hag'.
    fold cells' in Hag'.
    destruct (wf3_elim _ _ _ _ HsF HwF) as [HlE HpE].
    pose proof Hch as (_ & _ & Ho & He & Hle).
    assert (Forall (wf_plane (Z.to_nat (row_extent ch)) C)
              (map (chunk_rows ch) (cells3 F))) as Hvp.
    { apply Forall_map. eapply Forall_impl; [exact HpE|].
      intros band Hband. by apply (chunk_rows_wf R C). }
    pose proof (write_rows_wf B R C (Z.to_nat (row_offset ch))
                  (Z.to_nat (row_extent ch)) _ (cells3 buf)
                  ltac:(lia) Hlen Hp ltac:(by rewrite length_map) Hvp)
      as [Hl' Hp'].
    fold cells' in Hl', Hp'.
    destruct (IH (Arr3 (B, R, C) cells') _ HL' eq_refl
                 (wf3_intro _ _ _ _ Hl' Hp') Hag')
      as (buf' & Hfold & Hs' & Hw' & Hag'').
    exists buf'. repeat split; try done.
    intros b band eband r Hb Heb Hr. eapply Hag''; eauto.
    destruct Hr as [Hr|(ch' & Hin & Hcov)]; [by left; left|].
    apply elem_of_cons in Hin as [->|Hin]; [by left; right|].
    right. eauto.
Qed.

(** Chunks that cover all the rows turn any array of the shape into
    [F]. *)
Lemma fold_target L buf :
  Forall (in_bounds R C) L →
  (∀ r, (r < R)%nat → ∃ ch, ch ∈ L ∧ covers ch (Z.of_nat r)) →
  shape3 buf = (B, R, C) → wf3 buf →
  rfoldM (chunk_step g) buf L = Ok F.
Proof.
  intros HL Hcov Hs Hw.
  destruct (fold_target_agree L buf (fun _ => False) HL Hs Hw)
    as (buf' & Hfold & Hs' & Hw' & Hag); [by intros ? ? ? ? ? ? []|].
  rewrite Hfold. f_equal.
  destruct (wf3_elim _ _ _ _ HsF HwF) as [HlE HpE].
  destruct (wf3_elim _ _ _ _ Hs' Hw') as [Hl' Hp'].
  apply arr3_eq; [by rewrite Hs', HsF|].
  apply list_eq. intros b.
  destruct (cells3 buf' !! b) as [band|] eqn:Hb;
    destruct (cells3 F !! b) as [eband|] eqn:He.
  - f_equal. apply list_eq. intros r.
    destruct (decide (r < R)%nat) as [Hr|Hr].
    + eapply Hag; eauto.
    + pose proof (proj1 (Forall_lookup _ _) Hp' _ _ Hb) as [Hbl _].
      pose proof (proj1 (Forall_lookup _ _) HpE _ _ He) as [Hel _].
      rewrite !lookup_ge_None_2; [done|lia|lia].
  - apply lookup_lt_Some in Hb. apply lookup_ge_None in He. lia.
  - apply lookup_lt_Some in He. apply lookup_ge_None in Hb. lia.
  - done.
Qed.

End Target.

(** ** Transforms that change the number of bands *)

Section Bands.
Context `{CellType}.
Variables (pf : pfunc_t) (f : list cell → list cell) (drop : bool).
Variables (arrin : arr3) (B Bo R C : nat).
Hypothesis Hshape : shape3 arrin = (B, R, C).
Hypothesis Hwf : wf3 arrin.
Hypothesis Hpf : pixelwise pf f B Bo.

Lemma whole_array_bands :
  ∃ E, whole_array pf (Z.of_nat Bo) drop arrin = Ok E ∧
       shape3 E = (Bo, R, C) ∧ wf3 E ∧
       ∀ b r c, (b < Bo)%nat → (r < R)%nat → (c < C)%nat →
         at3 E b r c = expect f (valid_mask drop arrin) arrin b r c.
Proof.
  unfold whole_array. rewrite Hshape, np_full_ok by lia. cbn [rbind].
  rewrite Nat2Z.id.
  apply (masked_transform_at pf f arrin B Bo R C); try done.
  by eapply valid_mask_wf.
Qed.

Lemma chunk_output_bands g ch E :
  MT_OUTBANDS g = Z.of_nat Bo → MT_RFUNC g = array_reader arrin →
  MT_PFUNC g = pf → MT_DROPNODATA g = drop →
  in_bounds R C ch →
  whole_array pf (Z.of_nat Bo) drop arrin = Ok E →
  chunk_output g ch = Ok (chunk_slice ch E) ∧
  shape3 (chunk_slice ch E) = (Bo, Z.to_nat (row_extent ch), C) ∧
  wf3 (chunk_slice ch E).
Proof.
  intros Hgo Hgr Hgp Hgd Hch HE.
  destruct whole_array_bands as (E' & HE' & HsE & HwE & HatE).
  rewrite HE in HE'. injection HE' as <-.
  destruct (chunk_slice_wf B R C ch arrin Hshape Hwf Hch) as [Hs Hw].
  destruct (chunk_slice_wf Bo R C ch E HsE HwE Hch) as [HsS HwS].
  split; [|done].
  pose proof Hch as (_ & _ & Ho & He & Hle).
  unfold chunk_output. rewrite Hgo, Hgr, Hgp, Hgd.
  unfold array_reader. cbn [rbind as_3d].
  rewrite (slice3_chunk arrin B R C ch Hshape Hwf Hch).
  assert (Arr3 (B, Z.to_nat (row_extent ch), C)
            (map (chunk_rows ch) (cells3 arrin)) = chunk_slice ch arrin) as ->.
  { unfold chunk_slice. by rewrite Hshape. }
  rewrite Hs. rewrite np_full_ok by lia. cbn [rbind]. rewrite Nat2Z.id.
  destruct (masked_transform_at pf f (chunk_slice ch arrin) B Bo
              (Z.to_nat (row_extent ch)) C
              (valid_mask drop (chunk_slice ch arrin)) Hpf Hs Hw)
    as (o & Ho' & Hso & Hwo & Hato).
  { by eapply valid_mask_wf. }
  rewrite Ho'. f_equal.
  apply (arr3_ext o (chunk_slice ch E) Bo (Z.to_nat (row_extent ch)) C);
    try done.
  intros b r c Hb Hr Hc.
  rewrite (Hato b r c Hb Hr Hc), (at3_chunk_slice Bo R C ch E b r c HsE Hr).
  rewrite (HatE b (Z.to_nat (row_offset ch) + r)%nat c Hb ltac:(lia) Hc).
  unfold expect.
  rewrite (valid_mask_chunk_slice drop arrin B R C Hshape Hwf ch r c Hch Hr Hc).
  by rewrite (pixel_chunk_slice arrin B R C Hshape ch r c Hr).
Qed.

End Bands.

Lemma map_stretch_same {A} (n : nat) (l : list (list A)) :
  map (stretch n n) l = l.
Proof.
  induction l as [|x l IH]; [done|]. simpl. by rewrite stretch_same, IH.
Qed.

Section BandSteps.
Context `{CellType}.
Implicit Types (s : state) (g : globals) (ch : chunk_desc) (buf : arr3).

Lemma band_copies_single (B R C : nat) (E : arr3) :
  shape3 E = (1%nat, R, C) → wf3 E →
  ∃ band, cells3 E = [band] ∧ wf_plane R C band ∧
          band_copies B E = Arr3 (B, R, C) (replicate B band).
Proof.
  intros Hs Hw. destruct (wf3_elim _ _ _ _ Hs Hw) as [Hlen Hp].
  unfold band_copies. rewrite Hs.
  destruct (cells3 E) as [|band [|? ?]]; try done.
  exists band. split; [done|]. split; [|done]. by inversion Hp.
Qed.

Lemma band_copies_wf (B R C : nat) (E : arr3) :
  shape3 E = (1%nat, R, C) → wf3 E →
  shape3 (band_copies B E) = (B, R, C) ∧ wf3 (band_copies B E) ∧
  ∀ b r c, (b < B)%nat → at3 (band_copies B E) b r c = at3 E 0 r c.
Proof.
  intros Hs Hw.
  destruct (band_copies_single B R C E Hs Hw) as (band & Hc & Hb & ->).
  split; [done|]. split.
  - apply wf3_intro; [by rewrite length_replicate|by apply Forall_replicate].
  - intros b r c Hlt. unfold at3. cbn [cells3].
    rewrite lookup_replicate_2 by done. by rewrite Hc.
Qed.

(** A single-band output is written into all the bands. *)
Lemma chunk_step_single pf f drop (arrin : arr3) B R C g E buf ch :
  shape3 arrin = (B, R, C) → wf3 arrin → pixelwise pf f B 1 →
  MT_OUTBANDS g = 1 → MT_RFUNC g = array_reader arrin →
  MT_PFUNC g = pf → MT_DROPNODATA g = drop →
  whole_array pf 1 drop arrin = Ok E →
  shape3 buf = (B, R, C) → wf3 buf → in_bounds R C ch →
  chunk_step g buf ch
  = Ok (Arr3 (B, R, C)
          (write_rows (Z.to_nat (row_offset ch))
             (map (chunk_rows ch) (cells3 (band_copies B E))) (cells3 buf))).
Proof.
  intros Hshape Hwf Hpf Hgo Hgr Hgp Hgd HE Hs Hw Hch.
  destruct (whole_array_bands pf f drop arrin B 1 R C Hshape Hwf Hpf)
    as (E' & HE' & HsE & HwE & _).
  change (Z.of_nat 1) with 1 in HE'. rewrite HE in HE'. injection HE' as <-.
  destruct (chunk_output_bands pf f drop arrin B 1 R C Hshape Hwf Hpf g ch E
              Hgo Hgr Hgp Hgd Hch HE) as (Hout & HsS & HwS).
  destruct (band_copies_single B R C E HsE HwE) as (band & Hc & Hb & ->).
  unfold chunk_step. rewrite Hout. cbn [rbind].
  rewrite (assign_region_chunk buf B R C ch _ Hs Hw Hch HwS).
  unfold broadcast3. rewrite HsS. unfold bdim at 1.
  rewrite (bool_decide_eq_true_2 (1%nat = 1%nat)) by done.
  rewrite orb_true_r, !bdim_same. cbn [andb cells3].
  unfold chunk_slice. rewrite HsE, Hc. cbn [cells3 map].
  rewrite stretch_same, map_stretch_same.
  do 3 f_equal. unfold stretch. case_decide as HB.
  - by rewrite <- HB.
  - change (map (chunk_rows ch) (replicate B band))
      with (chunk_rows ch <$> replicate B band).
    by rewrite fmap_replicate.
Qed.

(** An output whose number of bands is neither that of the shared array
    nor 1 cannot be written. *)
Lemma chunk_step_mismatch pf f drop (arrin : arr3) B Bo R C g E buf ch :
  shape3 arrin = (B, R, C) → wf3 arrin → pixelwise pf f B Bo →
  MT_OUTBANDS g = Z.of_nat Bo → MT_RFUNC g = array_reader arrin →
  MT_PFUNC g = pf → MT_DROPNODATA g = drop →
  whole_array pf (Z.of_nat Bo) drop arrin = Ok E →
  Bo ≠ B → Bo ≠ 1%nat →
  shape3 buf = (B, R, C) → wf3 buf → in_bounds R C ch →
  chunk_step g buf ch = Raise ValueError.
Proof.
  intros Hshape Hwf Hpf Hgo Hgr Hgp Hgd HE HB H1 Hs Hw Hch.
  destruct (chunk_output_bands pf f drop arrin B Bo R C Hshape Hwf Hpf g ch E
              Hgo Hgr Hgp Hgd Hch HE) as (Hout & HsS & HwS).
  unfold chunk_step. rewrite Hout. cbn [rbind].
  rewrite (assign_region_chunk buf B R C ch _ Hs Hw Hch HwS).
  unfold broadcast3. rewrite HsS. unfold bdim at 1.
  rewrite !bool_decide_eq_false_2 by done. done.
Qed.

End BandSteps.

(** ** Band counts and repeated calls *)

Section BandRuns.
Context `{CellType}.
Implicit Types (s : state) (arrin : arr3).

(** X9: with [nbandsout = 1] and a pixel-wise transform that returns one
    band, a call of [process_array] on a new object returns an array of the
    shape of the input, all bands included, in which every band is the
    single band of the transform of the whole array. *)
Theorem single_band_output_is_copied sched s arrin B R C f whole :
  wfunc (self s) = None →
  sa_names s !! uuid_source s (uuid_drawn s) = None →
  1 ≤ nproc (self s) →
  shape3 arrin = (B, R, C) → wf3 arrin →
  nbandsout (self s) = 1 →
  pixelwise (pfunc (self s)) f B 1 →
  whole_array (pfunc (self s)) 1 (dropnodata (self s)) arrin = Ok whole →
  returns_array sched arrin s (band_copies B whole) ∧
  shape3 (band_copies B whole) = (B, R, C) ∧
  ∀ b r c, (b < B)%nat → at3 (band_copies B whole) b r c = at3 whole 0 r c.
Proof.
  intros Hw Hfree Hnp Hs Hwf Hnb Hpf Hwhole.
  destruct (whole_array_bands (pfunc (self s)) f (dropnodata (self s)) arrin
              B 1 R C Hs Hwf Hpf) as (E' & HE' & HsE & HwE & _).
  change (Z.of_nat 1) with 1 in HE'. rewrite Hwhole in HE'.
  injection HE' as <-.
  destruct (band_copies_wf B R C whole HsE HwE) as (HsF & HwF & Hat).
  split; [|done].
  apply (process_array_returns sched s arrin _ B R C Hw Hfree Hnp Hs).
  destruct (nan_array_wf B R C) as [Hsn Hwn].
  apply (fold_target (run_globals (self s) arrin) (band_copies B whole) B R C
           HsF HwF); try done.
  - intros buf ch Hsb Hwb Hch.
    by apply (chunk_step_single (pfunc (self s)) f (dropnodata (self s)) arrin).
  - apply run_order_in_bounds.
  - intros r Hr. by apply run_order_covers.
Qed.

(** X10: with a pixel-wise transform that returns [nbandsout] bands, where
    [nbandsout] is neither 1 nor the number of bands of the input, a call of
    [process_array] on a new object raises [ValueError]: the shared array
    has the bands of the input, and the output of the first chunk cannot be
    written into it. *)
Theorem band_mismatch_raises sched s arrin B Bo R C f :
  wfunc (self s) = None →
  sa_names s !! uuid_source s (uuid_drawn s) = None →
  1 ≤ nproc (self s) →
  shape3 arrin = (B, R, C) → wf3 arrin →
  nbandsout (self s) = Z.of_nat Bo →
  pixelwise (pfunc (self s)) f B Bo →
  Bo ≠ B → Bo ≠ 1%nat →
  fst (process_array sched arrin s) = Raise ValueError.
Proof.
  intros Hw Hfree Hnp Hs Hwf Hnb Hpf HB H1.
  destruct (whole_array_bands (pfunc (self s)) f (dropnodata (self s)) arrin
              B Bo R C Hs Hwf Hpf) as (E & HE & HsE & HwE & _).
  pose proof (process_array_fresh sched s arrin Hw Hfree Hnp) as Hrun.
  cbv zeta in Hrun. rewrite (shapeZ_eq arrin B R C Hs) in Hrun.
  cbn [fst snd] in Hrun.
  change (globals_of _ (array_reader arrin))
    with (run_globals (self s) arrin) in Hrun.
  fold (run_order sched (self s)
          (chunk_list (Z.of_nat R) (Z.of_nat C) chunk_default_nchunks)) in Hrun.
  pose proof (run_order_in_bounds sched (self s) R C) as Hin.
  pose proof (Permutation_length
                (run_order_perm sched (self s)
                   (chunk_list (Z.of_nat R) (Z.of_nat C) chunk_default_nchunks)))
    as Hlen.
  rewrite chunk_list_length in Hlen.
  destruct (run_order _ _ _) as [|ch rest]; [done|].
  apply Forall_cons in Hin as [Hch _].
  destruct (nan_array_wf B R C) as [Hsn Hwn].
  cbn [rfoldM] in Hrun.
  rewrite (chunk_step_mismatch (pfunc (self s)) f (dropnodata (self s)) arrin
             B Bo R C (run_globals (self s) arrin) E _ ch) in Hrun by done.
  exact Hrun.
Qed.

(** On an object whose shared array was set up for the shape of [arrin],
    a call with a pixel-wise transform returns the same reference and
    overwrites the shared array with the transform of [arrin]. *)
Lemma process_array_on_used sched s arrin h buf B R C f whole :
  wfunc (self s) = Some SharedWrite →
  chunks (self s)
  = Some (chunk_list (Z.of_nat R) (Z.of_nat C) chunk_default_nchunks) →
  arrout (self s) = Some h → sa_heap s !! h = Some buf →
  shape3 buf = (B, R, C) → wf3 buf →
  1 ≤ nproc (self s) →
  shape3 arrin = (B, R, C) → wf3 arrin →
  nbandsout (self s) = Z.of_nat B →
  pixelwise (pfunc (self s)) f B B →
  whole_array (pfunc (self s)) (Z.of_nat B) (dropnodata (self s)) arrin
    = Ok whole →
  ∃ s', process_array sched arrin s = (Ok h, s') ∧
        sa_heap s' = <[h := whole]> (sa_heap s).
Proof.
  intros Hw Hchs Hh Hbuf Hsb Hwb Hnp Hs Hwf Hnb Hpf Hwhole.
  rewrite (process_array_again sched s SharedWrite arrin Hw). cbv zeta.
  set (s1 := with_self _ (with_self _ s)).
  set (g := globals_of (self s1) (array_reader arrin)).
  destruct (whole_array_at (pfunc (self s)) f (dropnodata (self s)) arrin
              B R C Hs Hwf Hpf) as (E' & HE' & HsE & HwE & _).
  rewrite Hwhole in HE'. injection HE' as <-.
  assert (∀ L, Forall (in_bounds R C) L →
               (∀ r, (r < R)%nat → ∃ ch, ch ∈ L ∧ covers ch (Z.of_nat r)) →
               rfoldM (chunk_step g) buf L = Ok whole) as Hfold.
  { intros L HL Hcov.
    apply (fold_target g whole B R C HsE HwE); try done.
    intros buf0 ch Hs0 Hw0 Hch.
    by apply (chunk_step_slice (pfunc (self s)) f (dropnodata (self s)) arrin
                B R C Hs Hwf Hpf g whole). }
  change (nproc (self s1)) with (nproc (self s)).
  case_decide as Hone.
  - pose proof (_process_nomulti_shared s1 (array_reader arrin) _ h buf
                  eq_refl Hchs Hw Hh Hbuf) as Hp.
    cbv zeta in Hp. fold g in Hp. rewrite Hfold in Hp.
    + rewrite (bind_ok _ _ _ _ _ Hp).
      erewrite bind_ok by (apply (_cleanup_noop _ SharedWrite); exact Hw).
      unfold attr. cbn [self]. change (arrout (self s1)) with (arrout (self s)).
      rewrite Hh. eexists. split; [reflexivity|]. done.
    + by apply chunk_list_in_bounds.
    + intros r Hr.
      apply (chunk_list_covers (Z.of_nat R) (Z.of_nat C) chunk_default_nchunks
               (Z.of_nat r)); [lia|done].
  - pose proof (_process_shared sched s1 (array_reader arrin) _ h buf
                  eq_refl Hchs Hw Hh Hbuf Hnp) as Hp.
    cbv zeta in Hp. fold g in Hp. rewrite Hfold in Hp.
    + rewrite (bind_ok _ _ _ _ _ Hp).
      erewrite bind_ok by (apply (_cleanup_noop _ SharedWrite); exact Hw).
      unfold attr. cbn [self]. change (arrout (self s1)) with (arrout (self s)).
      rewrite Hh. eexists. split; [reflexivity|]. done.
    + rewrite pool_order_perm. by apply chunk_list_in_bounds.
    + intros r Hr.
      destruct (chunk_list_covers (Z.of_nat R) (Z.of_nat C)
                  chunk_default_nchunks (Z.of_nat r)) as (ch & Hin & Hcov);
        [lia|done|].
      exists ch. split; [|done]. by rewrite pool_order_perm.
Qed.

(** X11: two calls of [process_array] on the same object, with inputs of
    the same shape and a pixel-wise transform, return the same reference to
    the same shared array; no further array is allocated, and after the
    second call the array holds the transform of the second input, so that
    the result of the first call is overwritten in the hands of its
    caller. *)
Theorem successive_calls_share_output sched s (arr1 arr2 : arr3) B R C f
    whole1 whole2 :
  wfunc (self s) = None →
  sa_names s !! uuid_source s (uuid_drawn s) = None →
  1 ≤ nproc (self s) →
  shape3 arr1 = (B, R, C) → wf3 arr1 →
  shape3 arr2 = (B, R, C) → wf3 arr2 →
  nbandsout (self s) = Z.of_nat B →
  pixelwise (pfunc (self s)) f B B →
  whole_array (pfunc (self s)) (Z.of_nat B) (dropnodata (self s)) arr1
    = Ok whole1 →
  whole_array (pfunc (self s)) (Z.of_nat B) (dropnodata (self s)) arr2
    = Ok whole2 →
  ∃ h s1 s2,
    process_array sched arr1 s = (Ok h, s1) ∧
    sa_heap s1 !! h = Some whole1 ∧
    process_array sched arr2 s1 = (Ok h, s2) ∧
    sa_heap s2 !! h = Some whole2 ∧
    length (sa_heap s2) = length (sa_heap s1).
Proof.
  intros Hw Hfree Hnp Hs1 Hwf1 Hs2 Hwf2 Hnb Hpf Hwhole1 Hwhole2.
  destruct (whole_array_at (pfunc (self s)) f (dropnodata (self s)) arr1
              B R C Hs1 Hwf1 Hpf) as (E' & HE' & HsE & HwE & _).
  rewrite Hwhole1 in HE'. injection HE' as <-.
  pose proof (process_array_fresh sched s arr1 Hw Hfree Hnp) as Hrun.
  cbv zeta in Hrun. rewrite (shapeZ_eq arr1 B R C Hs1) in Hrun.
  cbn [fst snd] in Hrun.
  change (globals_of _ (array_reader arr1))
    with (run_globals (self s) arr1) in Hrun.
  fold (run_order sched (self s)
          (chunk_list (Z.of_nat R) (Z.of_nat C) chunk_default_nchunks)) in Hrun.
  rewrite (fold_whole (pfunc (self s)) f (dropnodata (self s)) arr1 B R C
             Hs1 Hwf1 Hpf (run_globals (self s) arr1) whole1) in Hrun;
    try done; [|apply run_order_in_bounds|by intros r Hr; apply run_order_covers].
  set (s1 := State _ _ _ _ _ _ _) in Hrun.
  assert (sa_heap s1 !! length (sa_heap s) = Some whole1) as Hh1.
  { cbn [s1 sa_heap]. by rewrite lookup_app_r, Nat.sub_diag. }
  destruct (process_array_on_used sched s1 arr2 (length (sa_heap s)) whole1
              B R C f whole2) as (s2 & Hcall2 & Hheap2); try done.
  exists (length (sa_heap s)), s1, s2. split_and!; try done.
  - rewrite Hheap2. apply list_lookup_insert_eq. by eapply lookup_lt_Some.
  - by rewrite Hheap2, length_insert.
Qed.

End BandRuns.

(** ** Calls that cannot work *)

Section Misuse.
Context `{CellType}.
Implicit Types (s : state) (arrin : arr3).

(** X12: a call of [process_array] on a new object with [nproc] below 1
    raises [ValueError] when the pool is made, before any chunk is read; the
    shared array has been allocated and filled with NaN by then, and it
    stays registered under its name. *)
Theorem pool_needs_a_process sched s arrin :
  wfunc (self s) = None →
  sa_names s !! uuid_source s (uuid_drawn s) = None →
  nproc (self s) < 1 →
  let r := process_array sched arrin s in
  let name := uuid_source s (uuid_drawn s) in
  let h := length (sa_heap s) in
  fst r = Raise ValueError ∧
  trace (snd r) = trace s ++ [EvCreate name (shapeZ arrin); EvFill h] ∧
  sa_names (snd r) !! name = Some h ∧
  sa_heap (snd r) = sa_heap s ++ [nan_array (shapeZ arrin)] ∧
  wfunc (self (snd r)) = Some SharedWrite.
Proof.
  intros Hw Hfree Hnp. cbv zeta.
  rewrite (process_array_unfold sched s arrin Hw Hfree). cbv zeta.
  rewrite decide_False by lia.
  set (s1 := State _ _ _ _ _ _ _).
  assert (_process sched s1 = (Raise ValueError, s1)) as Hp.
  { unfold _process, bind, gets, attr. cbn [self s1 rfunc set_rfunc].
    rewrite decide_True by (cbn; lia). done. }
  rewrite (bind_raise _ _ _ _ _ Hp). cbn [fst snd s1 trace sa_names sa_heap self].
  split_and!; try done. apply lookup_insert_eq.
Qed.

(** X13: on an object that [process_array] was called on with [arrin], a
    call of [read_and_process] with the shape of [arrin] does exactly what a
    further call of [process_array] with [arrin] does, whatever read
    function it is given: the chunks are read from [arrin] again. *)
Theorem read_and_process_rereads sched s w arrin (rf : rfunc_t) :
  wfunc (self s) = Some w →
  rfunc (self s) = Some (array_reader arrin) →
  read_and_process sched (shapeZ arrin) rf s = process_array sched arrin s.
Proof.
  intros Hw Hr.
  rewrite (process_array_again sched s w arrin Hw).
  rewrite (read_and_process_again sched s w (shapeZ arrin) rf Hw).
  cbv zeta.
  assert (with_self (set_rfunc (Some (array_reader arrin)))
            (with_self (set_inshape (Some (shapeZ arrin))) s)
          = with_self (set_inshape (Some (shapeZ arrin))) s) as ->; [|done].
  destruct s as [o gl us ud nm hp tr]. destruct o. simpl in Hr.
  unfold with_self, set_rfunc, set_inshape. simpl. by rewrite Hr.
Qed.

End Misuse.

(** ** The order of the events *)

Section Traces.
Context `{CellType}.
Implicit Types (s : state) (g : globals) (ch : chunk_desc) (evs : list event).

Lemma reads_app evs1 evs2 : reads (evs1 ++ evs2) = reads evs1 ++ reads evs2.
Proof. apply omap_app. Qed.

Lemma writes_app evs1 evs2 : writes (evs1 ++ evs2) = writes evs1 ++ writes evs2.
Proof. apply omap_app. Qed.

Lemma worker_events_reads g ch : reads (worker_events g ch) = [ch].
Proof.
  unfold worker_events, reads. cbn [omap]. f_equal.
  destruct (MT_RFUNC g ch) as [d|]; [|done].
  destruct (shape3 (as_3d d)) as [[b rows] cols].
  destruct (np_full _ _); [|done]. cbn.
  by destruct (_ ←r _; _).
Qed.

Lemma worker_events_writes g ch :
  writes (worker_events g ch)
  = match chunk_output g ch with Ok _ => [ch] | Raise _ => [] end.
Proof.
  unfold worker_events, chunk_output, writes. cbn [omap].
  destruct (MT_RFUNC g ch) as [d|]; [|done]. cbn [rbind].
  destruct (shape3 (as_3d d)) as [[b rows] cols].
  destruct (np_full _ _); [|done]. cbn.
  by destruct (_ ←r _; _).
Qed.

Lemma mt_worker_ok s g ch s' :
  mt_globals s = Some g → mt_worker ch s = (Ok tt, s') →
  ∃ o, chunk_output g ch = Ok o.
Proof.
  intros Hg. rewrite (mt_worker_unfold s g ch Hg).
  destruct (chunk_output g ch) as [o|e]; [eauto|done].
Qed.

Lemma apply_wfunc_globals w o ch s :
  mt_globals (snd (apply_wfunc w o ch s)) = mt_globals s.
Proof.
  destruct w as [[|f]|]; cbn [apply_wfunc]; try done.
  unfold shared_write, bind, attr, gets, lift, modify.
  destruct (arrout (self s)) as [h|]; [|done].
  destruct (sa_heap s !! h) as [buf|]; [|done].
  by destruct (assign_region _ _ _ _ _ _).
Qed.

Lemma mt_worker_globals s g ch :
  mt_globals s = Some g → mt_globals (snd (mt_worker ch s)) = Some g.
Proof.
  intros Hg. rewrite (mt_worker_unfold s g ch Hg).
  destruct (chunk_output g ch); [|done].
  by rewrite apply_wfunc_globals.
Qed.

(** The loop over the chunks takes them in order and stops at the first
    one whose worker raises. *)
Lemma for_each_trace g l : ∀ s,
  mt_globals s = Some g →
  ∃ evs,
    trace (snd (for_each mt_worker l s)) = trace s ++ evs ∧
    reads evs `prefix_of` l ∧
    writes evs `prefix_of` reads evs ∧
    (length (reads evs) ≤ S (length (writes evs)))%nat ∧
    (fst (for_each mt_worker l s) = Ok tt → reads evs = l ∧ writes evs = l) ∧
    (∀ ch l', l = ch :: l' → ∃ rest, evs = worker_events g ch ++ rest).
Proof.
  induction l as [|ch l IH]; intros s Hg.
  - exists []. cbn. rewrite app_nil_r. split_and!; try done. lia.
  - cbn [for_each]. unfold bind.
    pose proof (mt_worker_trace s g ch Hg) as Htr.
    pose proof (mt_worker_globals s g ch Hg) as Hg1.
    pose proof (mt_worker_ok s g ch) as Hok.
    destruct (mt_worker ch s) as [[[]|e] s1]; cbn [fst snd] in *.
    + destruct (Hok s1 Hg eq_refl) as [o Ho].
      destruct (IH s1 Hg1) as (evs & Hevs & Hr & Hw & Hlen & Hall & _).
      exists (worker_events g ch ++ evs).
      rewrite reads_app, writes_app, worker_events_reads, worker_events_writes, Ho.
      cbn [app length]. split_and!.
      * by rewrite Hevs, Htr, app_assoc.
      * by apply prefix_cons.
      * by apply prefix_cons.
      * lia.
      * intros Hfst. destruct (Hall Hfst) as [-> ->]. done.
      * intros ch' l' [= <- <-]. eauto.
    + exists (worker_events g ch).
      rewrite worker_events_reads, worker_events_writes.
      split_and!; try done.
      * apply prefix_cons, prefix_nil.
      * destruct (chunk_output g ch); [done|apply prefix_nil].
      * destruct (chunk_output g ch); cbn; lia.
      * intros ch' l' [= <- <-]. exists []. by rewrite app_nil_r.
Qed.

Lemma for_each_globals g l : ∀ s,
  mt_globals s = Some g →
  mt_globals (snd (for_each mt_worker l s)) = Some g.
Proof.
  induction l as [|ch l IH]; intros s Hg; [done|].
  cbn [for_each]. unfold bind.
  pose proof (mt_worker_globals s g ch Hg) as Hg1.
  destruct (mt_worker ch s) as [[[]|e] s1]; cbn [snd] in *; [by apply IH|done].
Qed.

(** A loop that raises has run its body on the items before the one that
    raised, and on none after it. *)
Lemma for_each_raise_split {A} (f : A → M unit) (l : list A) s e s' :
  for_each f l s = (Raise e, s') →
  ∃ l1 x l2 s_mid,
    l = l1 ++ x :: l2 ∧ for_each f l1 s = (Ok tt, s_mid) ∧
    f x s_mid = (Raise e, s').
Proof.
  revert s. induction l as [|x l IH]; intros s Hl; [done|].
  cbn [for_each] in Hl. unfold bind in Hl.
  destruct (f x s) as [[[]|e1] s1] eqn:Hx.
  - destruct (IH s1 Hl) as (l1 & y & l2 & s_mid & -> & Hpre & Hy).
    exists (x :: l1), y, l2, s_mid. split_and!; try done.
    cbn [for_each]. unfold bind. by rewrite Hx.
  - injection Hl as <- <-. exists [], x, l, s. by split_and!.
Qed.

(** A call without a pool on a new object is the loop over the chunk
    list in the state that [_setup_arrays] leaves. *)
Lemma process_array_sequential_run sched s (arrin : arr3) :
  wfunc (self s) = None →
  sa_names s !! uuid_source s (uuid_drawn s) = None →
  nproc (self s) = 1 →
  let shape := shapeZ arrin in
  let name := uuid_source s (uuid_drawn s) in
  let h := length (sa_heap s) in
  let chs := chunk_list shape.1.2 shape.2 chunk_default_nchunks in
  let o1 := set_rfunc (Some (array_reader arrin))
              (after_setup (self s) shape name h chs) in
  let s1 := State o1 (Some (run_globals (self s) arrin)) (uuid_source s)
              (S (uuid_drawn s)) (<[name := h]> (sa_names s))
              (sa_heap s ++ [nan_array shape])
              (trace s ++ [EvCreate name shape; EvFill h]) in
  process_array sched arrin s =
  (match fst (for_each mt_worker chs s1) with
   | Ok _ => Ok h
   | Raise e => Raise e
   end, snd (for_each mt_worker chs s1)).
Proof.
  intros Hw Hfree Hnp. cbv zeta.
  rewrite (process_array_unfold sched s arrin Hw Hfree). cbv zeta.
  rewrite decide_True by done.
  set (chs := chunk_list _ _ _).
  set (s0 := State _ (mt_globals s) _ _ _ _ _).
  unfold bind at 1.
  rewrite (_process_nomulti_unfold s0 (array_reader arrin) chs eq_refl eq_refl).
  change (with_globals _ s0)
    with (State (self s0) (Some (run_globals (self s) arrin)) (uuid_source s)
            (S (uuid_drawn s))
            (<[uuid_source s (uuid_drawn s) := length (sa_heap s)]> (sa_names s))
            (sa_heap s ++ [nan_array (shapeZ arrin)])
            (trace s ++ [EvCreate (uuid_source s (uuid_drawn s)) (shapeZ arrin);
                         EvFill (length (sa_heap s))])).
  set (s1 := State _ (Some _) _ _ _ _ _).
  pose proof (for_each_mt_worker_frame s1 chs) as (Hself & _).
  unfold bind at 1.
  destruct (for_each mt_worker chs s1) as [[[]|e] s2]; cbn [fst snd] in *;
    [|done].
  unfold attr at 1. rewrite Hself. cbn [self s1 s0 arrout set_rfunc after_setup
    set_wfunc set_chunks set_arrout].
  erewrite bind_ok by (apply (_cleanup_noop s2 SharedWrite); by rewrite Hself).
  unfold attr. by rewrite Hself.
Qed.

(** Its events after the allocation are those of the loop. *)
Lemma process_array_sequential sched s (arrin : arr3) :
  wfunc (self s) = None →
  sa_names s !! uuid_source s (uuid_drawn s) = None →
  nproc (self s) = 1 →
  let shape := shapeZ arrin in
  let name := uuid_source s (uuid_drawn s) in
  let h := length (sa_heap s) in
  let chs := chunk_list shape.1.2 shape.2 chunk_default_nchunks in
  let g := run_globals (self s) arrin in
  ∃ evs,
    trace (snd (process_array sched arrin s))
    = trace s ++ [EvCreate name shape; EvFill h] ++ evs ∧
    reads evs `prefix_of` chs ∧
    writes evs `prefix_of` reads evs ∧
    (length (reads evs) ≤ S (length (writes evs)))%nat ∧
    (∀ h', fst (process_array sched arrin s) = Ok h' →
           reads evs = chs ∧ writes evs = chs) ∧
    (∀ ch l', chs = ch :: l' → ∃ rest, evs = worker_events g ch ++ rest).
Proof.
  intros Hw Hfree Hnp. cbv zeta.
  rewrite (process_array_sequential_run sched s arrin Hw Hfree Hnp). cbv zeta.
  set (chs := chunk_list _ _ _). set (s1 := State _ _ _ _ _ _ _).
  destruct (for_each_trace (run_globals (self s) arrin) chs s1 eq_refl)
    as (evs & Htr & Hr & Hwr & Hlen & Hall & Hfirst).
  exists evs. cbn [fst snd]. rewrite Htr. cbn [trace s1].
  rewrite <- app_assoc. split_and!; try done.
  intros h' Hfst. apply Hall.
  by destruct (fst (for_each mt_worker chs s1)) as [[]|].
Qed.

End Traces.

Lemma chunk_list_head (R C : Z) :
  0 ≤ R < chunk_default_nchunks →
  ∃ l', chunk_list R C chunk_default_nchunks = Chunk 0 0 C 0 :: l'.
Proof.
  unfold chunk_default_nchunks. intros HR.
  destruct (chunk_list R C 100) as [|ch l'] eqn:Hl.
  - pose proof (chunk_list_length R C 100) as Hlen. rewrite Hl in Hlen. done.
  - exists l'. f_equal.
    destruct (chunk_list_lookup R C 100 0 ch ltac:(lia)) as (e & He & ->);
      [by rewrite Hl|].
    rewrite chunk_sizes_lookup in He by lia.
    rewrite Z.div_small in He by lia.
    rewrite decide_True in He by lia. injection He as <-.
    by rewrite take_0, py_sum_nil.
Qed.

Lemma map_const_replicate {A B} (y : B) (l : list A) :
  map (fun _ => y) l = replicate (length l) y.
Proof. induction l as [|x l IH]; [done|]. simpl. by rewrite IH. Qed.

Section Orders.
Context `{CellType}.
Implicit Types (s : state) (g : globals) (ch : chunk_desc) (arrin : arr3).

Lemma reads_flat_map g l : reads (flat_map (worker_events g) l) = l.
Proof.
  induction l as [|ch l IH]; [done|]. cbn [flat_map].
  by rewrite reads_app, worker_events_reads, IH.
Qed.

Lemma writes_flat_map g l :
  Forall (fun ch => ∃ o, chunk_output g ch = Ok o) l →
  writes (flat_map (worker_events g) l) = l.
Proof.
  induction 1 as [|ch l [o Ho] _ IH]; [done|]. cbn [flat_map].
  by rewrite writes_app, worker_events_writes, Ho, IH.
Qed.

Lemma rfoldM_chunk_step_ok g l : ∀ buf buf',
  rfoldM (chunk_step g) buf l = Ok buf' →
  Forall (fun ch => ∃ o, chunk_output g ch = Ok o) l.
Proof.
  induction l as [|ch l IH]; intros buf buf' Hfold; [done|].
  cbn [rfoldM] in Hfold.
  destruct (chunk_step g buf ch) as [buf1|] eqn:Hstep; [|done].
  cbn [rbind] in Hfold. constructor; [|by eapply IH].
  unfold chunk_step in Hstep. destruct (chunk_output g ch); [eauto|done].
Qed.

(** X14: in a successful call of [process_array] on a new object, with or
    without a pool, every chunk of the chunk list is read exactly once and
    handed to the write function exactly once; without a pool the reads and
    the writes are in the order of the chunk list. *)
Theorem each_chunk_handled_once sched s arrin B R C h s' :
  wfunc (self s) = None →
  sa_names s !! uuid_source s (uuid_drawn s) = None →
  1 ≤ nproc (self s) →
  shape3 arrin = (B, R, C) →
  process_array sched arrin s = (Ok h, s') →
  let chs := chunk_list (Z.of_nat R) (Z.of_nat C) chunk_default_nchunks in
  ∃ evs,
    trace s' = trace s
               ++ [EvCreate (uuid_source s (uuid_drawn s)) (shapeZ arrin);
                   EvFill h] ++ evs ∧
    reads evs ≡ₚ chs ∧
    writes evs ≡ₚ chs ∧
    (nproc (self s) = 1 → reads evs = chs ∧ writes evs = chs).
Proof.
  intros Hw Hfree Hnp Hs Hcall chs.
  pose proof (process_array_fresh sched s arrin Hw Hfree Hnp) as Hrun.
  cbv zeta in Hrun. rewrite (shapeZ_eq arrin B R C Hs) in Hrun.
  cbn [fst snd] in Hrun. fold chs in Hrun.
  set (g := globals_of _ _) in Hrun.
  set (order := if decide (nproc (self s) = 1) then chs
                else pool_order sched chs) in Hrun.
  destruct (rfoldM (chunk_step g) _ order) as [buf'|e] eqn:Hfold;
    [|by rewrite Hcall in Hrun].
  rewrite Hrun in Hcall. injection Hcall as <- <-.
  exists (flat_map (worker_events g) order). cbn [trace].
  rewrite (shapeZ_eq arrin B R C Hs).
  rewrite reads_flat_map,
    (writes_flat_map g order (rfoldM_chunk_step_ok g order _ _ Hfold)).
  assert (order ≡ₚ chs) as Hperm.
  { subst order. case_decide; [done|apply pool_order_perm]. }
  split_and!; try done.
  intros Hone. subst order. by rewrite decide_True.
Qed.

(** X15: a call of [process_array] without a pool on a new object takes
    the chunks in the order of the chunk list and stops at the first one
    whose worker raises.  Whatever the outcome, the chunks read are a prefix
    of the chunk list and the chunks handed to the write function are a
    prefix of the chunks read that misses at most the last one.  When the
    call returns, all chunks were read and written.  When the call raises
    [e], the chunk list splits into the chunks [l1] whose workers returned,
    the chunk [ch] whose worker raised [e] in the state that these left,
    and the chunks [l2] that are never read: the chunks read are [l1] and
    [ch], and the state at the end of the call is the one in which the
    worker of [ch] raised. *)
Theorem sequential_run_stops_at_failure sched s arrin B R C :
  wfunc (self s) = None →
  sa_names s !! uuid_source s (uuid_drawn s) = None →
  nproc (self s) = 1 →
  shape3 arrin = (B, R, C) →
  let chs := chunk_list (Z.of_nat R) (Z.of_nat C) chunk_default_nchunks in
  let r := process_array sched arrin s in
  ∃ evs,
    trace (snd r)
    = trace s ++ [EvCreate (uuid_source s (uuid_drawn s)) (shapeZ arrin);
                  EvFill (length (sa_heap s))] ++ evs ∧
    reads evs `prefix_of` chs ∧
    writes evs `prefix_of` reads evs ∧
    (length (reads evs) ≤ S (length (writes evs)))%nat ∧
    (∀ h, fst r = Ok h → reads evs = chs ∧ writes evs = chs) ∧
    (∀ e, fst r = Raise e →
       ∃ l1 ch l2 s_mid,
         chs = l1 ++ ch :: l2 ∧
         for_each mt_worker l1 (loop_state s arrin) = (Ok tt, s_mid) ∧
         mt_worker ch s_mid = (Raise e, snd r) ∧
         reads evs = l1 ++ [ch]).
Proof.
  intros Hw Hfree Hnp Hs chs r.
  destruct (process_array_sequential sched s arrin Hw Hfree Hnp)
    as (evs & Htr & Hr & Hwr & Hlen & Hall & _).
  rewrite (shapeZ_eq arrin B R C Hs) in Hr, Hall. cbn [fst snd] in Hr, Hall.
  exists evs. split_and!; try done.
  intros e He. subst r.
  pose proof (process_array_sequential_run sched s arrin Hw Hfree Hnp) as Hrun.
  cbv zeta in Hrun. fold (loop_state s arrin) in Hrun.
  replace (chunk_list (shapeZ arrin).1.2 (shapeZ arrin).2
             chunk_default_nchunks) with chs in Hrun
    by (by rewrite (shapeZ_eq arrin B R C Hs)).
  rewrite Hrun in He, Htr |- *. cbn [fst snd] in He, Htr |- *.
  destruct (for_each mt_worker chs (loop_state s arrin)) as [[[]|e'] s']
    eqn:Hloop; cbn [fst snd] in He, Htr |- *; [done|].
  injection He as ->.
  destruct (for_each_raise_split mt_worker chs _ e s' Hloop)
    as (l1 & ch & l2 & s_mid & Hsplit & Hpre & Hfail).
  exists l1, ch, l2, s_mid. split_and!; try done.
  set (g := run_globals (self s) arrin).
  assert (mt_globals (loop_state s arrin) = Some g) as Hg0 by done.
  pose proof (for_each_globals g l1 (loop_state s arrin) Hg0) as Hg1.
  destruct (for_each_trace g l1 (loop_state s arrin) Hg0)
    as (evs1 & Htr1 & _ & _ & _ & Hall1 & _).
  rewrite Hpre in Hg1, Htr1, Hall1. cbn [fst snd] in Hg1, Htr1, Hall1.
  destruct (Hall1 eq_refl) as [Hr1 _].
  pose proof (mt_worker_trace s_mid g ch Hg1) as Htr2.
  rewrite Hfail in Htr2. cbn [snd] in Htr2.
  rewrite Htr2, Htr1 in Htr. cbn [trace loop_state] in Htr.
  rewrite <- !app_assoc in Htr.
  apply app_inv_head in Htr. cbn [app] in Htr.
  injection Htr as <-.
  by rewrite reads_app, worker_events_reads, Hr1.
Qed.

Lemma worker_events_empty_chunk (o : MultiTool) arrin B R C :
  shape3 arrin = (B, R, C) → wf3 arrin → 0 ≤ nbandsout o →
  ∃ rest,
    worker_events (run_globals o arrin) (Chunk 0 0 (Z.of_nat C) 0)
    = EvRead (Chunk 0 0 (Z.of_nat C) 0)
      :: EvTransform (Arr2 (B, 0%nat) (replicate B [])) :: rest.
Proof.
  intros Hs Hwf Hnb. set (ch := Chunk 0 0 (Z.of_nat C) 0).
  assert (in_bounds R C ch) as Hch by (repeat split; simpl; lia).
  destruct (wf3_elim _ _ _ _ Hs Hwf) as [Hlen Hp].
  unfold worker_events. cbn [MT_RFUNC MT_OUTBANDS MT_DROPNODATA run_globals].
  unfold array_reader. rewrite (slice3_chunk arrin B R C ch Hs Hwf Hch).
  cbn [as_3d shape3 row_extent ch]. change (Z.to_nat 0) with 0%nat.
  rewrite np_full_ok by done.
  set (data := Arr3 (B, 0%nat, C) _).
  assert (wf3 data) as Hwd.
  { apply wf3_intro; [by rewrite length_map|].
    apply Forall_map. eapply Forall_impl; [exact Hp|].
    intros band Hband. by apply (chunk_rows_wf R C ch band Hch). }
  pose proof (valid_mask_wf (dropnodata o) data B 0 C eq_refl Hwd) as [Hvl _].
  destruct (valid_mask (dropnodata o) data) as [|? ?]; [|done].
  eexists. do 2 f_equal. f_equal.
  unfold take_mask, data. cbn [shape3 cells3 concat]. f_equal.
  rewrite map_map. cbn [select].
  by rewrite map_const_replicate, Hlen.
Qed.

(** X16: when the input has fewer rows than the 100 chunks that
    [_setup_arrays] makes, the first chunk has no rows, and a call of
    [process_array] without a pool on a new object starts by calling the
    transform on an array of the bands of the input and no pixel at all. *)
Theorem short_input_transform_on_nothing sched s arrin B R C :
  wfunc (self s) = None →
  sa_names s !! uuid_source s (uuid_drawn s) = None →
  nproc (self s) = 1 →
  shape3 arrin = (B, R, C) → wf3 arrin →
  Z.of_nat R < chunk_default_nchunks →
  0 ≤ nbandsout (self s) →
  ∃ rest,
    trace (snd (process_array sched arrin s))
    = trace s ++ [EvCreate (uuid_source s (uuid_drawn s)) (shapeZ arrin);
                  EvFill (length (sa_heap s));
                  EvRead (Chunk 0 0 (Z.of_nat C) 0);
                  EvTransform (Arr2 (B, 0%nat) (replicate B []))] ++ rest.
Proof.
  intros Hw Hfree Hnp Hs Hwf HR Hnb.
  destruct (process_array_sequential sched s arrin Hw Hfree Hnp)
    as (evs & Htr & _ & _ & _ & _ & Hfirst).
  rewrite (shapeZ_eq arrin B R C Hs) in Hfirst. cbn [fst snd] in Hfirst.
  destruct (chunk_list_head (Z.of_nat R) (Z.of_nat C) ltac:(lia)) as [l' Hl].
  destruct (Hfirst _ _ Hl) as [rest1 ->].
  destruct (worker_events_empty_chunk (self s) arrin B R C Hs Hwf Hnb)
    as [rest2 Hev].
  rewrite Hev in Htr. exists (rest2 ++ rest1). rewrite Htr.
  done.
Qed.

End Orders.

(** ** Unsupported configurations *)

Section Unsupported.
Context `{CellType}.
Implicit Types (s : state) (arrin : arr3).

(** X17: on a new object whose [wfunc] attribute the caller has assigned,
    a call of [process_array] raises [AttributeError]: [_setup_arrays]
    leaves out the chunk list along with the shared array, so no chunk is
    read and nothing is allocated. *)
Theorem preset_wfunc_has_no_chunks sched s w arrin :
  wfunc (self s) = Some w → chunks (self s) = None →
  1 ≤ nproc (self s) →
  let r := process_array sched arrin s in
  fst r = Raise AttributeError ∧
  trace (snd r) = trace s ∧ sa_heap (snd r) = sa_heap s ∧
  sa_names (snd r) = sa_names s.
Proof.
  intros Hw Hchs Hnp. cbv zeta.
  rewrite (process_array_again sched s w arrin Hw). cbv zeta.
  set (s1 := with_self _ (with_self _ s)).
  change (nproc (self s1)) with (nproc (self s)).
  assert (chunks (self s1) = None) as Hchs1 by exact Hchs.
  case_decide as Hone.
  - assert (_process_nomulti s1
            = (Raise AttributeError,
               with_globals (Some (globals_of (self s1) (array_reader arrin))) s1))
      as Hp.
    { unfold _process_nomulti, _setup_globals, bind, gets, attr, modify.
      cbn [self s1 with_self rfunc set_rfunc]. cbn [with_globals self].
      change (chunks _) with (chunks (self s1)). by rewrite Hchs1. }
    by rewrite (bind_raise _ _ _ _ _ Hp).
  - assert (_process sched s1 = (Raise AttributeError, s1)) as Hp.
    { unfold _process, bind, gets, attr, ret.
      cbn [self s1 with_self rfunc set_rfunc].
      change (nproc _) with (nproc (self s)).
      rewrite decide_False by lia.
      change (chunks _) with (chunks (self s1)). by rewrite Hchs1. }
    by rewrite (bind_raise _ _ _ _ _ Hp).
Qed.

(** X18: with a negative [nbandsout], a call of [process_array] on a new
    object raises [ValueError]: the worker of the first chunk cannot make
    its output array. *)
Theorem negative_nbandsout_raises sched s arrin :
  wfunc (self s) = None →
  sa_names s !! uuid_source s (uuid_drawn s) = None →
  1 ≤ nproc (self s) →
  nbandsout (self s) < 0 →
  fst (process_array sched arrin s) = Raise ValueError.
Proof.
  intros Hw Hfree Hnp Hnb.
  pose proof (process_array_fresh sched s arrin Hw Hfree Hnp) as Hrun.
  cbv zeta in Hrun.
  set (chs := chunk_list _ _ _) in Hrun.
  set (g := globals_of _ _) in Hrun.
  set (order := if decide (nproc (self s) = 1) then chs
                else pool_order sched chs) in Hrun.
  assert (length order = 100%nat) as Hlen.
  { unfold order, chs. case_decide; [|rewrite pool_order_perm];
      by rewrite chunk_list_length. }
  destruct order as [|ch rest]; [done|].
  cbn [rfoldM] in Hrun.
  assert (chunk_step g (nan_array (shapeZ arrin)) ch = Raise ValueError) as Hst.
  { unfold chunk_step, chunk_output. subst g.
    cbn [MT_RFUNC MT_OUTBANDS globals_of nbandsout set_rfunc after_setup
         set_wfunc set_chunks set_arrout set_sa_id set_inshape].
    unfold array_reader. cbn [rbind as_3d].
    destruct (shape3 (slice3 _ _ _ _ _)) as [[b rows] cols].
    unfold np_full. rewrite decide_True by lia. done. }
  rewrite Hst in Hrun. exact Hrun.
Qed.

(** X19: a call of [read_and_process] on a new object always raises
    [AttributeError], with or without a pool and whatever read function it
    is given: no read function is ever stored.  The shared array has been
    allocated by then and no chunk was read. *)
Theorem read_and_process_needs_reader sched s shape (rf : rfunc_t) :
  wfunc (self s) = None → rfunc (self s) = None →
  sa_names s !! uuid_source s (uuid_drawn s) = None →
  0 ≤ shape.1.1 → 0 ≤ shape.1.2 → 0 ≤ shape.2 →
  let r := read_and_process sched shape rf s in
  let name := uuid_source s (uuid_drawn s) in
  let h := length (sa_heap s) in
  fst r = Raise AttributeError ∧
  trace (snd r) = trace s ++ [EvCreate name shape; EvFill h] ∧
  sa_heap (snd r) = sa_heap s ++ [nan_array shape].
Proof.
  intros Hw Hr Hfree Hb Hrw Hc. cbv zeta.
  pose proof (_setup_arrays_fresh s shape Hw Hfree Hb Hrw Hc) as Hset.
  cbv zeta in Hset. set (s1 := State _ _ _ _ _ _ _) in Hset.
  assert (rfunc (self s1) = None) as Hr1 by exact Hr.
  assert (read_and_process sched shape rf s = (Raise AttributeError, s1))
    as ->; [|done].
  unfold read_and_process. rewrite (bind_ok _ _ _ _ _ Hset).
  unfold bind at 1. unfold gets at 1.
  case_decide.
  - assert (_process_nomulti s1 = (Raise AttributeError, s1)) as Hp.
    { unfold _process_nomulti, bind, gets, attr. by rewrite Hr1. }
    by rewrite (bind_raise _ _ _ _ _ Hp).
  - assert (_process sched s1 = (Raise AttributeError, s1)) as Hp.
    { unfold _process, bind, gets, attr. by rewrite Hr1. }
    by rewrite (bind_raise _ _ _ _ _ Hp).
Qed.

End Unsupported.

(** ** Names are never unregistered *)

Section NoDelete.
Context `{CellType}.
Implicit Types (s : state).

Lemma undeleted_refl s : undeleted s s.
Proof. split; [done|]. exists []. by rewrite app_nil_r. Qed.

Lemma undeleted_trans s1 s2 s3 :
  undeleted s1 s2 → undeleted s2 s3 → undeleted s1 s3.
Proof.
  intros (N1 & e1 & T1 & D1) (N2 & e2 & T2 & D2). split; [by etrans|].
  exists (e1 ++ e2). split; [by rewrite T2, T1, app_assoc|].
  by rewrite existsb_app, D1, D2.
Qed.

Lemma undeleted_same s s' :
  sa_names s' = sa_names s → trace s' = trace s → undeleted s s'.
Proof.
  intros HN HT. split; [by rewrite HN|]. exists []. by rewrite app_nil_r.
Qed.

Lemma frame_undeleted s s' : frame s s' → undeleted s s'.
Proof.
  intros (_ & _ & _ & HN & _ & _ & evs & HT & HQ). split; [by rewrite HN|].
  exists evs. split; [done|by apply quiet_no_delete].
Qed.

Lemma never_deletes_ret {A} (a : A) : never_deletes (ret a).
Proof. intros s. apply undeleted_refl. Qed.

Lemma never_deletes_lift {A} (r : result A) : never_deletes (lift r).
Proof. intros s. apply undeleted_refl. Qed.

Lemma never_deletes_gets {A} (f : state → A) : never_deletes (gets f).
Proof. intros s. apply undeleted_refl. Qed.

Lemma never_deletes_attr {A} (f : MultiTool → option A) :
  never_deletes (attr f).
Proof. intros s. unfold attr. destruct (f (self s)); apply undeleted_refl. Qed.

Lemma never_deletes_assign f : never_deletes (assign f).
Proof. intros s. by apply undeleted_same. Qed.

Lemma never_deletes_log e : is_delete e = false → never_deletes (log e).
Proof.
  intros He s. split; [done|]. exists [e]. split; [done|]. cbn. by rewrite He.
Qed.

Lemma never_deletes_bind {A B} (m : M A) (k : A → M B) :
  never_deletes m → (∀ a, never_deletes (k a)) → never_deletes (bind m k).
Proof.
  intros Hm Hk s. unfold bind. specialize (Hm s).
  destruct (m s) as [[a|e] s1]; [|done].
  eapply undeleted_trans; [exact Hm|apply Hk].
Qed.

Lemma never_deletes_sa_create name shape : never_deletes (sa_create name shape).
Proof.
  unfold sa_create.
  apply never_deletes_bind; [by apply never_deletes_log|]. intros _.
  apply never_deletes_bind; [apply never_deletes_lift|]. intros a.
  intros s. unfold bind, gets, lift, modify, ret.
  destruct (sa_names s !! name) eqn:Hn; [apply undeleted_refl|].
  split; [by apply insert_subseteq|].
  exists []. by rewrite app_nil_r.
Qed.

Lemma never_deletes_fill_nan h : never_deletes (fill_nan h).
Proof.
  unfold fill_nan.
  apply never_deletes_bind; [by apply never_deletes_log|]. intros _.
  intros s. by apply undeleted_same.
Qed.

Lemma never_deletes__setup_arrays shape : never_deletes (_setup_arrays shape).
Proof.
  unfold _setup_arrays.
  apply never_deletes_bind; [apply never_deletes_assign|]. intros _.
  apply never_deletes_bind; [apply never_deletes_gets|].
  intros [w|]; [apply never_deletes_ret|].
  apply never_deletes_bind; [|intros name].
  { intros s. by apply undeleted_same. }
  apply never_deletes_bind; [apply never_deletes_assign|]. intros _.
  apply never_deletes_bind; [apply never_deletes_attr|]. intros shp.
  apply never_deletes_bind; [apply never_deletes_sa_create|]. intros h.
  apply never_deletes_bind; [apply never_deletes_assign|]. intros _.
  apply never_deletes_bind; [apply never_deletes_fill_nan|]. intros _.
  apply never_deletes_bind; [apply never_deletes_lift|]. intros chs.
  apply never_deletes_bind; [apply never_deletes_assign|]. intros _.
  apply never_deletes_assign.
Qed.

(** After [_setup_arrays] the object has a write function, so that
    [_cleanup] at the end of a call does nothing. *)
Lemma entry_tail_undeleted sched s :
  wfunc (self s) ≠ None →
  undeleted s
    (snd (bind (if decide (nproc (self s) = 1) then _process_nomulti
                else _process sched)
               (fun _ => bind _cleanup (fun _ => attr arrout)) s)).
Proof.
  intros Hw. destruct (wfunc (self s)) as [w|] eqn:Hws; [|done].
  destruct (entry_tail_same_buffer sched s s w Hws
              (same_buffer_refl s s eq_refl eq_refl eq_refl eq_refl eq_refl
                 eq_refl eq_refl eq_refl) eq_refl)
    as [(_ & _ & _ & _ & HN & _ & _ & _ & evs & HT & HQ) _].
  split; [by rewrite HN|]. exists evs. split; [done|by apply quiet_no_delete].
Qed.

(** X20: no call of [process_array] or of [read_and_process], whatever
    the state of the object, the input and the outcome, calls [sa.delete]:
    every name that is registered before the call is registered after it,
    the name of the shared array that the call itself allocates
    included. *)
Theorem entry_points_never_delete sched s :
  (∀ arrin : arr3,
     let s' := snd (process_array sched arrin s) in
     sa_names s ⊆ sa_names s' ∧
     ∃ evs, trace s' = trace s ++ evs ∧ existsb is_delete evs = false) ∧
  (∀ shape (rf : rfunc_t),
     let s' := snd (read_and_process sched shape rf s) in
     sa_names s ⊆ sa_names s' ∧
     ∃ evs, trace s' = trace s ++ evs ∧ existsb is_delete evs = false).
Proof.
  split.
  - intros arrin. cbv zeta. change (undeleted s (snd (process_array sched arrin s))).
    unfold process_array. unfold bind at 1.
    pose proof (never_deletes__setup_arrays (shapeZ arrin) s) as Hset.
    pose proof (_setup_arrays_sets_wfunc s (shapeZ arrin)) as Hw.
    destruct (_setup_arrays (shapeZ arrin) s) as [[[]|e] s1]; [|exact Hset].
    specialize (Hw s1 eq_refl). cbn [snd] in Hset.
    eapply undeleted_trans; [exact Hset|].
    unfold bind at 1. unfold assign at 1. unfold modify at 1.
    unfold bind at 1. unfold gets at 1.
    set (s2 := with_self _ s1).
    eapply undeleted_trans; [apply (undeleted_same s1 s2); done|].
    by apply entry_tail_undeleted.
  - intros shape rf. cbv zeta.
    change (undeleted s (snd (read_and_process sched shape rf s))).
    unfold read_and_process. unfold bind at 1.
    pose proof (never_deletes__setup_arrays shape s) as Hset.
    pose proof (_setup_arrays_sets_wfunc s shape) as Hw.
    destruct (_setup_arrays shape s) as [[[]|e] s1]; [|exact Hset].
    specialize (Hw s1 eq_refl). cbn [snd] in Hset.
    eapply undeleted_trans; [exact Hset|].
    unfold bind at 1. unfold gets at 1.
    by apply entry_tail_undeleted.
Qed.

End NoDelete.

(** ** A further call writes into the array of the first *)

Lemma chunk_rows_agree {A} ch (l1 l2 : list A) (R : nat) :
  0 ≤ row_offset ch → 0 ≤ row_extent ch →
  row_offset ch + row_extent ch ≤ Z.of_nat R →
  length l1 = R → length l2 = R →
  (∀ r, covers ch (Z.of_nat r) → l1 !! r = l2 !! r) →
  chunk_rows ch l1 = chunk_rows ch l2.
Proof.
  intros Ho He Hle H1 H2 Hag. unfold chunk_rows. apply list_eq. intros i.
  destruct (decide (i < Z.to_nat (row_extent ch))%nat) as [Hi|Hi].
  - rewrite !lookup_take_lt, !lookup_drop by done.
    apply Hag. unfold covers. lia.
  - rewrite !lookup_take_ge by lia. done.
Qed.

Section Landing.
Context `{CellType}.
Implicit Types (s : state) (g : globals) (ch : chunk_desc) (buf : arr3).

Lemma chunk_rows_write_rows B R C ch vals cells :
  in_bounds R C ch →
  length cells = B → Forall (wf_plane R C) cells →
  length vals = B → Forall (wf_plane (Z.to_nat (row_extent ch)) C) vals →
  map (chunk_rows ch) (write_rows (Z.to_nat (row_offset ch)) vals cells) = vals.
Proof.
  intros (_ & _ & Ho & He & Hle) Hcl Hcp Hvl Hvp. unfold write_rows.
  apply list_eq. intros b. rewrite list_lookup_fmap, lookup_zip_with.
  destruct (cells !! b) as [band|] eqn:Hband; simpl.
  - destruct (vals !! b) as [new|] eqn:Hnew; simpl.
    + pose proof (proj1 (Forall_lookup _ _) Hcp _ _ Hband) as [Hbl _].
      pose proof (proj1 (Forall_lookup _ _) Hvp _ _ Hnew) as [Hnl _].
      f_equal. apply chunk_rows_overwrite; lia.
    + apply lookup_ge_None in Hnew. apply lookup_lt_Some in Hband. lia.
  - symmetry. apply lookup_ge_None. apply lookup_ge_None in Hband. lia.
Qed.

Lemma write_rows_outside B R C ch vals cells :
  in_bounds R C ch →
  length cells = B → Forall (wf_plane R C) cells →
  length vals = B → Forall (wf_plane (Z.to_nat (row_extent ch)) C) vals →
  rows_agree (fun r => ¬ covers ch (Z.of_nat r))
    (write_rows (Z.to_nat (row_offset ch)) vals cells) cells.
Proof.
  intros (_ & _ & Ho & He & Hle) Hcl Hcp Hvl Hvp b band' band r Hb' Hb Hr.
  unfold write_rows in Hb'.
  apply lookup_zip_with_Some in Hb' as (band0 & new & -> & Hband & Hnew).
  rewrite Hb in Hband. injection Hband as <-.
  pose proof (proj1 (Forall_lookup _ _) Hcp _ _ Hb) as [Hbl _].
  pose proof (proj1 (Forall_lookup _ _) Hvp _ _ Hnew) as [Hnl _].
  rewrite overwrite_lookup by lia. rewrite decide_False; [done|].
  unfold covers in Hr. lia.
Qed.

(** A successful fold of the chunk steps over chunks that do not meet
    leaves the output of every chunk in the rows of the chunk. *)
Lemma fold_lands g B R C L : ∀ buf buf',
  wf_globals g →
  Forall (in_bounds R C) L → ForallOrdPairs row_disjoint L →
  shape3 buf = (B, R, C) → wf3 buf →
  rfoldM (chunk_step g) buf L = Ok buf' →
  shape3 buf' = (B, R, C) ∧ wf3 buf' ∧
  (∀ ch, ch ∈ L → ∃ o, chunk_output g ch = Ok o ∧ holds_output B C buf' o ch) ∧
  rows_agree (fun r => ∀ ch, ch ∈ L → ¬ covers ch (Z.of_nat r))
    (cells3 buf') (cells3 buf).
Proof.
  induction L as [|ch L IH]; intros buf buf' Hg HL HD Hs Hw Hfold.
  - injection Hfold as <-. split_and!; try done.
    + intros ch Hch. by apply elem_of_nil in Hch.
    + intros b band eband r Hb He _. congruence.
  - apply Forall_cons in HL as [Hch HL'].
    inversion HD as [|? ? Hdis HD']; subst.
    cbn [rfoldM] in Hfold.
    destruct (chunk_step g buf ch) as [buf1|] eqn:Hstep; [|done].
    cbn [rbind] in Hfold.
    destruct (chunk_step_inv g buf B R C ch buf1 Hg Hs Hw Hch Hstep)
      as [Hs1 Hw1].
    rewrite (chunk_step_closed g buf B R C ch Hg Hs Hw Hch) in Hstep.
    destruct (chunk_output g ch) as [o|] eqn:Ho; [|done]. cbn [rbind] in Hstep.
    destruct (broadcast3 _ o) as [vals|] eqn:Hb; [|done].
    injection Hstep as <-.
    destruct (wf3_elim _ _ _ _ Hs Hw) as [Hlen Hp].
    destruct (broadcast3_wf _ _ _ _ _ (chunk_output_wf g ch o Hg Ho) Hb)
      as [Hvl Hvp].
    destruct (IH _ buf' Hg HL' HD' Hs1 Hw1 Hfold) as (Hs' & Hw' & Hin & Hout).
    destruct (wf3_elim _ _ _ _ Hs' Hw') as [Hlen' Hp'].
    destruct (wf3_elim _ _ _ _ Hs1 Hw1) as [Hlen1 Hp1].
    cbn [cells3] in Hout, Hlen1, Hp1.
    pose proof Hch as (_ & _ & Hoff & Hext & Hle).
    split_and!; try done.
    + intros ch' Hin'. apply elem_of_cons in Hin' as [->|Hin']; [|by apply Hin].
      exists o. split; [done|]. unfold holds_output. rewrite Hb. f_equal.
      rewrite <- (chunk_rows_write_rows B R C ch vals (cells3 buf))
        by done.
      apply list_eq. intros b. rewrite !list_lookup_fmap.
      destruct (cells3 buf' !! b) as [band'|] eqn:Hb';
        destruct (write_rows (Z.to_nat (row_offset ch)) vals (cells3 buf) !! b)
          as [band1|] eqn:Hb1; simpl.
      * f_equal. symmetry.
        pose proof (proj1 (Forall_lookup _ _) Hp' _ _ Hb') as [Hbl' _].
        pose proof (proj1 (Forall_lookup _ _) Hp1 _ _ Hb1) as [Hbl1 _].
        apply (chunk_rows_agree ch band' band1 R); try done.
        intros r Hr. eapply Hout; eauto.
        intros ch2 Hin2 Hcov2.
        pose proof (proj1 (Forall_forall _ _) Hdis ch2 Hin2) as Hd.
        unfold row_disjoint in Hd. unfold covers in Hr, Hcov2. lia.
      * apply lookup_lt_Some in Hb'. apply lookup_ge_None in Hb1. lia.
      * apply lookup_lt_Some in Hb1. apply lookup_ge_None in Hb'. lia.
      * done.
    + intros b band' band r Hb' Hbb Hr.
      destruct (write_rows (Z.to_nat (row_offset ch)) vals (cells3 buf) !! b)
        as [band1|] eqn:Hb1.
      * transitivity (band1 !! r).
        -- eapply Hout; eauto. intros ch2 Hin2. apply Hr. by right.
        -- eapply (write_rows_outside B R C ch vals (cells3 buf)); eauto.
           apply Hr. by left.
      * apply lookup_lt_Some in Hb'. apply lookup_ge_None in Hb1. lia.
Qed.

End Landing.

Section Written.
Context `{CellType}.
Implicit Types (s : state) (g : globals) (ch : chunk_desc) (buf : arr3).

Lemma worker_events_write g o ch ch' :
  EvWrite o ch ∈ worker_events g ch' ↔ ch' = ch ∧ chunk_output g ch = Ok o.
Proof.
  unfold worker_events, chunk_output. rewrite elem_of_cons.
  destruct (MT_RFUNC g ch') as [d|] eqn:Hd.
  - cbn [rbind]. destruct (shape3 (as_3d d)) as [[b rows] cols] eqn:Hs.
    destruct (np_full _ _) as [output|] eqn:Hfull.
    + cbn [rbind]. rewrite elem_of_cons.
      destruct (_ ←r _; _) as [o'|] eqn:Hres.
      * rewrite list_elem_of_singleton. split.
        -- intros [?|[?|[= -> ->]]]; try done.
           rewrite Hd. cbn [rbind]. rewrite Hs, Hfull. cbn [rbind].
           by rewrite Hres.
        -- intros [-> Ho]. rewrite Hd in Ho. cbn [rbind] in Ho.
           rewrite Hs, Hfull in Ho. cbn [rbind] in Ho. rewrite Hres in Ho.
           injection Ho as ->. by right; right.
      * split.
        -- intros [?|[?|Hnil]]; try done. by apply elem_of_nil in Hnil.
        -- intros [-> Ho]. rewrite Hd in Ho. cbn [rbind] in Ho.
           rewrite Hs, Hfull in Ho. cbn [rbind] in Ho. by rewrite Hres in Ho.
    + split.
      * intros [?|Hnil]; try done. by apply elem_of_nil in Hnil.
      * intros [-> Ho]. rewrite Hd in Ho. cbn [rbind] in Ho.
        by rewrite Hs, Hfull in Ho.
  - split.
    + intros [?|Hnil]; try done. by apply elem_of_nil in Hnil.
    + intros [-> Ho]. by rewrite Hd in Ho.
Qed.

Lemma flat_map_worker_events_write g L o ch :
  EvWrite o ch ∈ flat_map (worker_events g) L
  ↔ ch ∈ L ∧ chunk_output g ch = Ok o.
Proof.
  induction L as [|ch' L IH]; cbn [flat_map].
  - split; [by intros ?%elem_of_nil|by intros [?%elem_of_nil _]].
  - rewrite elem_of_app, worker_events_write, IH, elem_of_cons. split.
    + intros [[-> Ho]|[Hin Ho]]; split; auto.
    + intros [[->|Hin] Ho]; auto.
Qed.

Lemma rows_agree_at3 (S : nat → Prop) (a1 a2 : arr3) B b r c :
  length (cells3 a1) = B → length (cells3 a2) = B →
  rows_agree S (cells3 a1) (cells3 a2) → S r →
  at3 a1 b r c = at3 a2 b r c.
Proof.
  intros H1 H2 Hag Hr. unfold at3.
  destruct (cells3 a1 !! b) as [band1|] eqn:Hb1;
    destruct (cells3 a2 !! b) as [band2|] eqn:Hb2; simpl; try done.
  - by rewrite (Hag b band1 band2 r Hb1 Hb2 Hr).
  - apply lookup_lt_Some in Hb1. apply lookup_ge_None in Hb2. lia.
  - apply lookup_lt_Some in Hb2. apply lookup_ge_None in Hb1. lia.
Qed.

Lemma bind_fst_raise {A B} (m : M A) (k : A → M B) s e :
  fst (m s) = Raise e → fst (bind m k s) = Raise e.
Proof. unfold bind. destruct (m s) as [[a|e'] s1]; simpl; congruence. Qed.

(** The steps of a successful run as what is written into the array. *)
Lemma run_written g (s s' : state) h buf buf' B R C chs order :
  wf_globals g →
  Forall (in_bounds R C) chs → ForallOrdPairs row_disjoint chs →
  order ≡ₚ chs →
  shape3 buf = (B, R, C) → wf3 buf →
  rfoldM (chunk_step g) buf order = Ok buf' →
  trace s' = trace s ++ flat_map (worker_events g) order →
  sa_heap s' !! h = Some buf' →
  written_into s s' h buf B R C chs.
Proof.
  intros Hg Hin Hdis Hperm Hs Hw Hfold Htr Hh.
  assert (Forall (in_bounds R C) order) as Hin' by (by rewrite Hperm).
  assert (ForallOrdPairs row_disjoint order) as Hdis'.
  { eapply ForallOrdPairs_perm; [apply row_disjoint_sym| |exact Hdis].
    by symmetry. }
  destruct (fold_lands g B R C order buf buf' Hg Hin' Hdis' Hs Hw Hfold)
    as (Hs' & Hw' & Hland & Hout).
  destruct (wf3_elim _ _ _ _ Hs Hw) as [Hlen _].
  destruct (wf3_elim _ _ _ _ Hs' Hw') as [Hlen' _].
  exists (flat_map (worker_events g) order), buf'.
  split_and!; try done.
  - intros ch Hch. rewrite <- Hperm in Hch.
    destruct (Hland ch Hch) as (o & Ho & _). exists o.
    by apply flat_map_worker_events_write.
  - intros o ch Hev. apply flat_map_worker_events_write in Hev as [Hch Ho].
    split; [by rewrite <- Hperm|].
    destruct (Hland ch Hch) as (o' & Ho' & Hhold). congruence.
  - intros b r c Hr.
    apply (rows_agree_at3 _ buf' buf B b r c Hlen' Hlen Hout).
    intros ch Hch. apply Hr. by rewrite <- Hperm.
Qed.

(** The end of a call on an object that has the closure of
    [_setup_arrays] as its write function. *)
Lemma entry_tail_written sched s rf h buf B R C chs :
  wfunc (self s) = Some SharedWrite →
  rfunc (self s) = Some rf → chunks (self s) = Some chs →
  arrout (self s) = Some h → sa_heap s !! h = Some buf →
  shape3 buf = (B, R, C) → wf3 buf →
  Forall (in_bounds R C) chs → ForallOrdPairs row_disjoint chs →
  wf_globals (globals_of (self s) rf) →
  let out := bind (if decide (nproc (self s) = 1) then _process_nomulti
                   else _process sched)
                  (fun _ => bind _cleanup (fun _ => attr arrout)) s in
  ∀ h', fst out = Ok h' → written_into s (snd out) h buf B R C chs.
Proof.
  intros Hw Hrf Hchs Hh Hbuf Hs Hwf Hin Hdis Hg out h' Hok. subst out.
  set (g := globals_of (self s) rf) in *.
  assert (h < length (sa_heap s))%nat as Hlt by (by eapply lookup_lt_Some).
  case_decide as Hone.
  - pose proof (_process_nomulti_shared s rf chs h buf Hrf Hchs Hw Hh Hbuf)
      as Hp. cbv zeta in Hp. fold g in Hp.
    destruct (rfoldM (chunk_step g) buf chs) as [buf'|e] eqn:Hfold.
    + rewrite (bind_ok _ _ _ _ _ Hp) in Hok |- *.
      erewrite bind_ok in Hok |- * by (by apply (_cleanup_noop _ SharedWrite)).
      unfold attr in Hok |- *. cbn [self] in Hok |- *. rewrite Hh. cbn [snd].
      apply (run_written g _ _ h buf buf' B R C chs chs); try done.
      cbn [sa_heap]. by apply list_lookup_insert_eq.
    + by rewrite (bind_fst_raise _ _ _ _ Hp) in Hok.
  - destruct (decide (nproc (self s) < 1)) as [Hlow|Hnp].
    + assert (fst (_process sched s) = Raise ValueError) as Hp.
      { unfold _process, bind, gets, attr. rewrite Hrf.
        by rewrite decide_True. }
      by rewrite (bind_fst_raise _ _ _ _ Hp) in Hok.
    + pose proof (_process_shared sched s rf chs h buf Hrf Hchs Hw Hh Hbuf
                    ltac:(lia)) as Hp. cbv zeta in Hp. fold g in Hp.
      destruct (rfoldM (chunk_step g) buf (pool_order sched chs))
        as [buf'|e] eqn:Hfold.
      * rewrite (bind_ok _ _ _ _ _ Hp) in Hok |- *.
        erewrite bind_ok in Hok |- * by (by apply (_cleanup_noop _ SharedWrite)).
        unfold attr in Hok |- *. cbn [self] in Hok |- *. rewrite Hh. cbn [snd].
        apply (run_written g _ _ h buf buf' B R C chs (pool_order sched chs));
          try done; [apply pool_order_perm|].
        cbn [sa_heap]. by apply list_lookup_insert_eq.
      * by rewrite (bind_fst_raise _ _ _ _ Hp) in Hok.
Qed.

End Written.

Section SecondCallWrites.
Context `{CellType}.

Lemma entry_tail_no_reader sched s :
  rfunc (self s) = None →
  ∃ e, fst (bind (if decide (nproc (self s) = 1) then _process_nomulti
                  else _process sched)
                 (fun _ => bind _cleanup (fun _ => attr arrout)) s)
       = Raise e.
Proof.
  intros Hr. exists AttributeError. case_decide.
  - apply bind_fst_raise. unfold _process_nomulti, bind, gets, attr.
    by rewrite Hr.
  - apply bind_fst_raise. unfold _process, bind, gets, attr. by rewrite Hr.
Qed.

(** C10: on an object whose write function is set, a call of either entry
    point leaves the chunk list, the name and the reference of the shared
    array and the write function as they were; no name is registered or
    freed, no array is allocated, the events of the call contain no
    creation, no NaN fill and no deletion, no array other than the one
    referred to changes, and the reference that the call returns is the
    one stored before the call.  When the write function is the closure of
    [_setup_arrays], as it is after a first call, a call that returns has
    written its results into the array that was there before the call:
    every chunk of the stored chunk list was handed to the write function,
    the rows of each chunk in that array hold the output that was handed
    over for it, and the rows of no chunk are as they were. *)
Theorem second_call_reuses_buffer sched s w :
  wfunc (self s) = Some w →
  (∀ arrin : arr3,
     same_buffer s (snd (process_array sched arrin s)) ∧
     (∀ h, fst (process_array sched arrin s) = Ok h → arrout (self s) = Some h) ∧
     (w = SharedWrite → wf3 arrin → wf_transform (pfunc (self s)) →
      ∀ h buf B R C chs,
        arrout (self s) = Some h → sa_heap s !! h = Some buf →
        shape3 buf = (B, R, C) → wf3 buf →
        chunks (self s) = Some chs →
        Forall (in_bounds R C) chs → ForallOrdPairs row_disjoint chs →
        ∀ h', fst (process_array sched arrin s) = Ok h' →
          written_into s (snd (process_array sched arrin s)) h buf B R C chs)) ∧
  (∀ shape (rf : rfunc_t),
     same_buffer s (snd (read_and_process sched shape rf s)) ∧
     (∀ h, fst (read_and_process sched shape rf s) = Ok h →
           arrout (self s) = Some h) ∧
     (w = SharedWrite →
      (∀ rf0 ch d, rfunc (self s) = Some rf0 → rf0 ch = Ok d → wf3 (as_3d d)) →
      wf_transform (pfunc (self s)) →
      ∀ h buf B R C chs,
        arrout (self s) = Some h → sa_heap s !! h = Some buf →
        shape3 buf = (B, R, C) → wf3 buf →
        chunks (self s) = Some chs →
        Forall (in_bounds R C) chs → ForallOrdPairs row_disjoint chs →
        ∀ h', fst (read_and_process sched shape rf s) = Ok h' →
          written_into s (snd (read_and_process sched shape rf s))
            h buf B R C chs)).
Proof.
  intros Hw.
  destruct (entry_points_same_buffer sched s w Hw) as [Hpa Hrp].
  split.
  - intros arrin. destruct (Hpa arrin) as [Hsame Href].
    split; [done|]. split; [done|].
    intros -> Hwf Hpf h buf B R C chs Hh Hbuf Hs Hwb Hchs Hin Hdis h'.
    rewrite (process_array_again sched s SharedWrite arrin Hw). cbv zeta.
    set (s1 := with_self _ (with_self _ s)).
    apply (entry_tail_written sched s1 (array_reader arrin) h buf B R C chs);
      try done.
    split; [|done]. intros ch d Hd. by apply (array_reader_wf arrin ch d).
  - intros shape rf. destruct (Hrp shape rf) as [Hsame Href].
    split; [done|]. split; [done|].
    intros -> Hrd Hpf h buf B R C chs Hh Hbuf Hs Hwb Hchs Hin Hdis h'.
    rewrite (read_and_process_again sched s SharedWrite shape rf Hw). cbv zeta.
    set (s1 := with_self _ s).
    destruct (rfunc (self s)) as [rf0|] eqn:Hrf.
    + apply (entry_tail_written sched s1 rf0 h buf B R C chs); try done.
      split; [|done]. intros ch d Hd. by apply (Hrd rf0 ch d).
    + intros Hok. destruct (entry_tail_no_reader sched s1 Hrf) as [e He].
      by rewrite He in Hok.
Qed.

End SecondCallWrites.

(** ** The further theorems at sample inputs *)

Section SampleTransforms.
Context `{CellType}.

Lemma first_band_pixelwise B :
  (1 ≤ B)%nat → pixelwise first_band (take 1) B 1.
Proof.
  intros HB x n Hs [Hl Hrows]. rewrite Hs in Hl, Hrows. simpl in Hl, Hrows.
  eexists. split; [reflexivity|]. rewrite Hs. cbn [fst snd shape2 cells2].
  split; [by rewrite Nat.min_l|]. split.
  - split; cbn [fst snd shape2 cells2].
    + rewrite length_take. lia.
    + by apply Forall_take.
  - intros j Hj. unfold column. cbn [cells2].
    destruct (cells2 x) as [|c0 rest]; [simpl in Hl; lia|].
    apply Forall_cons in Hrows as [Hc0 _].
    destruct (c0 !! j) as [v|] eqn:Hv;
      [|apply lookup_ge_None in Hv; lia].
    cbn. rewrite Hv. cbn. by rewrite take_0.
Qed.

Lemma double_bands_pixelwise B :
  pixelwise double_bands (fun v => v ++ v) B (B + B).
Proof.
  intros x n Hs [Hl Hrows]. rewrite Hs in Hl, Hrows. simpl in Hl, Hrows.
  eexists. split; [reflexivity|]. rewrite Hs. cbn [fst snd shape2 cells2].
  split; [done|]. split.
  - split; cbn [fst snd shape2 cells2].
    + rewrite length_app. lia.
    + by apply Forall_app.
  - intros j Hj. unfold column. cbn [cells2]. apply omap_app.
Qed.

End SampleTransforms.

Section FurtherWitnesses.
#[local] Existing Instance fcell_cells.

Lemma sample_other_wf : wf3 sample_other.
Proof. split; [reflexivity|]. repeat constructor. Defined.

Lemma sample_column_wf : wf3 sample_column.
Proof. split; [reflexivity|]. repeat constructor. Defined.

(** A second call on the object of a finished first call. *)
Lemma second_call_reuses_buffer_witness :
  wfunc (self used_state) = Some SharedWrite ∧
  same_buffer used_state
    (snd (process_array reversed sample_other used_state)) ∧
  written_into used_state
    (snd (process_array reversed sample_other used_state))
    0 sample_array 2 3 2 (chunk_list 3 2 100).
Proof.
  assert (wfunc (self used_state) = Some SharedWrite) as Hw
    by (vm_compute; reflexivity).
  split; [exact Hw|].
  destruct (second_call_reuses_buffer reversed used_state SharedWrite Hw)
    as [Hcall _].
  destruct (Hcall sample_other) as (Hsame & _ & Hwritten).
  split; [exact Hsame|].
  apply (Hwritten eq_refl sample_other_wf passthrough_wf
           0%nat sample_array 2%nat 3%nat 2%nat (chunk_list 3 2 100)) with 0%nat.
  - vm_compute. reflexivity.
  - vm_compute. reflexivity.
  - reflexivity.
  - exact sample_array_wf.
  - vm_compute. reflexivity.
  - exact (chunk_list_in_bounds 3 2 100 ltac:(lia)).
  - apply chunk_list_disjoint; lia.
  - vm_compute. reflexivity.
Defined.

Lemma chunk_degenerate_counts_witness :
  chunk (2, 10, 4) 0 = Raise ZeroDivisionError ∧ chunk (2, 10, 4) (-3) = Ok [].
Proof.
  destruct (chunk_degenerate_counts (2, 10, 4)) as [H0 Hneg].
  split; [exact H0|]. apply Hneg. lia.
Defined.

Lemma worker_output_holds_result_witness :
  ∃ o,
    trace (snd (mt_worker (Chunk 0 0 2 3)
                  (with_globals (Some (sample_globals true))
                     (sample_state passthrough 2 100 1 true))))
    = [] ++ [EvRead (Chunk 0 0 2 3);
             EvTransform (take_mask sample_array (valid_mask true sample_array));
             EvWrite o (Chunk 0 0 2 3)] ∧
    shape3 o = (2, 3, 2)%nat ∧
    take_mask o (valid_mask true sample_array)
    = take_mask sample_array (valid_mask true sample_array).
Proof.
  apply (worker_output_holds_result
           (with_globals (Some (sample_globals true))
              (sample_state passthrough 2 100 1 true))
           (sample_globals true) (Chunk 0 0 2 3) (Read3 sample_array) 2 3 2
           (take_mask sample_array (valid_mask true sample_array))).
  - reflexivity.
  - reflexivity.
  - reflexivity.
  - exact sample_array_wf.
  - simpl. lia.
  - reflexivity.
  - reflexivity.
  - split; [reflexivity|]. repeat constructor.
Defined.

Lemma worker_passes_all_pixels_witness :
  ∃ arg rest,
    trace (snd (mt_worker (Chunk 0 0 2 3)
                  (with_globals (Some (sample_globals false))
                     (sample_state passthrough 2 100 1 false))))
    = [] ++ EvRead (Chunk 0 0 2 3) :: EvTransform arg :: rest ∧
    shape2 arg = (2, 6)%nat ∧
    column arg 3 = pixel sample_array 1 1.
Proof.
  destruct (worker_passes_all_pixels
              (with_globals (Some (sample_globals false))
                 (sample_state passthrough 2 100 1 false))
              (sample_globals false) (Chunk 0 0 2 3) (Read3 sample_array) 2 3 2)
    as (arg & rest & Htr & Hs & Hcol).
  - reflexivity.
  - reflexivity.
  - reflexivity.
  - exact sample_array_wf.
  - simpl. lia.
  - reflexivity.
  - exists arg, rest. split; [exact Htr|]. split; [exact Hs|].
    apply (Hcol 1%nat 1%nat); lia.
Defined.

Lemma two_dimensional_read_is_one_band_witness :
  ∃ rest,
    trace (snd (mt_worker (Chunk 0 0 2 2)
                  (with_globals (Some sample_globals_2d)
                     (sample_state passthrough 1 100 1 false))))
    = [] ++ EvRead (Chunk 0 0 2 2)
         :: EvTransform (Arr2 (1, 2 * 2)%nat [concat (cells2 sample_plane)])
         :: rest.
Proof.
  apply (two_dimensional_read_is_one_band
           (with_globals (Some sample_globals_2d)
              (sample_state passthrough 1 100 1 false))
           sample_globals_2d (Chunk 0 0 2 2) sample_plane 2 2).
  - reflexivity.
  - reflexivity.
  - reflexivity.
  - split; [reflexivity|]. repeat constructor.
  - simpl. lia.
  - reflexivity.
Defined.

Lemma worker_failure_is_type_error_witness :
  mt_worker (Chunk 0 0 2 3)
    (with_globals (Some (sample_globals_with failing))
       (sample_state failing 2 100 1 false))
  = (Raise TypeError,
     with_trace
       ([] ++ [EvRead (Chunk 0 0 2 3);
               EvTransform (take_mask sample_array
                              (valid_mask false sample_array))])
       (with_globals (Some (sample_globals_with failing))
          (sample_state failing 2 100 1 false))).
Proof.
  apply (worker_failure_is_type_error
           (with_globals (Some (sample_globals_with failing))
              (sample_state failing 2 100 1 false))
           (sample_globals_with failing) (Chunk 0 0 2 3) (Read3 sample_array)
           2 3 2).
  - reflexivity.
  - reflexivity.
  - reflexivity.
  - simpl. lia.
  - left. exists (UserError "boom"). reflexivity.
Defined.

Lemma array_reader_clips_witness :
  ∃ a, array_reader sample_array (Chunk 0 1 2 5) = Ok (Read3 a) ∧ wf3 a ∧
       ∃ r c, shape3 a = (2%nat, r, c) ∧ (r ≤ 3)%nat ∧ (c ≤ 2)%nat.
Proof.
  destruct (array_reader_clips sample_array 2 3 2 (Chunk 0 1 2 5) eq_refl
              sample_array_wf) as (a & Ha & Hw & Hshape & _).
  exists a. split; [exact Ha|]. split; [exact Hw|exact Hshape].
Defined.

Lemma shared_write_then_read_witness :
  ∃ buf',
    shared_write sample_row
      (Chunk 0 1 2 1) used_state
    = (Ok tt, with_heap (<[0%nat := buf']> (sa_heap used_state)) used_state) ∧
    array_reader buf' (Chunk 0 1 2 1)
    = Ok (Read3 sample_row).
Proof.
  destruct (shared_write_then_read used_state 0 sample_array
              sample_row
              (Chunk 0 1 2 1) 2 3 2)
    as (buf' & Hrun & _ & _ & Hread & _).
  - vm_compute. reflexivity.
  - vm_compute. reflexivity.
  - reflexivity.
  - exact sample_array_wf.
  - repeat split; simpl; lia.
  - reflexivity.
  - split; [reflexivity|]. repeat constructor.
  - exists buf'. split; [exact Hrun|exact Hread].
Defined.

Lemma entry_points_keep_shapes_witness :
  ∃ a', sa_heap (snd (process_array reversed sample_column used_state)) !! 0%nat
        = Some a' ∧
        shape3 a' = shape3 sample_array.
Proof.
  destruct (entry_points_keep_shapes reversed used_state 0 sample_array)
    as [Hcall _].
  - vm_compute. reflexivity.
  - exact (Hcall sample_column).
Defined.

Lemma single_band_output_is_copied_witness :
  returns_array in_order sample_array (sample_state first_band 1 100 1 false)
    (band_copies 2 sample_first).
Proof.
  apply (single_band_output_is_copied in_order
           (sample_state first_band 1 100 1 false) sample_array 2 3 2 (take 1)
           sample_first).
  - reflexivity.
  - reflexivity.
  - simpl. lia.
  - reflexivity.
  - exact sample_array_wf.
  - reflexivity.
  - apply first_band_pixelwise. lia.
  - reflexivity.
Defined.

Lemma band_mismatch_raises_witness :
  fst (process_array in_order sample_column
         (sample_state double_bands 2 100 1 false)) = Raise ValueError.
Proof.
  apply (band_mismatch_raises in_order
           (sample_state double_bands 2 100 1 false) sample_column
           1 2 2 1 (fun v => v ++ v)).
  - reflexivity.
  - reflexivity.
  - simpl. lia.
  - reflexivity.
  - exact sample_column_wf.
  - reflexivity.
  - exact (double_bands_pixelwise 1).
  - lia.
  - lia.
Defined.

Lemma successive_calls_share_output_witness :
  ∃ h s1 s2,
    process_array reversed sample_array
      (sample_state passthrough 2 100 2 false) = (Ok h, s1) ∧
    sa_heap s1 !! h = Some sample_array ∧
    process_array reversed sample_other s1 = (Ok h, s2) ∧
    sa_heap s2 !! h = Some sample_other ∧
    length (sa_heap s2) = length (sa_heap s1).
Proof.
  apply (successive_calls_share_output reversed
           (sample_state passthrough 2 100 2 false) sample_array sample_other
           2 3 2 (fun v => v) sample_array sample_other).
  - reflexivity.
  - reflexivity.
  - simpl. lia.
  - reflexivity.
  - exact sample_array_wf.
  - reflexivity.
  - exact sample_other_wf.
  - reflexivity.
  - exact (passthrough_pixelwise 2).
  - reflexivity.
  - reflexivity.
Defined.

Lemma pool_needs_a_process_witness :
  fst (process_array in_order sample_array
         (sample_state passthrough 2 100 0 false)) = Raise ValueError.
Proof.
  apply (pool_needs_a_process in_order
           (sample_state passthrough 2 100 0 false) sample_array).
  - reflexivity.
  - reflexivity.
  - simpl. lia.
Defined.

Lemma read_and_process_rereads_witness :
  read_and_process in_order (2, 3, 2) (array_reader sample_other) used_state
  = process_array in_order sample_array used_state.
Proof.
  apply (read_and_process_rereads in_order used_state SharedWrite sample_array
           (array_reader sample_other)).
  - vm_compute. reflexivity.
  - vm_compute. reflexivity.
Defined.

Lemma each_chunk_handled_once_witness :
  ∃ evs,
    trace used_state = [] ++ [EvCreate "a" (2, 3, 2); EvFill 0] ++ evs ∧
    reads evs = chunk_list 3 2 100 ∧
    writes evs = chunk_list 3 2 100.
Proof.
  destruct (each_chunk_handled_once in_order
              (sample_state passthrough 2 100 1 false) sample_array 2 3 2
              0 used_state) as (evs & Htr & _ & _ & Horder).
  - reflexivity.
  - reflexivity.
  - simpl. lia.
  - reflexivity.
  - vm_compute. reflexivity.
  - exists evs. split; [exact Htr|]. exact (Horder eq_refl).
Defined.

Lemma sequential_run_stops_at_failure_witness :
  ∃ evs,
    trace (snd (process_array in_order sample_array
                  (sample_state failing 2 100 1 false)))
    = [] ++ [EvCreate "a" (2, 3, 2); EvFill 0] ++ evs ∧
    reads evs `prefix_of` chunk_list 3 2 100 ∧
    ∃ l1 ch l2 s_mid,
      chunk_list 3 2 100 = l1 ++ ch :: l2 ∧
      mt_worker ch s_mid
      = (Raise TypeError,
         snd (process_array in_order sample_array
                (sample_state failing 2 100 1 false))) ∧
      reads evs = l1 ++ [ch].
Proof.
  destruct (sequential_run_stops_at_failure in_order
              (sample_state failing 2 100 1 false) sample_array 2 3 2)
    as (evs & Htr & Hr & _ & _ & _ & Hfail).
  - reflexivity.
  - reflexivity.
  - reflexivity.
  - reflexivity.
  - exists evs. split; [exact Htr|]. split; [exact Hr|].
    destruct (Hfail TypeError) as (l1 & ch & l2 & s_mid & Hsplit & _ & Hw & Hreads).
    + vm_compute. reflexivity.
    + exists l1, ch, l2, s_mid. split; [exact Hsplit|].
      split; [exact Hw|exact Hreads].
Defined.

Lemma short_input_transform_on_nothing_witness :
  ∃ rest,
    trace (snd (process_array in_order sample_array
                  (sample_state passthrough 2 100 1 false)))
    = [] ++ [EvCreate "a" (2, 3, 2); EvFill 0; EvRead (Chunk 0 0 2 0);
             EvTransform (Arr2 (2, 0)%nat [[]; []])] ++ rest.
Proof.
  apply (short_input_transform_on_nothing in_order
           (sample_state passthrough 2 100 1 false) sample_array 2 3 2).
  - reflexivity.
  - reflexivity.
  - reflexivity.
  - reflexivity.
  - exact sample_array_wf.
  - reflexivity.
  - simpl. lia.
Defined.

Lemma preset_wfunc_has_no_chunks_witness :
  fst (process_array in_order sample_array preset_state)
  = Raise AttributeError.
Proof.
  apply (preset_wfunc_has_no_chunks in_order preset_state
           (CallerWrite (fun _ _ => Ok tt)) sample_array).
  - reflexivity.
  - reflexivity.
  - simpl. lia.
Defined.

Lemma negative_nbandsout_raises_witness :
  fst (process_array in_order sample_array
         (sample_state passthrough (-1) 100 1 false)) = Raise ValueError.
Proof.
  apply (negative_nbandsout_raises in_order
           (sample_state passthrough (-1) 100 1 false) sample_array).
  - reflexivity.
  - reflexivity.
  - simpl. lia.
  - simpl. lia.
Defined.

Lemma read_and_process_needs_reader_witness :
  fst (read_and_process reversed (2, 3, 2) (array_reader sample_array)
         (sample_state passthrough 2 100 2 false)) = Raise AttributeError.
Proof.
  apply (read_and_process_needs_reader reversed
           (sample_state passthrough 2 100 2 false) (2, 3, 2)
           (array_reader sample_array)).
  - reflexivity.
  - reflexivity.
  - reflexivity.
  - simpl. lia.
  - simpl. lia.
  - simpl. lia.
Defined.

End FurtherWitnesses.
